(** * 3D-by-video: job orchestration backend

    A shallow embedding of the three FastAPI backends of the repository
    ([main.py], [main_colmap.py], [main_gaussian_splatting.py]) and of the
    constants of [config.py], with the properties of the job orchestration
    core stated and settled against the code.

    Conventions.
    - Python [int] is [Z]; [//] and [%] are [Z.div] and [Z.modulo] (both
      floor-based, like Python's) guarded by an explicit zero test, since
      Python raises [ZeroDivisionError] where Rocq returns [0].
    - The frame rate reported by OpenCV is a Python [float]; it is modelled
      by a rational number, and [int(x)] by truncation toward zero.
    - [dict] is [gmap]; the job table [jobs_status] maps job ids to records.
    - Exceptions are values of type [exn]; code that may raise returns a sum
      or runs in the task monad below.
    - An [async def] is a coroutine of the single-threaded event loop: the
      code between two [await]s runs in one piece, and at an [await] the
      other requests and background tasks may run.
    - The external tools and the operating system are an environment
      [env]: it gives the outcome of every command started and says which
      file-system calls raise.
    - Paths are strings; a directory is the collection of the file names
      in it. *)

From Stdlib Require Import ZArith QArith List String Lia Sorted.
From stdpp Require Import gmap strings list pretty.

Local Open Scope string_scope.
Local Open Scope list_scope.
Local Open Scope Z_scope.

(* ===================================================================== *)
(** * Python values and exceptions *)
(* ===================================================================== *)

(** The exception classes the code raises or the runtime raises on its
    behalf.  Each carries what [str(e)] prints. *)
Inductive exn : Type :=
| Exception (msg : string)
| HTTPException (status_code : Z) (detail : string)
| ZeroDivisionError (msg : string)
| KeyError (key : string)
| AttributeError (msg : string)
| OSError (msg : string).

(** [str(e)] *)
Definition str (e : exn) : string :=
  match e with
  | Exception msg => msg
  | HTTPException c d => pretty c +:+ ": " +:+ d
  | ZeroDivisionError msg => msg
  | KeyError k => "'" +:+ k +:+ "'"
  | AttributeError msg => msg
  | OSError msg => msg
  end.

(** [a // b] on integers *)
Definition floordiv (a b : Z) : exn + Z :=
  if b =? 0 then inl (ZeroDivisionError "integer division or modulo by zero")
  else inr (a / b).

(** [a % b] on integers *)
Definition pymod (a b : Z) : exn + Z :=
  if b =? 0 then inl (ZeroDivisionError "integer modulo by zero")
  else inr (a mod b).

(** [int(x)] on a finite float: truncation toward zero. *)
Definition int_of_float (x : Q) : Z := Z.quot (Qnum x) (Z.pos (Qden x)).

(** [x / n] with [x] a float and [n] an int. *)
Definition truediv (x : Q) (n : Z) : exn + Q :=
  if n =? 0 then inl (ZeroDivisionError "float division by zero")
  else inr (x / inject_Z n)%Q.

(** [f"{n:04d}"] for a non-negative [n]. *)
Definition fmt_04d (n : Z) : string :=
  let s := pretty n in
  String.concat EmptyString (replicate (4 - String.length s)%nat "0") +:+ s.

(* ===================================================================== *)
(** * Video sources *)
(* ===================================================================== *)

(** A decoded image; only its identity matters here. *)
Definition frame : Type := list Z.

(** What [cv2.VideoCapture] exposes of a file: the two properties the code
    reads and the frames that successive [cap.read()] calls return.  An
    unreadable or non-video file has no frames. *)
Record video : Type := Video {
  CAP_PROP_FRAME_COUNT : Z;
  CAP_PROP_FPS : Q;
  frames : list frame
}.

(** A file written by [cv2.imwrite]. *)
Definition image_file : Type := (string * frame)%type.

(* ===================================================================== *)
(** * Job records and the process-wide state *)
(* ===================================================================== *)

(** The four strings stored under ["status"]. *)
Inductive status_t : Type := queued | processing | completed | failed.

Global Instance status_eq_dec : EqDecision status_t.
Proof. solve_decision. Defined.

(** The dict stored in [jobs_status[job_id]]. *)
Record job : Type := Job {
  job_id : string;
  status : status_t;
  message : string;
  progress : Z;
  created_at : string;
  download_url : option string;
  error : option string
}.

(** One assignment [jobs_status[job_id][key] = value]. *)
Inductive item : Type :=
| Status (s : status_t)
| Message (m : string)
| Progress (p : Z)
| Download_url (u : string)
| Error (e : string).

Definition setitem (it : item) (j : job) : job :=
  match it with
  | Status s => Job (job_id j) s (message j) (progress j) (created_at j)
                    (download_url j) (error j)
  | Message m => Job (job_id j) (status j) m (progress j) (created_at j)
                     (download_url j) (error j)
  | Progress p => Job (job_id j) (status j) (message j) p (created_at j)
                      (download_url j) (error j)
  | Download_url u => Job (job_id j) (status j) (message j) (progress j)
                          (created_at j) (Some u) (error j)
  | Error e => Job (job_id j) (status j) (message j) (progress j)
                   (created_at j) (download_url j) (Some e)
  end.

(** What the run leaves behind for the statements below: every write to
    the job table and every external command started, in order. *)
Inductive event : Type :=
| Created (id : string) (j : job)
| Wrote (id : string) (it : item)
| Deleted (id : string)
| Ran (cmd : list string).

(** The state shared by all requests and background tasks of one server
    process: the module-level dict and the three directories. *)
Record world : Type := World {
  jobs_status : gmap string job;
  UPLOAD_DIR : gmap string video;        (* file name -> content *)
  OUTPUT_DIR : list string;              (* file names, in listing order *)
  JOBS_DIR : gmap string (list string);  (* job id -> files below jobs/<id> *)
  background_tasks : list (string * string);  (* add_task(f, job_id, video_path) *)
  log : list event
}.

Definition set_jobs_status (f : gmap string job -> gmap string job) (w : world) :=
  World (f (jobs_status w)) (UPLOAD_DIR w) (OUTPUT_DIR w) (JOBS_DIR w)
        (background_tasks w) (log w).
Definition set_UPLOAD_DIR (f : gmap string video -> gmap string video) (w : world) :=
  World (jobs_status w) (f (UPLOAD_DIR w)) (OUTPUT_DIR w) (JOBS_DIR w)
        (background_tasks w) (log w).
Definition set_OUTPUT_DIR (f : list string -> list string) (w : world) :=
  World (jobs_status w) (UPLOAD_DIR w) (f (OUTPUT_DIR w)) (JOBS_DIR w)
        (background_tasks w) (log w).
Definition set_JOBS_DIR
    (f : gmap string (list string) -> gmap string (list string)) (w : world) :=
  World (jobs_status w) (UPLOAD_DIR w) (OUTPUT_DIR w) (f (JOBS_DIR w))
        (background_tasks w) (log w).
Definition set_background_tasks
    (f : list (string * string) -> list (string * string)) (w : world) :=
  World (jobs_status w) (UPLOAD_DIR w) (OUTPUT_DIR w) (JOBS_DIR w)
        (f (background_tasks w)) (log w).
Definition emit (e : event) (w : world) :=
  World (jobs_status w) (UPLOAD_DIR w) (OUTPUT_DIR w) (JOBS_DIR w)
        (background_tasks w) (log w ++ [e]).

Definition empty_world : world := World ∅ ∅ [] ∅ [] [].

(* ===================================================================== *)
(** * Coroutines *)
(* ===================================================================== *)

(** A coroutine of the single-threaded event loop runs until it returns,
    raises, or reaches an [await]; there it hands the state back, and it
    is resumed later on whatever state the others have left. *)
Inductive res (A : Type) : Type :=
| Done (w : world) (a : A)
| Raised (w : world) (e : exn)
| Suspended (w : world) (k : world -> res A).
Arguments Done {A} w a.
Arguments Raised {A} w e.
Arguments Suspended {A} w k.

Definition task (A : Type) : Type := world -> res A.

Fixpoint res_bind {A B} (f : A -> task B) (r : res A) : res B :=
  match r with
  | Done w a => f a w
  | Raised w e => Raised w e
  | Suspended w k => Suspended w (fun w' => res_bind f (k w'))
  end.

Global Instance task_ret : MRet task := fun A a w => Done w a.
Global Instance task_bind : MBind task := fun A B f m w => res_bind f (m w).

Definition raise {A} (e : exn) : task A := fun w => Raised w e.

(** [try: body  except Exception as e: handler(e)] *)
Fixpoint res_catch {A} (h : exn -> task A) (r : res A) : res A :=
  match r with
  | Done w a => Done w a
  | Raised w e => h e w
  | Suspended w k => Suspended w (fun w' => res_catch h (k w'))
  end.
Definition try_except {A} (body : task A) (h : exn -> task A) : task A :=
  fun w => res_catch h (body w).

(** An [await] on something that is not ready: control returns to the loop. *)
Definition await : task unit := fun w => Suspended w (fun w' => Done w' tt).

Definition modify (f : world -> world) : task unit := fun w => Done (f w) tt.
Definition gets {A} (f : world -> A) : task A := fun w => Done w (f w).
Definition lift {A} (x : exn + A) : task A :=
  match x with inl e => raise e | inr a => mret a end.

(** Run a coroutine to its end, with [others w] done by the rest of the
    system at each suspension point. *)
Fixpoint run_among {A} (others : world -> world) (r : res A)
    : world * (exn + A) :=
  match r with
  | Done w a => (w, inr a)
  | Raised w e => (w, inl e)
  | Suspended w k => run_among others (k (others w))
  end.

(* ===================================================================== *)
(** * The environment: external tools and the operating system *)
(* ===================================================================== *)

(** What an external command does, as far as the orchestration can tell:
    its exit code and error stream, how many rounds of the progress loop
    it stays alive for, and the paths it leaves below the job's working
    directory and in the output directory.  A directory that a command
    creates is listed by its path with a trailing separator, so that a
    directory without a file in it, [sparse/0/], can be told from none. *)
Record proc_result : Type := Proc {
  returncode : Z;
  stderr : string;
  polls : nat;
  job_files : list string;
  out_files : list string
}.

(** File-system calls that can raise. *)
Inductive oscall : Type :=
| Mkdir (path : string)
| Open_wb (path : string)
| Unlink (path : string)
| Move (src dst : string).

(** The behaviour of everything outside the process.  [spawn cmd] is
    [inl e] when starting the command raises (a missing executable);
    [fault c] is [Some e] when the call [c] raises. *)
Record env : Type := Env {
  spawn : list string -> exn + proc_result;
  fault : oscall -> option exn
}.

(** [n in dir]; [touch] creates a file, [remove] deletes one.  A
    directory is listed in the order in which its files were created;
    the order in which the file system lists them is its own. *)
Definition touch (name : string) (dir : list string) : list string :=
  if bool_decide (name ∈ dir) then dir else dir ++ [name].
Definition remove (name : string) (dir : list string) : list string :=
  filter (fun n => n ≠ name) dir.

(** [s.startswith(p)] and the rest of [s] after [p]. *)
Fixpoint strip_prefix (p s : string) : option string :=
  match p, s with
  | EmptyString, _ => Some s
  | String a p', String b s' =>
      if Ascii.eqb a b then strip_prefix p' s' else None
  | String _ _, EmptyString => None
  end.
Definition startswith (s p : string) : bool :=
  match strip_prefix p s with Some _ => true | None => false end.
Definition endswith (s suf : string) : bool :=
  let n := String.length s in
  let m := String.length suf in
  (m <=? n)%nat && String.eqb (substring (n - m) m s) suf.

(** Whether [s] holds a path separator, the character [/] of code 47. *)
Fixpoint has_sep (s : string) : bool :=
  match s with
  | EmptyString => false
  | String c s' => Ascii.eqb c (Ascii.ascii_of_nat 47) || has_sep s'
  end.

(** The paths that [Path.glob] matches against [pre + "*" + suf], for
    literal [pre] and [suf] with the star in the last component: the
    star matches any run of characters but a path separator. *)
Definition fnmatch_star (pre suf name : string) : bool :=
  match strip_prefix pre name with
  | Some rest => endswith rest suf && negb (has_sep rest)
  | None => false
  end.

Section Backend.

Variable E : env.

(** [jobs_status[job_id][key] = value]: the lookup of [job_id] raises
    [KeyError] once the record has been deleted. *)
Definition setitem_job (id : string) (it : item) : task unit :=
  fun w =>
    match jobs_status w !! id with
    | None => Raised w (KeyError id)
    | Some j =>
        Done (emit (Wrote id it)
                (set_jobs_status (insert id (setitem it j)) w)) tt
    end.

Definition when (b : bool) (t : task unit) : task unit :=
  if b then t else mret tt.

Definition oscheck (c : oscall) : task unit :=
  match fault E c with
  | Some e => raise e
  | None => mret tt
  end.

(** [(JOBS_DIR / job_id / sub).mkdir(parents=True, exist_ok=True)] *)
Definition makedirs (id sub : string) : task unit :=
  oscheck (Mkdir ("jobs/" +:+ id +:+ "/" +:+ sub)) ;;
  modify (set_JOBS_DIR (fun d => <[id := default [] (d !! id)]> d)).

Definition add_job_files (id : string) (names : list string) : task unit :=
  modify (set_JOBS_DIR (fun d => <[id := default [] (d !! id) ++ names]> d)).

(** [shutil.rmtree(JOBS_DIR / job_id, ignore_errors=True)] *)
Definition rmtree (id : string) : task unit :=
  modify (set_JOBS_DIR (delete id)).

(** [await asyncio.create_subprocess_exec] on the words of [cmd] *)
Definition create_subprocess_exec (cmd : list string) : task proc_result :=
  process ← lift (spawn E cmd) ;
  modify (emit (Ran cmd)) ;;
  await ;;
  mret process.

(** [await process.communicate()]: the process has exited and its files
    are in place. *)
Definition communicate (id : string) (process : proc_result) : task unit :=
  await ;;
  add_job_files id (job_files process) ;;
  modify (set_OUTPUT_DIR (fun d => foldl (fun d n => touch n d) d (out_files process))).

(** [subprocess.run(cmd, capture_output=True, text=True)]: blocks the
    event loop until the command has exited. *)
Definition subprocess_run (id : string) (cmd : list string) : task proc_result :=
  result ← lift (spawn E cmd) ;
  modify (emit (Ran cmd)) ;;
  add_job_files id (job_files result) ;;
  modify (set_OUTPUT_DIR (fun d => foldl (fun d n => touch n d) d (out_files result))) ;;
  mret result.

(** [stderr.decode() if stderr else dflt] *)
Definition decode_or (err dflt : string) : string :=
  if String.eqb err EmptyString then dflt else err.

(** What [cv2.VideoCapture(str(video_path))] reads: the uploaded file, or
    nothing when it is missing. *)
Definition capture (video_path : string) (w : world) : video :=
  default (Video 0 0 []) (UPLOAD_DIR w !! video_path).

End Backend.

(** An uploaded file as FastAPI hands it over. *)
Record upload_file : Type := Upload {
  content_type : option string;
  content : video
}.

(** The values [uuid.uuid4()] and [datetime.now().isoformat()] produce
    during one request. *)
Record draw : Type := Draw { uuid4 : string; now : string }.

(** What an endpoint returns when it does not raise. *)
Inductive response : Type :=
| Started (id : string)                 (* {"success": True, "job_id": id, ...} *)
| Job_json (j : job)
| Jobs_json (js : list job)
| File_response (filename : string)
| Success.

(** [jobs_status[job_id] = { ..., "status": "queued", ... }] *)
Definition new_job (id msg now : string) : job :=
  Job id queued msg 0 now None None.
Definition create_job (id msg now : string) : task unit :=
  modify (fun w => emit (Created id (new_job id msg now))
                     (set_jobs_status (insert id (new_job id msg now)) w)).

(** [background_tasks.add_task(f, job_id, video_path)] *)
Definition add_task (id video_path : string) : task unit :=
  modify (set_background_tasks (fun q => q ++ [(id, video_path)])).

(* ===================================================================== *)
(** * main.py: Nerfstudio backend *)
(* ===================================================================== *)

Module Main.

(** The [while True] loop of [extract_frames_from_video], on the frames
    still to be read.  Returns [extracted_count] and the files written. *)
Fixpoint scan (interval target_frames : Z) (rest : list frame)
    (frame_count extracted_count : Z) (written : list image_file)
    : Z * list image_file :=
  match rest with
  | [] => (extracted_count, written)                    (* not ret: break *)
  | fr :: rest' =>
      if frame_count mod interval =? 0 then
        let frame_path := "frame_" +:+ fmt_04d extracted_count +:+ ".jpg" in
        let written := written ++ [(frame_path, fr)] in
        let extracted_count := extracted_count + 1 in
        if extracted_count >=? target_frames then (extracted_count, written)
        else scan interval target_frames rest' (frame_count + 1)
                  extracted_count written
      else scan interval target_frames rest' (frame_count + 1)
                extracted_count written
  end.

(** [extract_frames_from_video(video_path, output_dir, target_frames)] on
    the decoded content of [video_path]. *)
Definition extract_frames_from_video (v : video) (target_frames : Z)
    : exn + (Z * list image_file) :=
  let total_frames := CAP_PROP_FRAME_COUNT v in
  match floordiv total_frames target_frames with
  | inl e => inl e
  | inr q =>
      let interval := Z.max 1 q in
      inr (scan interval target_frames (frames v) 0 0 [])
  end.

Section WithEnv.

Variable E : env.

(** The call [extract_frames_from_video(video_path, frames_dir, 50)] with
    its effect on the working directory. *)
Definition extract_frames (id video_path : string) (target_frames : Z) : task Z :=
  oscheck E (Mkdir ("jobs/" +:+ id +:+ "/images")) ;;
  v ← gets (capture video_path) ;
  r ← lift (extract_frames_from_video v target_frames) ;
  add_job_files id (map (fun f => "images/" +:+ f.1) r.2) ;;
  mret r.1.

(** The loop [while process.returncode is None] that simulates progress
    while the training process is alive. *)
Fixpoint poll_training (id : string) (polls : nat) (progress : Z) : task unit :=
  match polls with
  | O => mret tt
  | S n =>
      await ;;                                      (* asyncio.sleep(5) *)
      let progress := Z.min (progress + 5) 85 in
      setitem_job id (Progress progress) ;;
      await ;;                  (* wait_for(process.wait(), timeout=0.1) *)
      poll_training id n progress
  end.

(** [process_3d_generation], lines 107 to 226: the four stages, from the
    first write of ["processing"] to the exit code of the export. *)
Definition run_stages (job_id video_path : string) : task unit :=
  setitem_job job_id (Status processing) ;;
  setitem_job job_id (Message "Extraction des frames...") ;;
  setitem_job job_id (Progress 10) ;;
  let job_dir := "jobs/" +:+ job_id in
  let frames_dir := job_dir +:+ "/images" in
  let output_dir := job_dir +:+ "/output" in
  makedirs E job_id "images" ;;
  makedirs E job_id "output" ;;
  (* Etape 1: extraire les frames *)
  num_frames ← extract_frames job_id video_path 50 ;
  when (num_frames <? 10)
    (raise (Exception ("Pas assez de frames extraites (" +:+ pretty num_frames
                       +:+ "). Vidéo trop courte?"))) ;;
  setitem_job job_id (Progress 20) ;;
  setitem_job job_id (Message "Traitement COLMAP (structure from motion)...") ;;
  (* Etape 2: COLMAP *)
  let colmap_cmd :=
    ["ns-process-data"; "video"; "--data"; frames_dir;
     "--output-dir"; job_dir +:+ "/colmap";
     "--num-frames-target"; pretty num_frames] in
  process ← create_subprocess_exec E colmap_cmd ;
  communicate job_id process ;;
  when (negb (returncode process =? 0))
    (raise (Exception ("COLMAP processing failed: "
                       +:+ decode_or (stderr process) "COLMAP failed"))) ;;
  setitem_job job_id (Progress 40) ;;
  setitem_job job_id (Message "Entraînement du modèle NeRF (Instant-NGP)...") ;;
  (* Etape 3: entrainement *)
  let train_cmd :=
    ["ns-train"; "instant-ngp"; "--data"; job_dir +:+ "/colmap";
     "--output-dir"; output_dir; "--max-num-iterations"; "10000";
     "--pipeline.model.predict-normals"; "True";
     "--vis"; "viewer+tensorboard"] in
  process ← create_subprocess_exec E train_cmd ;
  poll_training job_id (polls process) 40 ;;
  communicate job_id process ;;
  when (negb (returncode process =? 0))
    (raise (Exception ("NeRF training failed: "
                       +:+ decode_or (stderr process) "Training failed"))) ;;
  setitem_job job_id (Progress 90) ;;
  setitem_job job_id (Message "Export du modèle 3D...") ;;
  (* Etape 4: export en PLY; the latest checkpoint is computed and not used *)
  checkpoints ← gets (fun w =>
    filter (fun n => fnmatch_star "output/instant-ngp/nerfstudio_models/step-"
                                  ".ckpt" n)
           (default [] (JOBS_DIR w !! job_id))) ;
  when (bool_decide (checkpoints = []))
    (raise (Exception "Aucun checkpoint trouvé après l'entraînement")) ;;
  let export_cmd :=
    ["ns-export"; "pointcloud"; "--load-config";
     output_dir +:+ "/instant-ngp/nerfstudio_models/config.yml";
     "--output-dir"; "outputs"; "--num-points"; "1000000";
     "--remove-outliers"; "True"; "--normal-method"; "model_output"] in
  process ← create_subprocess_exec E export_cmd ;
  communicate job_id process ;;
  when (negb (returncode process =? 0))
    (raise (Exception ("PLY export failed: "
                       +:+ decode_or (stderr process) "Export failed"))).

(** [list(OUTPUT_DIR.glob(f"{job_id}*.ply"))] *)
Definition glob_ply (job_id : string) (w : world) : list string :=
  filter (fun n => fnmatch_star job_id ".ply" n) (OUTPUT_DIR w).

(** Lines 228 to 238: find the exported file and give it its final name. *)
Definition resolve_artifact (job_id : string) : task unit :=
  ply_files ← gets (glob_ply job_id) ;
  match ply_files with
  | [] => raise (Exception "Fichier PLY non trouvé après l'export")
  | ply_file :: _ =>                                     (* ply_files[0] *)
      let final_ply := job_id +:+ ".ply" in
      when (negb (String.eqb ply_file final_ply))
        (oscheck E (Move ("outputs/" +:+ ply_file) ("outputs/" +:+ final_ply)) ;;
         modify (set_OUTPUT_DIR (fun d => touch final_ply (remove ply_file d))))
  end.

(** Lines 240 to 251: record the success, then remove the temporary files. *)
Definition complete (job_id video_path : string) : task unit :=
  setitem_job job_id (Status completed) ;;
  setitem_job job_id (Progress 100) ;;
  setitem_job job_id (Message "Modèle 3D généré avec succès") ;;
  setitem_job job_id (Download_url ("/download/" +:+ job_id +:+ ".ply")) ;;
  (* Nettoyer les fichiers temporaires *)
  rmtree job_id ;;
  exists_ ← gets (fun w => bool_decide (is_Some (UPLOAD_DIR w !! video_path))) ;
  when exists_
    (oscheck E (Unlink ("uploads/" +:+ video_path)) ;;
     modify (set_UPLOAD_DIR (delete video_path))).

(** Lines 253 to 258: the [except Exception as e] clause. *)
Definition on_exception (job_id : string) (e : exn) : task unit :=
  setitem_job job_id (Status failed) ;;
  setitem_job job_id (Message "Échec de la génération") ;;
  setitem_job job_id (Error (str e)) ;;
  setitem_job job_id (Progress 0).

(** The whole of [process_3d_generation] is one [try] block. *)
Definition process_3d_generation (job_id video_path : string) : task unit :=
  try_except
    (run_stages job_id video_path ;;
     resolve_artifact job_id ;;
     complete job_id video_path)
    (on_exception job_id).

(** [POST /generate-3d] *)
Definition generate_3d (file : upload_file) (d : draw) : task response :=
  try_except (
    (* Verifier le type de fichier *)
    ct ← match content_type file with
         | Some ct => mret ct
         | None => raise (AttributeError
                     "'NoneType' object has no attribute 'startswith'")
         end ;
    when (negb (startswith ct "video/"))
      (raise (HTTPException 400 "Le fichier doit être une vidéo")) ;;
    let job_id := uuid4 d in
    (* Sauvegarder la video *)
    let video_path := job_id +:+ ".mp4" in
    oscheck E (Open_wb ("uploads/" +:+ video_path)) ;;
    modify (set_UPLOAD_DIR (insert video_path (Video 0 0 []))) ;;
    await ;;                                       (* await file.read() *)
    modify (set_UPLOAD_DIR (insert video_path (content file))) ;;
    (* Initialiser le statut du job *)
    create_job job_id "En attente de traitement..." (now d) ;;
    (* Lancer le traitement en arriere-plan *)
    add_task job_id video_path ;;
    mret (Started job_id)
  ) (fun e =>
    raise (HTTPException 500 ("Erreur lors de l'upload: " +:+ str e))).

(** [GET /job-status/{job_id}] *)
Definition get_job_status (job_id : string) : task response :=
  j ← gets (fun w => jobs_status w !! job_id) ;
  match j with
  | None => raise (HTTPException 404 "Job non trouvé")
  | Some j => mret (Job_json j)
  end.

(** [GET /download/{filename}] *)
Definition download_model (filename : string) : task response :=
  exists_ ← gets (fun w => bool_decide (filename ∈ OUTPUT_DIR w)) ;
  when (negb exists_) (raise (HTTPException 404 "Fichier non trouvé")) ;;
  mret (File_response filename).

(** [DELETE /job/{job_id}] *)
Definition delete_job (job_id : string) : task response :=
  present ← gets (fun w => bool_decide (is_Some (jobs_status w !! job_id))) ;
  if present : bool then
    (* Supprimer les fichiers *)
    let ply_file := job_id +:+ ".ply" in
    exists_ ← gets (fun w => bool_decide (ply_file ∈ OUTPUT_DIR w)) ;
    when exists_
      (oscheck E (Unlink ("outputs/" +:+ ply_file)) ;;
       modify (set_OUTPUT_DIR (remove ply_file))) ;;
    (* Supprimer du statut *)
    modify (fun w => emit (Deleted job_id) (set_jobs_status (delete job_id) w)) ;;
    mret Success
  else raise (HTTPException 404 "Job non trouvé").

(** [GET /jobs].  The records come in the order of the keys of the
    table, which does not keep the order of insertion of a [dict]; the
    field ["total"], the length of the list, is not repeated. *)
Definition list_jobs : task response :=
  js ← gets (fun w => (map_to_list (jobs_status w)).*2) ;
  mret (Jobs_json js).

End WithEnv.

End Main.
(* ===================================================================== *)
(** * main_colmap.py: COLMAP-only backend *)
(* ===================================================================== *)

Module Colmap.

Fixpoint scan (frame_interval : Z) (rest : list frame)
    (frame_count saved_count : Z) (written : list image_file)
    : Z * list image_file :=
  match rest with
  | [] => (saved_count, written)
  | fr :: rest' =>
      if frame_count mod frame_interval =? 0 then
        let frame_path := "frame_" +:+ fmt_04d saved_count +:+ ".jpg" in
        scan frame_interval rest' (frame_count + 1) (saved_count + 1)
             (written ++ [(frame_path, fr)])
      else scan frame_interval rest' (frame_count + 1) saved_count written
  end.

(** [frame_interval = max(1, int(video_fps / fps))]: the interval is at
    least one, so the modulo in the loop never fails. *)
Definition extract_frames_from_video (v : video) (fps : Z)
    : exn + (Z * list image_file) :=
  let video_fps := CAP_PROP_FPS v in
  match truediv video_fps fps with
  | inl e => inl e
  | inr r =>
      let frame_interval := Z.max 1 (int_of_float r) in
      inr (scan frame_interval (frames v) 0 0 [])
  end.

Section WithEnv.

Variable E : env.

Definition extract_frames (id video_path : string) (fps : Z) : task Z :=
  oscheck E (Mkdir ("jobs/" +:+ id +:+ "/images")) ;;
  v ← gets (capture video_path) ;
  r ← lift (extract_frames_from_video v fps) ;
  add_job_files id (map (fun f => "images/" +:+ f.1) r.2) ;;
  mret r.1.

Definition process_colmap (job_id video_path : string) : task unit :=
  try_except (
    setitem_job job_id (Status processing) ;;
    setitem_job job_id (Message "Extraction des frames...") ;;
    setitem_job job_id (Progress 10) ;;
    let job_dir := "jobs/" +:+ job_id in
    let images_dir := job_dir +:+ "/images" in
    let sparse_dir := job_dir +:+ "/sparse" in
    let database_path := job_dir +:+ "/database.db" in
    makedirs E job_id "images" ;;
    makedirs E job_id "sparse" ;;
    (* Etape 1: extraire frames *)
    num_frames ← extract_frames job_id video_path 3 ;
    when (num_frames <? 10)
      (raise (Exception ("Pas assez de frames: " +:+ pretty num_frames
                         +:+ ". Vidéo trop courte (minimum 5 secondes)"))) ;;
    setitem_job job_id (Progress 20) ;;
    setitem_job job_id (Message "COLMAP: Feature extraction...") ;;
    (* Etape 2: feature extraction *)
    let feature_cmd :=
      ["colmap"; "feature_extractor"; "--database_path"; database_path;
       "--image_path"; images_dir; "--ImageReader.single_camera"; "1";
       "--ImageReader.camera_model"; "SIMPLE_RADIAL"] in
    result ← subprocess_run E job_id feature_cmd ;
    when (negb (returncode result =? 0))
      (raise (Exception ("Feature extraction failed: " +:+ stderr result))) ;;
    setitem_job job_id (Progress 40) ;;
    setitem_job job_id (Message "COLMAP: Feature matching...") ;;
    (* Etape 3: feature matching *)
    let matching_cmd :=
      ["colmap"; "exhaustive_matcher"; "--database_path"; database_path] in
    result ← subprocess_run E job_id matching_cmd ;
    when (negb (returncode result =? 0))
      (raise (Exception ("Feature matching failed: " +:+ stderr result))) ;;
    setitem_job job_id (Progress 60) ;;
    setitem_job job_id (Message "COLMAP: Reconstruction 3D...") ;;
    (* Etape 4: mapper *)
    let mapper_cmd :=
      ["colmap"; "mapper"; "--database_path"; database_path;
       "--image_path"; images_dir; "--output_path"; sparse_dir] in
    result ← subprocess_run E job_id mapper_cmd ;
    when (negb (returncode result =? 0))
      (raise (Exception ("Mapper failed: " +:+ stderr result))) ;;
    setitem_job job_id (Progress 80) ;;
    setitem_job job_id (Message "Export du modèle 3D...") ;;
    (* Etape 5: export PLY; model_dir.exists(): the directory itself or
       anything below it is listed *)
    model_dir_exists ← gets (fun w =>
      existsb (fun n => startswith n "sparse/0/")
              (default [] (JOBS_DIR w !! job_id))) ;
    when (negb model_dir_exists)
      (raise (Exception "Reconstruction failed: no model generated")) ;;
    let output_ply := "outputs/" +:+ job_id +:+ ".ply" in
    let export_cmd :=
      ["colmap"; "model_converter"; "--input_path"; sparse_dir +:+ "/0";
       "--output_path"; output_ply; "--output_type"; "PLY"] in
    result ← subprocess_run E job_id export_cmd ;
    when (negb (returncode result =? 0))
      (raise (Exception ("Export failed: " +:+ stderr result))) ;;
    (* Nettoyage *)
    oscheck E (Unlink ("uploads/" +:+ video_path)) ;;
    modify (set_UPLOAD_DIR (delete video_path)) ;;
    rmtree job_id ;;
    setitem_job job_id (Status completed) ;;
    setitem_job job_id (Message "Modèle 3D généré !") ;;
    setitem_job job_id (Progress 100) ;;
    setitem_job job_id (Download_url ("/download/" +:+ job_id +:+ ".ply"))
  ) (fun e =>
    setitem_job job_id (Status failed) ;;
    setitem_job job_id (Message ("Erreur: " +:+ str e)) ;;
    setitem_job job_id (Error (str e))).

(** [POST /generate-3d]: no test of the content type here. *)
Definition generate_3d (video : upload_file) (d : draw) : task response :=
  let job_id := uuid4 d in
  let video_path := job_id +:+ ".mp4" in
  oscheck E (Open_wb ("uploads/" +:+ video_path)) ;;
  modify (set_UPLOAD_DIR (insert video_path (Video 0 0 []))) ;;
  await ;;                                        (* await video.read() *)
  modify (set_UPLOAD_DIR (insert video_path (content video))) ;;
  create_job job_id "En attente..." (now d) ;;
  add_task job_id video_path ;;
  mret (Started job_id).

Definition get_job_status (job_id : string) : task response :=
  j ← gets (fun w => jobs_status w !! job_id) ;
  match j with
  | None => raise (HTTPException 404 "Job non trouvé")
  | Some j => mret (Job_json j)
  end.

Definition download_model (filename : string) : task response :=
  exists_ ← gets (fun w => bool_decide (filename ∈ OUTPUT_DIR w)) ;
  when (negb exists_) (raise (HTTPException 404 "Fichier non trouvé")) ;;
  mret (File_response filename).

(** [DELETE /job/{job_id}] *)
Definition delete_job (job_id : string) : task response :=
  present ← gets (fun w => bool_decide (is_Some (jobs_status w !! job_id))) ;
  if present : bool then
    (* Supprimer les fichiers *)
    let output_file := job_id +:+ ".ply" in
    oscheck E (Unlink ("outputs/" +:+ output_file)) ;;  (* missing_ok=True *)
    modify (set_OUTPUT_DIR (remove output_file)) ;;
    rmtree job_id ;;
    modify (fun w => emit (Deleted job_id) (set_jobs_status (delete job_id) w)) ;;
    mret Success
  else raise (HTTPException 404 "Job non trouvé").

(** [GET /jobs] *)
Definition list_jobs : task response :=
  js ← gets (fun w => (map_to_list (jobs_status w)).*2) ;
  mret (Jobs_json js).

End WithEnv.

End Colmap.

(* ===================================================================== *)
(** * main_gaussian_splatting.py: the frame sampler *)
(* ===================================================================== *)

Module GaussianSplatting.

(** Here the modulo can fail, so the loop itself returns a sum. *)
Fixpoint scan (frame_interval : Z) (rest : list frame)
    (frame_count saved_count : Z) (written : list image_file)
    : exn + (Z * list image_file) :=
  match rest with
  | [] => inr (saved_count, written)
  | fr :: rest' =>
      match pymod frame_count frame_interval with
      | inl e => inl e
      | inr r =>
          if r =? 0 then
            let frame_path := fmt_04d saved_count +:+ ".jpg" in
            scan frame_interval rest' (frame_count + 1) (saved_count + 1)
                 (written ++ [(frame_path, fr)])
          else scan frame_interval rest' (frame_count + 1) saved_count written
      end
  end.

(** [frame_interval = int(video_fps / fps)], with no lower bound. *)
Definition extract_frames_from_video (v : video) (fps : Z)
    : exn + (Z * list image_file) :=
  let video_fps := CAP_PROP_FPS v in
  match truediv video_fps fps with
  | inl e => inl e
  | inr r =>
      let frame_interval := int_of_float r in
      scan frame_interval (frames v) 0 0 []
  end.

Definition GAUSSIAN_SPLATTING_PATH : string := "/workspace/gaussian-splatting".

Section WithEnv.

Variable E : env.

(** The call [extract_frames_from_video(video_path, input_dir, fps=3)]
    with its effect on the working directory. *)
Definition extract_frames (id video_path : string) (fps : Z) : task Z :=
  oscheck E (Mkdir ("jobs/" +:+ id +:+ "/input")) ;;
  v ← gets (capture video_path) ;
  r ← lift (extract_frames_from_video v fps) ;
  add_job_files id (map (fun f => "input/" +:+ f.1) r.2) ;;
  mret r.1.

(** The loop [while process.returncode is None] of the training stage. *)
Fixpoint poll_training (id : string) (polls : nat) (progress : Z) : task unit :=
  match polls with
  | O => mret tt
  | S n =>
      await ;;                                      (* asyncio.sleep(3) *)
      let progress := Z.min (progress + 5) 85 in
      setitem_job id (Progress progress) ;;
      await ;;                  (* wait_for(process.wait(), timeout=0.1) *)
      poll_training id n progress
  end.

(** [process_gaussian_splatting]; the two commands run with
    [cwd=GAUSSIAN_SPLATTING_PATH], which is the same for every job. *)
Definition process_gaussian_splatting (job_id video_path : string) : task unit :=
  try_except (
    setitem_job job_id (Status processing) ;;
    setitem_job job_id (Message "Extraction des frames...") ;;
    setitem_job job_id (Progress 10) ;;
    let job_dir := "jobs/" +:+ job_id in
    let output_dir := job_dir +:+ "/output" in
    makedirs E job_id "input" ;;
    makedirs E job_id "output" ;;
    (* Etape 1: extraire frames *)
    num_frames ← extract_frames job_id video_path 3 ;
    when (num_frames <? 10)
      (raise (Exception ("Pas assez de frames: " +:+ pretty num_frames
                         +:+ ". Vidéo trop courte (minimum 5 secondes)"))) ;;
    setitem_job job_id (Progress 20) ;;
    setitem_job job_id (Message "COLMAP: Structure from Motion...") ;;
    (* Etape 2: COLMAP pour les poses de camera *)
    let colmap_cmd :=
      ["python"; GAUSSIAN_SPLATTING_PATH +:+ "/convert.py"; "-s"; job_dir;
       "--skip_matching"] in
    process ← create_subprocess_exec E colmap_cmd ;
    communicate job_id process ;;
    when (negb (returncode process =? 0))
      (raise (Exception ("COLMAP failed: " +:+ stderr process))) ;;
    setitem_job job_id (Progress 40) ;;
    setitem_job job_id (Message "Entraînement Gaussian Splatting...") ;;
    (* Etape 3: entrainement *)
    let train_cmd :=
      ["python"; "train.py"; "-s"; job_dir; "-m"; output_dir;
       "--iterations"; "7000"; "--test_iterations"; "7000";
       "--save_iterations"; "7000"; "--quiet"] in
    process ← create_subprocess_exec E train_cmd ;
    poll_training job_id (polls process) 40 ;;
    communicate job_id process ;;
    when (negb (returncode process =? 0))
      (raise (Exception ("Training failed: " +:+ stderr process))) ;;
    setitem_job job_id (Progress 90) ;;
    setitem_job job_id (Message "Export du modèle PLY...") ;;
    (* Etape 4: le modele PLY est deja genere *)
    let ply_source := "output/point_cloud/iteration_7000/point_cloud.ply" in
    exists_ ← gets (fun w =>
      bool_decide (ply_source ∈ default [] (JOBS_DIR w !! job_id))) ;
    when (negb exists_)
      (raise (Exception "Fichier PLY non trouvé après l'entraînement")) ;;
    (* shutil.copy(ply_source, ply_final) opens the destination for writing *)
    let ply_final := job_id +:+ ".ply" in
    oscheck E (Open_wb ("outputs/" +:+ ply_final)) ;;
    modify (set_OUTPUT_DIR (touch ply_final)) ;;
    (* Succes *)
    setitem_job job_id (Status completed) ;;
    setitem_job job_id (Progress 100) ;;
    setitem_job job_id (Message "Modèle 3D généré avec succès") ;;
    setitem_job job_id (Download_url ("/download/" +:+ job_id +:+ ".ply")) ;;
    (* Nettoyer *)
    rmtree job_id ;;
    exists_ ← gets (fun w => bool_decide (is_Some (UPLOAD_DIR w !! video_path))) ;
    when exists_
      (oscheck E (Unlink ("uploads/" +:+ video_path)) ;;
       modify (set_UPLOAD_DIR (delete video_path)))
  ) (fun e =>
    setitem_job job_id (Status failed) ;;
    setitem_job job_id (Message "Échec de la génération") ;;
    setitem_job job_id (Error (str e))).

(** [POST /generate-3d] *)
Definition generate_3d (file : upload_file) (d : draw) : task response :=
  try_except (
    ct ← match content_type file with
         | Some ct => mret ct
         | None => raise (AttributeError
                     "'NoneType' object has no attribute 'startswith'")
         end ;
    when (negb (startswith ct "video/"))
      (raise (HTTPException 400 "Le fichier doit être une vidéo")) ;;
    let job_id := uuid4 d in
    let video_path := job_id +:+ ".mp4" in
    oscheck E (Open_wb ("uploads/" +:+ video_path)) ;;
    modify (set_UPLOAD_DIR (insert video_path (Video 0 0 []))) ;;
    await ;;                                       (* await file.read() *)
    modify (set_UPLOAD_DIR (insert video_path (content file))) ;;
    create_job job_id "En attente..." (now d) ;;
    add_task job_id video_path ;;
    mret (Started job_id)
  ) (fun e =>
    raise (HTTPException 500 ("Erreur: " +:+ str e))).

(** [GET /job-status/{job_id}] *)
Definition get_job_status (job_id : string) : task response :=
  j ← gets (fun w => jobs_status w !! job_id) ;
  match j with
  | None => raise (HTTPException 404 "Job non trouvé")
  | Some j => mret (Job_json j)
  end.

(** [GET /download/{filename}] *)
Definition download_model (filename : string) : task response :=
  exists_ ← gets (fun w => bool_decide (filename ∈ OUTPUT_DIR w)) ;
  when (negb exists_) (raise (HTTPException 404 "Fichier non trouvé")) ;;
  mret (File_response filename).

End WithEnv.

End GaussianSplatting.

(* ===================================================================== *)
(** * The event loop *)
(* ===================================================================== *)

(** One server process: the shared state, the request handlers and the
    background tasks that are suspended at an [await], and the answers
    already sent. *)
Record system : Type := System {
  state : world;
  handlers : list (world -> res response);
  workers : list (world -> res unit);
  responses : list (exn + response)
}.

Definition boot : system := System empty_world [] [] [].

(** What the loop can do next.  Nothing bounds how many handlers or
    background tasks are in flight: [Start_background i] is enabled
    whenever an [i]-th task has been added and not yet started. *)
Inductive action : Type :=
| Request (h : task response)     (* a request arrives; its handler starts *)
| Resume_handler (i : nat)        (* the awaited thing of handler [i] is ready *)
| Start_background (i : nat)      (* the [i]-th added background task starts *)
| Resume_worker (i : nat).        (* the awaited thing of task [i] is ready *)

Definition settle_handler (s : system) (r : res response) : system :=
  match r with
  | Done w a => System w (handlers s) (workers s) (responses s ++ [inr a])
  | Raised w e => System w (handlers s) (workers s) (responses s ++ [inl e])
  | Suspended w k => System w (handlers s ++ [k]) (workers s) (responses s)
  end.

(** An exception that escapes a background task is logged by the server
    and dropped. *)
Definition settle_worker (s : system) (r : res unit) : system :=
  match r with
  | Done w _ => System w (handlers s) (workers s) (responses s)
  | Raised w _ => System w (handlers s) (workers s) (responses s)
  | Suspended w k => System w (handlers s) (workers s ++ [k]) (responses s)
  end.

Section Loop.

(** The function handed to [add_task]. *)
Variable background : string -> string -> task unit.

Definition step (s : system) (a : action) : system :=
  match a with
  | Request h => settle_handler s (h (state s))
  | Resume_handler i =>
      match handlers s !! i with
      | Some k =>
          settle_handler
            (System (state s) (delete i (handlers s)) (workers s) (responses s))
            (k (state s))
      | None => s
      end
  | Start_background i =>
      match background_tasks (state s) !! i with
      | Some (id, video_path) =>
          let w := set_background_tasks (delete i) (state s) in
          settle_worker (System w (handlers s) (workers s) (responses s))
                        (background id video_path w)
      | None => s
      end
  | Resume_worker i =>
      match workers s !! i with
      | Some k =>
          settle_worker
            (System (state s) (handlers s) (delete i (workers s)) (responses s))
            (k (state s))
      | None => s
      end
  end.

Definition steps (s : system) (l : list action) : system := foldl step s l.

(** The states the loop passes through, one after each action: what the
    requests that arrive in between can see. *)
Fixpoint history (s : system) (l : list action) : list system :=
  match l with
  | [] => [s]
  | a :: l => s :: history (step s a) l
  end.

End Loop.

(** The statuses of job [id] in a sequence of states, without repeats. *)
Definition observed (id : string) (h : list system) : list status_t :=
  remove_dups (omap (fun s => status <$> jobs_status (state s) !! id) h).

(** ** Reading the log *)

(** The values written under ["status"] of job [id], creation included. *)
Fixpoint status_writes (id : string) (l : list event) : list status_t :=
  match l with
  | [] => []
  | Created id' j :: l =>
      if String.eqb id id' then status j :: status_writes id l
      else status_writes id l
  | Wrote id' (Status s) :: l =>
      if String.eqb id id' then s :: status_writes id l
      else status_writes id l
  | _ :: l => status_writes id l
  end.

(** The values written under ["progress"] of job [id] while its status,
    [cur] at the start of [l], is ["processing"]. *)
Fixpoint progress_writes (id : string) (cur : status_t) (l : list event) : list Z :=
  match l with
  | [] => []
  | Created id' j :: l =>
      progress_writes id (if String.eqb id id' then status j else cur) l
  | Wrote id' (Status s) :: l =>
      progress_writes id (if String.eqb id id' then s else cur) l
  | Wrote id' (Progress p) :: l =>
      if String.eqb id id' && bool_decide (cur = processing)
      then p :: progress_writes id cur l
      else progress_writes id cur l
  | _ :: l => progress_writes id cur l
  end.

(** The external commands started. *)
Definition commands (l : list event) : list (list string) :=
  omap (fun e => match e with Ran cmd => Some cmd | _ => None end) l.

(** One move of the job state machine
    [queued -> processing -> {completed | failed}]. *)
Definition forward (a b : status_t) : bool :=
  match a, b with
  | queued, processing => true
  | processing, completed => true
  | processing, failed => true
  | _, _ => false
  end.

(** A status sequence that starts in [queued] and only moves forward. *)
Fixpoint all_forward (l : list status_t) : bool :=
  match l with
  | a :: (b :: _) as l' => forward a b && all_forward l'
  | _ => true
  end.
Definition strictly_forward (l : list status_t) : bool :=
  match l with
  | [] => true
  | a :: _ => bool_decide (a = queued) && all_forward l
  end.

(** The two optional fields agree with the status. *)
Definition fields_agree (j : job) : bool :=
  bool_decide (is_Some (download_url j) ↔ status j = completed)
  && bool_decide (is_Some (error j) ↔ status j = failed).

(** [config.py]: [MAX_CONCURRENT_JOBS = int(os.getenv("MAX_CONCURRENT_JOBS", "2"))];
    no other file of the repository reads it. *)
Module Config.
Definition MAX_CONCURRENT_JOBS (getenv : option Z) : Z := default 2 getenv.

(** [os.getenv(key, dflt)] on the environment of the process. *)
Definition getenv (environ : gmap string string) (key dflt : string) : string :=
  default dflt (environ !! key).

(** [s.lower()], as far as a comparison with an ASCII word can tell: the
    letters [A] to [Z] are lowered, every other byte is kept. *)
Definition lower_ascii (c : Ascii.ascii) : Ascii.ascii :=
  let n := Ascii.nat_of_ascii c in
  if ((65 <=? n) && (n <=? 90))%nat then Ascii.ascii_of_nat (n + 32) else c.
Fixpoint lower (s : string) : string :=
  match s with
  | EmptyString => EmptyString
  | String c s' => String (lower_ascii c) (lower s')
  end.

(** [os.getenv(key, dflt).lower() == "true"] *)
Definition flag (environ : gmap string string) (key dflt : string) : bool :=
  String.eqb (lower (getenv environ key dflt)) "true".

Definition CLEANUP_TEMP_FILES (environ : gmap string string) : bool :=
  flag environ "CLEANUP_TEMP_FILES" "true".
Definition ENABLE_AUTH (environ : gmap string string) : bool :=
  flag environ "ENABLE_AUTH" "false".
Definition ENABLE_METRICS (environ : gmap string string) : bool :=
  flag environ "ENABLE_METRICS" "false".
Definition API_KEY (environ : gmap string string) : option string :=
  environ !! "API_KEY".
(** The text of the path as the environment gives it; [Path] would drop
    a trailing separator and turn the empty text into [.]. *)
Definition GAUSSIAN_SPLATTING_PATH (environ : gmap string string) : string :=
  getenv environ "GAUSSIAN_SPLATTING_PATH" "/workspace/gaussian-splatting".
Definition MAX_UPLOAD_SIZE_BYTES (MAX_UPLOAD_SIZE_MB : Z) : Z :=
  MAX_UPLOAD_SIZE_MB * 1024 * 1024.

(** The exception [validate] raises. *)
Inductive error : Type := ValueError (msg : string).

Definition newline : string := String (Ascii.ascii_of_nat 10) EmptyString.

(** [not cls.API_KEY]: unset or empty. *)
Definition unset (key : option string) : bool :=
  match key with
  | None => true
  | Some k => String.eqb k EmptyString
  end.

(** [Config.validate()]; [path_exists] is what
    [GAUSSIAN_SPLATTING_PATH.exists()] answers. *)
Definition validate (environ : gmap string string) (path_exists : bool)
    : error + unit :=
  let errors := [] in
  (* Verifier Gaussian Splatting *)
  let errors :=
    if negb path_exists
    then errors ++ ["Gaussian Splatting non trouvé: "
                    +:+ GAUSSIAN_SPLATTING_PATH environ]
    else errors in
  (* Verifier l'authentification *)
  let errors :=
    if ENABLE_AUTH environ && unset (API_KEY environ)
    then errors ++ ["ENABLE_AUTH=true mais API_KEY non défini"]
    else errors in
  match errors with
  | [] => inr tt
  | _ => inl (ValueError ("Erreurs de configuration:" +:+ newline
                          +:+ String.concat newline errors))
  end.

End Config.

(** The number of jobs whose status is [s]. *)
Definition count_status (s : status_t) (w : world) : nat :=
  length (filter (fun j => status j = s) (map_to_list (jobs_status w)).*2).

(** ** Reasoning about coroutines among others *)

(** The job whose record an event writes. *)
Definition event_id (e : event) : option string :=
  match e with
  | Created id _ => Some id
  | Wrote id _ => Some id
  | Deleted _ => None
  | Ran _ => None
  end.

(** The writes to the record of job [id]. *)
Definition mine (id : string) (l : list event) : list event :=
  filter (fun e => event_id e = Some id) l.

(** The status of job [id] after the events [l], from [cur] before them. *)
Fixpoint last_status (id : string) (cur : status_t) (l : list event) : status_t :=
  match l with
  | [] => cur
  | Created id' j :: l =>
      last_status id (if String.eqb id id' then status j else cur) l
  | Wrote id' (Status s) :: l =>
      last_status id (if String.eqb id id' then s else cur) l
  | _ :: l => last_status id cur l
  end.

(** [wp others r Q]: however [r] goes on, with [others] run at each of
    its suspension points, it ends in a state and with a result that
    satisfy [Q]. *)
Fixpoint wp {A} (others : world -> world) (r : res A)
    (Q : world -> exn + A -> Prop) : Prop :=
  match r with
  | Done w a => Q w (inr a)
  | Raised w e => Q w (inl e)
  | Suspended w k => wp others (k (others w)) Q
  end.

(** A triple: from a state that satisfies [P], the task ends in a state
    that satisfies [Q] when it returns and [X] when it raises. *)
Definition hoare {A} (others : world -> world)
    (P : world -> Prop) (c : task A)
    (Q : A -> world -> Prop) (X : exn -> world -> Prop) : Prop :=
  forall w, P w ->
    wp others (c w)
       (fun w' r => match r with inr a => Q a w' | inl e => X e w' end).

(** A triple on the writes to the record of job [id] alone. *)
Definition triple {A} (others : world -> world) (id : string)
    (P : list event -> Prop) (c : task A)
    (Q : A -> list event -> Prop) (X : exn -> list event -> Prop) : Prop :=
  hoare others (fun w => P (mine id (log w))) c
        (fun a w => Q a (mine id (log w))) (fun e w => X e (mine id (log w))).

(** The progress written so far while processing is non-decreasing and
    bounded by [hi]; [l0] is the log before the task started. *)
Definition ramp_inv (id : string) (cur : status_t) (l0 : list event) (hi : Z)
    (l : list event) : Prop :=
  exists l', l = l0 ++ l'
    /\ Sorted Z.le (progress_writes id cur l')
    /\ Forall (fun p => p <= hi) (progress_writes id cur l').

(** The same, once the job is known to have left ["processing"]. *)
Definition settled_inv (id : string) (cur : status_t) (l0 : list event) (hi : Z)
    (l : list event) : Prop :=
  exists l', l = l0 ++ l'
    /\ Sorted Z.le (progress_writes id cur l')
    /\ Forall (fun p => p <= hi) (progress_writes id cur l')
    /\ last_status id cur l' <> processing.

(** A task that logs nothing about job [id]. *)
Definition quiet {A} (others : world -> world) (id : string) (c : task A) : Prop :=
  forall P, triple others id P c (fun _ => P) (fun _ => P).

(** The statuses written to the record of job [id] since the log [l0]. *)
Definition logged (id : string) (l0 : list event) (sts : list status_t)
    (l : list event) : Prop :=
  exists l', l = l0 ++ l' /\ status_writes id l' = sts.

(** The four ways a run of the pipeline can end, by the statuses it has
    written: none, or ["processing"] alone, or followed by ["completed"]
    or by ["failed"]. *)
Definition ended (id : string) (l0 l : list event) : Prop :=
  logged id l0 [] l \/ logged id l0 [processing] l
  \/ logged id l0 [processing; completed] l
  \/ logged id l0 [processing; failed] l.


(* ===================================================================== *)
(** * Scenarios *)
(* ===================================================================== *)

Module Scenario.

(** A clip of [n] frames. *)
Definition clip (n : nat) (fps : Q) : video :=
  Video (Z.of_nat n) fps (map (fun i => [Z.of_nat i]) (seq 0 n)).

(** A file whose header announces [reported] frames and that yields [n]
    of them: an upload cut short, or a container with a wrong count. *)
Definition misreported (reported : Z) (n : nat) (fps : Q) : video :=
  Video reported fps (map (fun i => [Z.of_nat i]) (seq 0 n)).

(** Tools that all exit with code 0: training stays alive for three
    rounds of the progress loop and leaves a checkpoint, the export
    writes [outs] into the output directory, the COLMAP mapper leaves a
    model in [sparse/0]. *)
Definition results (outs : list string) (cmd : list string) : proc_result :=
  match cmd with
  | "ns-train" :: _ =>
      Proc 0 EmptyString 3 ["output/instant-ngp/nerfstudio_models/step-000009999.ckpt"] []
  | "ns-export" :: _ => Proc 0 EmptyString 0 [] outs
  | "colmap" :: "mapper" :: _ => Proc 0 EmptyString 0 ["sparse/0/points3D.bin"] []
  | "colmap" :: "model_converter" :: _ => Proc 0 EmptyString 0 [] outs
  | _ => Proc 0 EmptyString 0 [] []
  end.
Definition tools (outs : list string) (cmd : list string) : exn + proc_result :=
  inr (results outs cmd).

(** Pose estimation exits with code 1. *)
Definition tools_colmap_fails (cmd : list string) : exn + proc_result :=
  match cmd with
  | "ns-process-data" :: _ => inr (Proc 1 "no poses" 0 [] [])
  | _ => inr (Proc 0 EmptyString 0 [] [])
  end.

Definition no_fault (c : oscall) : option exn := None.

(** Removing the upload [path] raises [PermissionError]. *)
Definition unlink_denied (path : string) (c : oscall) : option exn :=
  match c with
  | Unlink p =>
      if String.eqb p path
      then Some (OSError ("[Errno 13] Permission denied: '" +:+ path +:+ "'"))
      else None
  | _ => None
  end.

Definition all_well : env := Env (tools ["j1.ply"]) no_fault.
Definition cleanup_fails : env :=
  Env (tools ["j1.ply"]) (unlink_denied "uploads/j1.mp4").
Definition two_candidates : env := Env (tools ["j1_a.ply"; "j1_b.ply"]) no_fault.
Definition no_poses : env := Env tools_colmap_fails no_fault.

Definition mp4 (n : nat) : upload_file := Upload (Some "video/mp4") (clip n 30).
Definition text_file : upload_file := Upload (Some "text/plain") (Video 0 0 []).

(** One upload to [main.py], and its pipeline run to the end. *)
Definition submit (E : env) (id : string) : list action :=
  [Request (Main.generate_3d E (mp4 300) (Draw id "2025-01-01T00:00:00"));
   Resume_handler 0].
Definition run_one (E : env) : system :=
  steps (Main.process_3d_generation E) boot
        (submit E "j1" ++ Start_background 0 :: repeat (Resume_worker 0) 20).

(** Three uploads, then the three background tasks started. *)
Definition run_three (E : env) : system :=
  steps (Main.process_3d_generation E) boot
        (submit E "j1" ++ submit E "j2" ++ submit E "j3"
         ++ [Start_background 0; Start_background 0; Start_background 0]).

(** The state right after the upload of ["j1"]. *)
Definition submitted (E : env) (n : nat) : world :=
  state (steps (Main.process_3d_generation E) boot
           [Request (Main.generate_3d E (mp4 n) (Draw "j1" "2025-01-01T00:00:00"));
            Resume_handler 0]).

(** The state right after the upload of ["j1"] to [main_colmap.py]. *)
Definition colmap_submitted (E : env) (n : nat) : world :=
  state (steps (Colmap.process_colmap E) boot
           [Request (Colmap.generate_3d E (mp4 n) (Draw "j1" "2025-01-01T00:00:00"));
            Resume_handler 0]).

(** A text file uploaded to [main_colmap.py]. *)
Definition colmap_text_upload : system :=
  steps (Colmap.process_colmap all_well) boot
        [Request (Colmap.generate_3d all_well text_file
                    (Draw "j1" "2025-01-01T00:00:00"));
         Resume_handler 0].

(** The same file uploaded to [main.py]. *)
Definition main_text_upload : system :=
  steps (Main.process_3d_generation all_well) boot
        [Request (Main.generate_3d all_well text_file
                    (Draw "j1" "2025-01-01T00:00:00"))].

(** A job of [main.py] that fails in pose estimation and is then deleted. *)
Definition failed_then_deleted : system :=
  steps (Main.process_3d_generation no_poses) boot
        (submit no_poses "j1" ++ Start_background 0 :: repeat (Resume_worker 0) 5
         ++ [Request (Main.delete_job no_poses "j1")]).

(** Two of three uploaded jobs already started. *)
Definition two_running (E : env) : system :=
  steps (Main.process_3d_generation E) boot
        (submit E "j1" ++ submit E "j2" ++ submit E "j3"
         ++ [Start_background 0; Start_background 0]).

(** One upload to [main_colmap.py], and its pipeline run to the end. *)
Definition colmap_run_one (E : env) : system :=
  steps (Colmap.process_colmap E) boot
        [Request (Colmap.generate_3d E (mp4 300) (Draw "j1" "2025-01-01T00:00:00"));
         Resume_handler 0; Start_background 0].

(** A job of [main_colmap.py] whose feature extraction fails, then deleted. *)
Definition no_features : env :=
  Env (fun _ => inr (Proc 1 "no features" 0 [] [])) no_fault.
Definition colmap_failed_then_deleted : system :=
  steps (Colmap.process_colmap no_features) boot
        [Request (Colmap.generate_3d no_features (mp4 300)
                    (Draw "j1" "2025-01-01T00:00:00"));
         Resume_handler 0; Start_background 0;
         Request (Colmap.delete_job no_features "j1")].

End Scenario.

(* ===================================================================== *)
(** * Further notions for the properties of the backends *)
(* ===================================================================== *)

(** The name of the [k]-th file written by the samplers of [main.py] and
    [main_colmap.py]. *)
Definition frame_name (k : Z) : string := "frame_" +:+ fmt_04d k +:+ ".jpg".

(** The name [main_colmap.py] gives to a file of
    [main_gaussian_splatting.py]. *)
Definition with_frame_prefix (f : image_file) : image_file :=
  ("frame_" +:+ f.1, f.2).

(** A task that keeps the assertion [I], whether it returns or raises. *)
Definition preserves {A} (others : world -> world) (I : world -> Prop)
    (c : task A) : Prop :=
  hoare others I c (fun _ => I) (fun _ => I).

(** A change of a [dict] that leaves every key but [k] alone. *)
Definition only_at `{Countable K} {V} (k : K) (f : gmap K V -> gmap K V) : Prop :=
  forall m k', k' <> k -> f m !! k' = m !! k'.

(** What belongs to another job, [id'] with the upload [vp'], is in [w']
    as it was in [w]. *)
Definition untouched (id' vp' : string) (w w' : world) : Prop :=
  jobs_status w' !! id' = jobs_status w !! id'
  /\ JOBS_DIR w' !! id' = JOBS_DIR w !! id'
  /\ UPLOAD_DIR w' !! vp' = UPLOAD_DIR w !! vp'
  /\ background_tasks w' = background_tasks w.

(** The record of job [id] is there and satisfies [P]. *)
Definition record (id : string) (P : job -> Prop) (w : world) : Prop :=
  exists j, jobs_status w !! id = Some j /\ P j.

(** The record of job [id] satisfies [P] and the upload [vp] is [x]. *)
Definition job_is (id vp : string) (P : job -> Prop) (x : option video)
    (w : world) : Prop :=
  record id P w /\ UPLOAD_DIR w !! vp = x.

(** The record while the stages of [main_colmap.py] run. *)
Definition working (u e : option string) (j : job) : Prop :=
  status j = processing /\ download_url j = u /\ error j = e
  /\ 10 <= progress j <= 80.

(** A run that has reached its end without an [await]. *)
Definition settles {A} (r : res A) : Prop :=
  match r with
  | Suspended _ _ => False
  | _ => True
  end.

(** A task that never hands control back to the event loop. *)
Definition atomic {A} (c : task A) : Prop := forall w, settles (c w).

(** The three commands of the pipeline of [main.py], for a job of which
    [n] frames have been extracted. *)
Definition main_commands (id : string) (n : Z) : list (list string) :=
  [ ["ns-process-data"; "video"; "--data"; ("jobs/" +:+ id) +:+ "/images";
     "--output-dir"; ("jobs/" +:+ id) +:+ "/colmap";
     "--num-frames-target"; pretty n];
    ["ns-train"; "instant-ngp"; "--data"; ("jobs/" +:+ id) +:+ "/colmap";
     "--output-dir"; ("jobs/" +:+ id) +:+ "/output";
     "--max-num-iterations"; "10000";
     "--pipeline.model.predict-normals"; "True";
     "--vis"; "viewer+tensorboard"];
    ["ns-export"; "pointcloud"; "--load-config";
     (("jobs/" +:+ id) +:+ "/output")
     +:+ "/instant-ngp/nerfstudio_models/config.yml";
     "--output-dir"; "outputs"; "--num-points"; "1000000";
     "--remove-outliers"; "True"; "--normal-method"; "model_output"] ].

(** The commands started since the log held [c0] are [l]. *)
Definition started (c0 l : list (list string)) (w : world) : Prop :=
  commands (log w) = c0 ++ l.

(** The commands started since then are the first ones of the pipeline
    of job [id], in its order. *)
Definition in_order (id : string) (c0 : list (list string)) (w : world) : Prop :=
  exists n l, l `prefix_of` main_commands id n /\ started c0 l w.

(** Environments in which a file-system call fails. *)
Module Fault.

(** No file can be opened for writing: the disk is full. *)
Definition disk_full : env :=
  Env (Scenario.tools ["j1.ply"])
      (fun c => match c with
                | Open_wb _ => Some (OSError "[Errno 28] No space left on device")
                | _ => None
                end).

(** The artifact of job ["j1"] cannot be removed. *)
Definition artifact_locked : env :=
  Env (Scenario.tools ["j1.ply"]) (Scenario.unlink_denied "outputs/j1.ply").

End Fault.

(* ===================================================================== *)
(** * Notions for the invariants of the job table *)
(* ===================================================================== *)

(** A record as a client may rely on it: it carries its own identifier,
    its progress is a percentage, a completed job has a download locator
    and a failed one an error detail. *)
Definition good (id : string) (j : job) : Prop :=
  job_id j = id
  /\ 0 <= progress j <= 100
  /\ (status j = completed -> is_Some (download_url j))
  /\ (status j = failed -> is_Some (error j)).

(** Every record of the job table is good. *)
Definition consistent (w : world) : Prop :=
  forall id j, jobs_status w !! id = Some j -> good id j.

(** The same, but for the record of [id], which satisfies [P] if it is
    there: the assertion inside a stretch of writes to that record. *)
Definition apart_from (id : string) (P : job -> Prop) (w : world) : Prop :=
  (forall id' j, id' <> id -> jobs_status w !! id' = Some j -> good id' j)
  /\ (forall j, jobs_status w !! id = Some j -> P j).

(** [guarantees Inv r Q]: the run [r] hands control back only in states
    that satisfy [Inv] and, resumed in any state that satisfies [Inv],
    goes on in the same way to an end that satisfies [Q]. *)
Fixpoint guarantees {A} (Inv : world -> Prop) (r : res A)
    (Q : world -> exn + A -> Prop) : Prop :=
  match r with
  | Done w a => Q w (inr a)
  | Raised w e => Q w (inl e)
  | Suspended w k => Inv w /\ forall w', Inv w' -> guarantees Inv (k w') Q
  end.

(** A triple for a task among any others that keep [Inv]. *)
Definition stretch {A} (Inv P : world -> Prop) (c : task A)
    (Q : A -> world -> Prop) (X : exn -> world -> Prop) : Prop :=
  forall w, P w ->
    guarantees Inv (c w)
      (fun w' r => match r with inr a => Q a w' | inl e => X e w' end).

(** A task that keeps [Inv] at every point where others can run. *)
Definition keeps {A} (Inv : world -> Prop) (c : task A) : Prop :=
  stretch Inv Inv c (fun _ => Inv) (fun _ => Inv).

(** A server whose state and suspended coroutines keep [Inv]. *)
Definition sound (Inv : world -> Prop) (s : system) : Prop :=
  Inv (state s)
  /\ Forall (fun k => forall w, Inv w -> guarantees Inv (k w) (fun w' _ => Inv w'))
            (handlers s)
  /\ Forall (fun k => forall w, Inv w -> guarantees Inv (k w) (fun w' _ => Inv w'))
            (workers s).

(** The actions whose requests are served by handlers in [allowed]. *)
Definition served_by (allowed : task response -> Prop) (a : action) : Prop :=
  match a with
  | Request h => allowed h
  | _ => True
  end.

(** The endpoints of the three backends. *)
Definition main_endpoint (E : env) (h : task response) : Prop :=
  (exists file d, h = Main.generate_3d E file d)
  \/ (exists id, h = Main.get_job_status id)
  \/ (exists filename, h = Main.download_model filename)
  \/ (exists id, h = Main.delete_job E id)
  \/ h = Main.list_jobs.

Definition colmap_endpoint (E : env) (h : task response) : Prop :=
  (exists file d, h = Colmap.generate_3d E file d)
  \/ (exists id, h = Colmap.get_job_status id)
  \/ (exists filename, h = Colmap.download_model filename)
  \/ (exists id, h = Colmap.delete_job E id)
  \/ h = Colmap.list_jobs.

Definition gaussian_endpoint (E : env) (h : task response) : Prop :=
  (exists file d, h = GaussianSplatting.generate_3d E file d)
  \/ (exists id, h = GaussianSplatting.get_job_status id)
  \/ (exists filename, h = GaussianSplatting.download_model filename).

(** The record of a job between the write of ["completed"] and the
    write of its download locator, and between the write of ["failed"]
    and the write of its error detail. *)
Definition completing (id : string) (j : job) : Prop :=
  job_id j = id /\ 0 <= progress j <= 100 /\ status j = completed.
Definition failing (id : string) (j : job) : Prop :=
  job_id j = id /\ 0 <= progress j <= 100 /\ status j = failed.

(** A write that takes a good record to a good record. *)
Definition harmless (it : item) : Prop :=
  match it with
  | Status s => s = processing
  | Progress p => 0 <= p <= 100
  | _ => True
  end.

(** A task that keeps the table consistent, the record of [id] included,
    wherever others can run. *)
Definition steady (id : string) {A} (c : task A) : Prop :=
  stretch consistent (apart_from id (good id)) c
          (fun _ => apart_from id (good id)) (fun _ => apart_from id (good id)).

(** The three servers of the repository: what each hands to [add_task]
    and the handlers of its routes. *)
Inductive backend : Type :=
| main_py
| main_colmap_py
| main_gaussian_splatting_py.

Definition pipeline (E : env) (b : backend) : string -> string -> task unit :=
  match b with
  | main_py => Main.process_3d_generation E
  | main_colmap_py => Colmap.process_colmap E
  | main_gaussian_splatting_py => GaussianSplatting.process_gaussian_splatting E
  end.

Definition endpoint (E : env) (b : backend) : task response -> Prop :=
  match b with
  | main_py => main_endpoint E
  | main_colmap_py => colmap_endpoint E
  | main_gaussian_splatting_py => gaussian_endpoint E
  end.

(** The record of job [id] is not in the table. *)
Definition gone (id : string) (w : world) : Prop := jobs_status w !! id = None.

(** [lasting Inv b r]: every stretch of the run [r] between two points
    where it hands control back takes a state that satisfies [Inv] to
    one that does, in whatever state it is resumed; [b] stands for the
    state in which the first stretch began. *)
Fixpoint lasting {A} (Inv : world -> Prop) (b : Prop) (r : res A) : Prop :=
  match r with
  | Done w _ => b -> Inv w
  | Raised w _ => b -> Inv w
  | Suspended w k => (b -> Inv w) /\ forall w', lasting Inv (Inv w') (k w')
  end.

(** A task of which no stretch breaks [Inv], from any state. *)
Definition maintains {A} (Inv : world -> Prop) (c : task A) : Prop :=
  forall w, lasting Inv (Inv w) (c w).

(** The upload handlers of a backend that draw [id] as the job
    identifier. *)
Definition upload_of (E : env) (b : backend) (id : string)
    (h : task response) : Prop :=
  exists file ts,
    h = match b with
        | main_py => Main.generate_3d E file (Draw id ts)
        | main_colmap_py => Colmap.generate_3d E file (Draw id ts)
        | main_gaussian_splatting_py =>
            GaussianSplatting.generate_3d E file (Draw id ts)
        end.

(** The requests to the routes of a backend, but for an upload that
    draws [id] once more. *)
Definition endpoint_but_upload_of (E : env) (b : backend) (id : string)
    (h : task response) : Prop :=
  endpoint E b h /\ ~ upload_of E b id h.

(** A suspended coroutine of which no stretch breaks [Inv]. *)
Definition unbroken {A} (Inv : world -> Prop) (k : world -> res A) : Prop :=
  forall w, lasting Inv (Inv w) (k w).

(** Job ["j1"] of [main.py] is deleted while its export runs: the
    request comes when the background task has started the third
    command and waits for it. *)
Definition deleted_during_export (E : env) : list action :=
  Scenario.submit E "j1"
  ++ Start_background 0 :: repeat (Resume_worker 0) 11
  ++ [Request (Main.delete_job E "j1")].

(* ===================================================================== *)
(** * Coroutine laws *)
(* ===================================================================== *)

Lemma wp_run {A} others (r : res A) Q :
  wp others r Q ↔ Q (run_among others r).1 (run_among others r).2.
Proof. induction r as [| |w k IH]; simpl; [tauto | tauto | apply IH]. Qed.

Lemma wp_mono {A} others (r : res A) (Q Q' : world → exn + A → Prop) :
  (∀ w x, Q w x → Q' w x) → wp others r Q → wp others r Q'.
Proof. intros HQ. induction r as [| |w k IH]; simpl; auto. Qed.

Lemma wp_bind {A B} others (f : A → task B) (r : res A) Q :
  wp others (res_bind f r) Q
  ↔ wp others r (fun w x => match x with
                            | inr a => wp others (f a w) Q
                            | inl e => Q w (inl e)
                            end).
Proof. induction r as [| |w k IH]; simpl; [tauto | tauto | apply IH]. Qed.

Lemma wp_catch {A} others (h : exn → task A) (r : res A) Q :
  wp others (res_catch h r) Q
  ↔ wp others r (fun w x => match x with
                            | inr a => Q w (inr a)
                            | inl e => wp others (h e w) Q
                            end).
Proof. induction r as [| |w k IH]; simpl; [tauto | tauto | apply IH]. Qed.

Lemma run_among_bind {A B} others (f : A → task B) (r : res A) :
  run_among others (res_bind f r)
  = match run_among others r with
    | (w, inr a) => run_among others (f a w)
    | (w, inl e) => (w, inl e)
    end.
Proof. induction r as [| |w k IH]; simpl; [reflexivity | reflexivity | apply IH]. Qed.

Lemma run_among_catch {A} others (h : exn → task A) (r : res A) :
  run_among others (res_catch h r)
  = match run_among others r with
    | (w, inr a) => (w, inr a)
    | (w, inl e) => run_among others (h e w)
    end.
Proof. induction r as [| |w k IH]; simpl; [reflexivity | reflexivity | apply IH]. Qed.

(* ===================================================================== *)
(** * Reading the log: laws *)
(* ===================================================================== *)

Lemma mine_app id l1 l2 : mine id (l1 ++ l2) = mine id l1 ++ mine id l2.
Proof. unfold mine. apply filter_app. Qed.

Lemma mine_emit_ran id cmd w : mine id (log (emit (Ran cmd) w)) = mine id (log w).
Proof. simpl. rewrite mine_app. simpl. apply app_nil_r. Qed.

Lemma mine_emit_wrote id it w :
  mine id (log (emit (Wrote id it) w)) = mine id (log w) ++ [Wrote id it].
Proof.
  simpl. rewrite mine_app. f_equal. unfold mine. simpl.
  rewrite filter_cons_True by reflexivity. reflexivity.
Qed.

Lemma progress_writes_app id cur l1 l2 :
  progress_writes id cur (l1 ++ l2)
  = progress_writes id cur l1 ++ progress_writes id (last_status id cur l1) l2.
Proof.
  revert cur. induction l1 as [|e l1 IH]; intros cur; [reflexivity|].
  destruct e as [id' j|id' [s|m|p|u|x]|id'|cmd]; simpl; try apply IH.
  destruct (String.eqb id id' && bool_decide (cur = processing)); simpl;
    rewrite IH; reflexivity.
Qed.

Lemma last_status_app id cur l1 l2 :
  last_status id cur (l1 ++ l2) = last_status id (last_status id cur l1) l2.
Proof.
  revert cur. induction l1 as [|e l1 IH]; intros cur; [reflexivity|].
  destruct e as [id' j|id' [s|m|p|u|x]|id'|cmd]; simpl; apply IH.
Qed.

Lemma Sorted_snoc (l : list Z) (p : Z) :
  Sorted Z.le l → Forall (fun q => q ≤ p) l → Sorted Z.le (l ++ [p]).
Proof.
  induction l as [|a l IH]; intros Hs Hb; simpl.
  - repeat constructor.
  - inversion Hs as [|? ? Hs' Hhd]; subst. inversion Hb as [|? ? Hap Hb']; subst.
    constructor; [auto|].
    destruct l as [|b l]; simpl; constructor.
    + exact Hap.
    + inversion Hhd; subst. assumption.
Qed.

(* ===================================================================== *)
(** * Fields of a state built by the setters *)
(* ===================================================================== *)

Section Fields.

Variables (w : world) (e : event).

Lemma jobs_status_set_jobs_status f : jobs_status (set_jobs_status f w) = f (jobs_status w).
Proof. reflexivity. Qed.
Lemma jobs_status_set_UPLOAD_DIR f : jobs_status (set_UPLOAD_DIR f w) = jobs_status w.
Proof. reflexivity. Qed.
Lemma jobs_status_set_OUTPUT_DIR f : jobs_status (set_OUTPUT_DIR f w) = jobs_status w.
Proof. reflexivity. Qed.
Lemma jobs_status_set_JOBS_DIR f : jobs_status (set_JOBS_DIR f w) = jobs_status w.
Proof. reflexivity. Qed.
Lemma jobs_status_set_background_tasks f : jobs_status (set_background_tasks f w) = jobs_status w.
Proof. reflexivity. Qed.
Lemma jobs_status_emit : jobs_status (emit e w) = jobs_status w.
Proof. reflexivity. Qed.
Lemma UPLOAD_DIR_set_jobs_status f : UPLOAD_DIR (set_jobs_status f w) = UPLOAD_DIR w.
Proof. reflexivity. Qed.
Lemma UPLOAD_DIR_set_UPLOAD_DIR f : UPLOAD_DIR (set_UPLOAD_DIR f w) = f (UPLOAD_DIR w).
Proof. reflexivity. Qed.
Lemma UPLOAD_DIR_set_OUTPUT_DIR f : UPLOAD_DIR (set_OUTPUT_DIR f w) = UPLOAD_DIR w.
Proof. reflexivity. Qed.
Lemma UPLOAD_DIR_set_JOBS_DIR f : UPLOAD_DIR (set_JOBS_DIR f w) = UPLOAD_DIR w.
Proof. reflexivity. Qed.
Lemma UPLOAD_DIR_set_background_tasks f : UPLOAD_DIR (set_background_tasks f w) = UPLOAD_DIR w.
Proof. reflexivity. Qed.
Lemma UPLOAD_DIR_emit : UPLOAD_DIR (emit e w) = UPLOAD_DIR w.
Proof. reflexivity. Qed.
Lemma OUTPUT_DIR_set_jobs_status f : OUTPUT_DIR (set_jobs_status f w) = OUTPUT_DIR w.
Proof. reflexivity. Qed.
Lemma OUTPUT_DIR_set_UPLOAD_DIR f : OUTPUT_DIR (set_UPLOAD_DIR f w) = OUTPUT_DIR w.
Proof. reflexivity. Qed.
Lemma OUTPUT_DIR_set_OUTPUT_DIR f : OUTPUT_DIR (set_OUTPUT_DIR f w) = f (OUTPUT_DIR w).
Proof. reflexivity. Qed.
Lemma OUTPUT_DIR_set_JOBS_DIR f : OUTPUT_DIR (set_JOBS_DIR f w) = OUTPUT_DIR w.
Proof. reflexivity. Qed.
Lemma OUTPUT_DIR_set_background_tasks f : OUTPUT_DIR (set_background_tasks f w) = OUTPUT_DIR w.
Proof. reflexivity. Qed.
Lemma OUTPUT_DIR_emit : OUTPUT_DIR (emit e w) = OUTPUT_DIR w.
Proof. reflexivity. Qed.
Lemma JOBS_DIR_set_jobs_status f : JOBS_DIR (set_jobs_status f w) = JOBS_DIR w.
Proof. reflexivity. Qed.
Lemma JOBS_DIR_set_UPLOAD_DIR f : JOBS_DIR (set_UPLOAD_DIR f w) = JOBS_DIR w.
Proof. reflexivity. Qed.
Lemma JOBS_DIR_set_OUTPUT_DIR f : JOBS_DIR (set_OUTPUT_DIR f w) = JOBS_DIR w.
Proof. reflexivity. Qed.
Lemma JOBS_DIR_set_JOBS_DIR f : JOBS_DIR (set_JOBS_DIR f w) = f (JOBS_DIR w).
Proof. reflexivity. Qed.
Lemma JOBS_DIR_set_background_tasks f : JOBS_DIR (set_background_tasks f w) = JOBS_DIR w.
Proof. reflexivity. Qed.
Lemma JOBS_DIR_emit : JOBS_DIR (emit e w) = JOBS_DIR w.
Proof. reflexivity. Qed.
Lemma background_tasks_set_jobs_status f : background_tasks (set_jobs_status f w) = background_tasks w.
Proof. reflexivity. Qed.
Lemma background_tasks_set_UPLOAD_DIR f : background_tasks (set_UPLOAD_DIR f w) = background_tasks w.
Proof. reflexivity. Qed.
Lemma background_tasks_set_OUTPUT_DIR f : background_tasks (set_OUTPUT_DIR f w) = background_tasks w.
Proof. reflexivity. Qed.
Lemma background_tasks_set_JOBS_DIR f : background_tasks (set_JOBS_DIR f w) = background_tasks w.
Proof. reflexivity. Qed.
Lemma background_tasks_set_background_tasks f : background_tasks (set_background_tasks f w) = f (background_tasks w).
Proof. reflexivity. Qed.
Lemma background_tasks_emit : background_tasks (emit e w) = background_tasks w.
Proof. reflexivity. Qed.
Lemma log_set_jobs_status f : log (set_jobs_status f w) = log w.
Proof. reflexivity. Qed.
Lemma log_set_UPLOAD_DIR f : log (set_UPLOAD_DIR f w) = log w.
Proof. reflexivity. Qed.
Lemma log_set_OUTPUT_DIR f : log (set_OUTPUT_DIR f w) = log w.
Proof. reflexivity. Qed.
Lemma log_set_JOBS_DIR f : log (set_JOBS_DIR f w) = log w.
Proof. reflexivity. Qed.
Lemma log_set_background_tasks f : log (set_background_tasks f w) = log w.
Proof. reflexivity. Qed.
Lemma log_emit : log (emit e w) = log w ++ [e].
Proof. reflexivity. Qed.

End Fields.

Create Rewrite HintDb world.
#[global] Hint Rewrite jobs_status_set_jobs_status
  jobs_status_set_UPLOAD_DIR jobs_status_set_OUTPUT_DIR
  jobs_status_set_JOBS_DIR jobs_status_set_background_tasks jobs_status_emit
  UPLOAD_DIR_set_jobs_status UPLOAD_DIR_set_UPLOAD_DIR
  UPLOAD_DIR_set_OUTPUT_DIR UPLOAD_DIR_set_JOBS_DIR
  UPLOAD_DIR_set_background_tasks UPLOAD_DIR_emit OUTPUT_DIR_set_jobs_status
  OUTPUT_DIR_set_UPLOAD_DIR OUTPUT_DIR_set_OUTPUT_DIR
  OUTPUT_DIR_set_JOBS_DIR OUTPUT_DIR_set_background_tasks OUTPUT_DIR_emit
  JOBS_DIR_set_jobs_status JOBS_DIR_set_UPLOAD_DIR JOBS_DIR_set_OUTPUT_DIR
  JOBS_DIR_set_JOBS_DIR JOBS_DIR_set_background_tasks JOBS_DIR_emit
  background_tasks_set_jobs_status background_tasks_set_UPLOAD_DIR
  background_tasks_set_OUTPUT_DIR background_tasks_set_JOBS_DIR
  background_tasks_set_background_tasks background_tasks_emit
  log_set_jobs_status log_set_UPLOAD_DIR log_set_OUTPUT_DIR log_set_JOBS_DIR
  log_set_background_tasks log_emit : world.

(* ===================================================================== *)
(** * Triples on the events of one job *)
(* ===================================================================== *)

Section Triples.

Variable others : world → world.
Variable id : string.
(** The rest of the system logs nothing about job [id]: only the task of
    a job writes to its record. *)
Hypothesis others_quiet : ∀ w, mine id (log (others w)) = mine id (log w).

Lemma triple_ret {A} (a : A) (P : list event → Prop) X :
  triple others id P (mret a) (fun _ => P) X.
Proof. intros w HP. exact HP. Qed.

Lemma triple_raise {A} (e : exn) (P : list event → Prop) (Q : A → _) :
  triple others id P (raise e) Q (fun _ => P).
Proof. intros w HP. exact HP. Qed.

Lemma triple_bind {A B} (c : task A) (f : A → task B) P Q R X :
  triple others id P c Q X →
  (∀ a, triple others id (Q a) (f a) R X) →
  triple others id P (c ≫= f) R X.
Proof.
  intros Hc Hf w HP. unfold mbind, task_bind. apply wp_bind.
  eapply wp_mono; [|apply Hc, HP].
  intros w' [e|a] H; [exact H|]. apply Hf, H.
Qed.

Lemma triple_try {A} (c : task A) (h : exn → task A) P Q X X' :
  triple others id P c Q X' →
  (∀ e, triple others id (X' e) (h e) Q X) →
  triple others id P (try_except c h) Q X.
Proof.
  intros Hc Hh w HP. unfold try_except. apply wp_catch.
  eapply wp_mono; [|apply Hc, HP].
  intros w' [e|a] H; [|exact H]. apply Hh, H.
Qed.

Lemma triple_conseq {A} (c : task A) (P P' : list event → Prop) Q Q' X X' :
  (∀ l, P' l → P l) → (∀ a l, Q a l → Q' a l) → (∀ e l, X e l → X' e l) →
  triple others id P c Q X → triple others id P' c Q' X'.
Proof.
  intros HP HQ HX Hc w Hw. eapply wp_mono; [|apply Hc, HP, Hw].
  intros w' [e|a] H; [apply HX|apply HQ]; exact H.
Qed.

Lemma triple_await P X : triple others id P await (fun _ => P) X.
Proof. intros w HP. simpl. rewrite others_quiet. exact HP. Qed.

(** A step that leaves the log alone keeps every assertion. *)
Lemma triple_modify (f : world → world) P X :
  (∀ w, log (f w) = log w) → triple others id P (modify f) (fun _ => P) X.
Proof. intros Hf w HP. simpl. rewrite Hf. exact HP. Qed.

Lemma triple_gets {A} (f : world → A) P X :
  triple others id P (gets f) (fun _ => P) X.
Proof. intros w HP. exact HP. Qed.

Lemma triple_lift {A} (x : exn + A) P :
  triple others id P (lift x) (fun _ => P) (fun _ => P).
Proof. destruct x; intros w HP; exact HP. Qed.

Lemma triple_emit_ran cmd P X :
  triple others id P (modify (emit (Ran cmd))) (fun _ => P) X.
Proof.
  intros w HP. change (P (mine id (log (emit (Ran cmd) w)))).
  rewrite mine_emit_ran. exact HP.
Qed.

Lemma triple_setitem (it : item) (P : list event → Prop) :
  triple others id P (setitem_job id it)
         (fun _ l => ∃ l1, P l1 ∧ l = l1 ++ [Wrote id it])
         (fun _ => P).
Proof.
  intros w HP. unfold setitem_job.
  destruct (jobs_status w !! id) as [j|]; simpl; [|exact HP].
  exists (mine id (log w)). split; [exact HP|].
  apply (mine_emit_wrote id it).
Qed.

End Triples.

(* ===================================================================== *)
(** * The status of one job *)
(* ===================================================================== *)

Lemma status_writes_app id l1 l2 :
  status_writes id (l1 ++ l2) = status_writes id l1 ++ status_writes id l2.
Proof.
  induction l1 as [|e l1 IH]; [reflexivity|].
  destruct e as [id' j|id' [s|m|p|u|x]|id'|cmd]; simpl; try apply IH;
    destruct (String.eqb id id'); simpl; rewrite IH; reflexivity.
Qed.

Lemma status_writes_one id it :
  status_writes id [Wrote id it] = match it with Status s => [s] | _ => [] end.
Proof. destruct it; simpl; try reflexivity. rewrite String.eqb_refl. reflexivity. Qed.

Lemma hoare_bind {A B} others (c : task A) (f : A → task B) P Q R X :
  hoare others P c Q X →
  (∀ a, hoare others (Q a) (f a) R X) →
  hoare others P (c ≫= f) R X.
Proof.
  intros Hc Hf w HP. unfold mbind, task_bind. apply wp_bind.
  eapply wp_mono; [|apply Hc, HP].
  intros w' [e|a] H; [exact H|]. apply Hf, H.
Qed.

Lemma hoare_try {A} others (c : task A) (h : exn → task A) P Q X X' :
  hoare others P c Q X' →
  (∀ e, hoare others (X' e) (h e) Q X) →
  hoare others P (try_except c h) Q X.
Proof.
  intros Hc Hh w HP. unfold try_except. apply wp_catch.
  eapply wp_mono; [|apply Hc, HP].
  intros w' [e|a] H; [|exact H]. apply Hh, H.
Qed.

Lemma hoare_conseq {A} others (c : task A) (P P' : world → Prop) Q Q' X X' :
  (∀ w, P' w → P w) → (∀ a w, Q a w → Q' a w) → (∀ e w, X e w → X' e w) →
  hoare others P c Q X → hoare others P' c Q' X'.
Proof.
  intros HP HQ HX Hc w Hw. eapply wp_mono; [|apply Hc, HP, Hw].
  intros w' [e|a] H; [apply HX|apply HQ]; exact H.
Qed.

(** A write either finds the record or raises [KeyError] and changes
    nothing. *)
Lemma hoare_setitem others id it (P : world → Prop) :
  hoare others P (setitem_job id it)
        (fun _ w' => ∃ w, P w ∧ mine id (log w') = mine id (log w) ++ [Wrote id it])
        (fun _ w => P w ∧ jobs_status w !! id = None).
Proof.
  intros w HP. unfold setitem_job.
  destruct (jobs_status w !! id) as [j|] eqn:Hj; simpl; [|auto].
  exists w. split; [exact HP|]. apply (mine_emit_wrote id it).
Qed.

(* ===================================================================== *)
(** * Progress of one job *)
(* ===================================================================== *)

Section Progress.

Variable others : world → world.
Variable id : string.
Hypothesis others_quiet : ∀ w, mine id (log (others w)) = mine id (log w).
Variable E : env.
Variable cur : status_t.
Variable l0 : list event.

Lemma quiet_ret {A} (a : A) : quiet others id (mret a).
Proof. intros P. apply triple_ret. Qed.

Lemma quiet_raise {A} (e : exn) : quiet others id (@raise A e).
Proof. intros P. apply triple_raise. Qed.

Lemma quiet_bind {A B} (c : task A) (f : A → task B) :
  quiet others id c → (∀ a, quiet others id (f a)) → quiet others id (c ≫= f).
Proof. intros Hc Hf P. eapply triple_bind; [apply Hc | intros a; apply Hf]. Qed.

Lemma quiet_await : quiet others id await.
Proof. intros P. apply triple_await, others_quiet. Qed.

Lemma quiet_modify (f : world → world) :
  (∀ w, log (f w) = log w) → quiet others id (modify f).
Proof. intros Hf P. apply triple_modify, Hf. Qed.

Lemma quiet_gets {A} (f : world → A) : quiet others id (gets f).
Proof. intros P. apply triple_gets. Qed.

Lemma quiet_lift {A} (x : exn + A) : quiet others id (lift x).
Proof. intros P. apply triple_lift. Qed.

Lemma quiet_when (b : bool) (c : task unit) : quiet others id c → quiet others id (when b c).
Proof. intros Hc. destruct b; [exact Hc | apply quiet_ret]. Qed.

Lemma quiet_emit_ran cmd : quiet others id (modify (emit (Ran cmd))).
Proof. intros P. apply triple_emit_ran. Qed.

Lemma quiet_oscheck c : quiet others id (oscheck E c).
Proof. unfold oscheck. destruct (fault E c); [apply quiet_raise | apply quiet_ret]. Qed.

Ltac quiet_step :=
  first [ apply quiet_bind; [|intros ?]
        | apply quiet_await | apply quiet_emit_ran | apply quiet_oscheck
        | apply quiet_gets | apply quiet_lift | apply quiet_raise
        | apply quiet_ret
        | apply quiet_when
        | apply quiet_modify; intros ?; reflexivity ].

Lemma quiet_makedirs sub : quiet others id (makedirs E id sub).
Proof. unfold makedirs. repeat quiet_step. Qed.

Lemma quiet_create_subprocess_exec cmd : quiet others id (create_subprocess_exec E cmd).
Proof. unfold create_subprocess_exec. repeat quiet_step. Qed.

Lemma quiet_communicate p : quiet others id (communicate id p).
Proof. unfold communicate, add_job_files. repeat quiet_step. Qed.

Lemma quiet_extract_frames vp T : quiet others id (Main.extract_frames E id vp T).
Proof. unfold Main.extract_frames, add_job_files. repeat quiet_step. Qed.

Lemma quiet_resolve_artifact : quiet others id (Main.resolve_artifact E id).
Proof.
  unfold Main.resolve_artifact. apply quiet_bind; [apply quiet_gets|].
  intros [|ply_file ?]; repeat quiet_step.
Qed.

(** ** The invariant and the writes *)

Lemma ramp_inv_start hi : ramp_inv id cur l0 hi l0.
Proof. exists []. rewrite app_nil_r. repeat split; constructor. Qed.

Lemma ramp_inv_weaken hi hi' l :
  hi ≤ hi' → ramp_inv id cur l0 hi l → ramp_inv id cur l0 hi' l.
Proof.
  intros Hle (l' & -> & Hs & Hb). exists l'. repeat split; [exact Hs|].
  eapply Forall_impl; [exact Hb|]. simpl. intros. lia.
Qed.

Lemma settled_inv_ramp hi l : settled_inv id cur l0 hi l → ramp_inv id cur l0 hi l.
Proof. intros (l' & -> & Hs & Hb & _). exists l'. auto. Qed.

Lemma progress_writes_one s it :
  progress_writes id s [Wrote id it]
  = match it with
    | Progress p => if bool_decide (s = processing) then [p] else []
    | _ => []
    end.
Proof. destruct it; simpl; try reflexivity. rewrite String.eqb_refl. reflexivity. Qed.

Lemma last_status_one s it :
  last_status id s [Wrote id it] = match it with Status s' => s' | _ => s end.
Proof. destruct it; simpl; try reflexivity. rewrite String.eqb_refl. reflexivity. Qed.

Lemma ramp_inv_snoc hi l it :
  match it with Progress p => hi ≤ p | _ => True end →
  ramp_inv id cur l0 hi l →
  ramp_inv id cur l0 (match it with Progress p => p | _ => hi end)
           (l ++ [Wrote id it]).
Proof.
  intros Hit (l' & -> & Hs & Hb). exists (l' ++ [Wrote id it]).
  rewrite app_assoc. split; [reflexivity|].
  rewrite progress_writes_app, progress_writes_one.
  destruct it as [s|m|p|u|x]; rewrite ?app_nil_r; auto.
  assert (Hb' : Forall (fun q => q ≤ p) (progress_writes id cur l')).
  { eapply Forall_impl; [exact Hb|]. simpl. intros. lia. }
  destruct (bool_decide _); rewrite ?app_nil_r; [|auto].
  split; [apply Sorted_snoc; assumption|].
  apply Forall_app. split; [exact Hb'|]. repeat constructor. lia.
Qed.

Lemma settled_inv_snoc hi l it :
  match it with Status s => s ≠ processing | _ => True end →
  settled_inv id cur l0 hi l → settled_inv id cur l0 hi (l ++ [Wrote id it]).
Proof.
  intros Hit (l' & -> & Hs & Hb & Hl). exists (l' ++ [Wrote id it]).
  rewrite app_assoc. split; [reflexivity|].
  rewrite progress_writes_app, last_status_app, progress_writes_one, last_status_one.
  destruct it as [s|m|p|u|x]; rewrite ?app_nil_r; auto.
  rewrite bool_decide_eq_false_2 by exact Hl. rewrite app_nil_r. auto.
Qed.

Lemma ramp_inv_settle hi l s :
  s ≠ processing →
  ramp_inv id cur l0 hi l → settled_inv id cur l0 hi (l ++ [Wrote id (Status s)]).
Proof.
  intros Hs' (l' & -> & Hs & Hb). exists (l' ++ [Wrote id (Status s)]).
  rewrite app_assoc. split; [reflexivity|].
  rewrite progress_writes_app, last_status_app, progress_writes_one, last_status_one.
  rewrite app_nil_r. auto.
Qed.

(** Writes while the job may be processing: a progress value must not be
    below the bound so far. *)
Lemma ramp_write it hi :
  match it with Progress p => hi ≤ p ≤ 90 | _ => hi ≤ 90 end →
  triple others id (ramp_inv id cur l0 hi) (setitem_job id it)
         (fun _ => ramp_inv id cur l0 (match it with Progress p => p | _ => hi end))
         (fun _ => ramp_inv id cur l0 90).
Proof.
  intros Hit. eapply triple_conseq; [| | |apply triple_setitem].
  - intros l H. exact H.
  - intros ? l (l1 & H1 & ->). apply ramp_inv_snoc; [|exact H1].
    destruct it; auto; lia.
  - intros ? l H. simpl in H. eapply ramp_inv_weaken; [|exact H].
    destruct it; lia.
Qed.

Lemma ramp_quiet {A} (c : task A) hi :
  hi ≤ 90 → quiet others id c →
  triple others id (ramp_inv id cur l0 hi) c
         (fun _ => ramp_inv id cur l0 hi) (fun _ => ramp_inv id cur l0 90).
Proof.
  intros Hhi Hc.
  apply triple_conseq with (P := ramp_inv id cur l0 hi)
    (Q := fun _ => ramp_inv id cur l0 hi) (X := fun _ => ramp_inv id cur l0 hi);
    [auto | auto | | apply Hc].
  intros ? l H. eapply ramp_inv_weaken; [exact Hhi | exact H].
Qed.

Lemma settled_write it hi :
  match it with Status s => s ≠ processing | _ => True end →
  triple others id (settled_inv id cur l0 hi) (setitem_job id it)
         (fun _ => settled_inv id cur l0 hi) (fun _ => settled_inv id cur l0 hi).
Proof.
  intros Hit. eapply triple_conseq; [| | |apply triple_setitem].
  - intros l H. exact H.
  - intros ? l (l1 & H1 & ->). apply settled_inv_snoc; assumption.
  - intros ? l H. exact H.
Qed.

Lemma settle_write s hi :
  s ≠ processing → hi ≤ 90 →
  triple others id (ramp_inv id cur l0 hi) (setitem_job id (Status s))
         (fun _ => settled_inv id cur l0 hi) (fun _ => ramp_inv id cur l0 90).
Proof.
  intros Hs Hhi. eapply triple_conseq; [| | |apply triple_setitem].
  - intros l H. exact H.
  - intros ? l (l1 & H1 & ->). apply ramp_inv_settle; assumption.
  - intros ? l H. eapply ramp_inv_weaken; [exact Hhi | exact H].
Qed.

(** ** The training loop *)



(** ** The pipeline *)

Ltac quiet_op :=
  solve [ apply quiet_makedirs | apply quiet_extract_frames
        | apply quiet_create_subprocess_exec | apply quiet_communicate
        | apply quiet_resolve_artifact | apply quiet_gets
        | apply quiet_when; repeat quiet_step
        | repeat quiet_step ].






(** ** The status written by the stages *)

Lemma logged_snoc sts l it :
  logged id l0 sts l →
  logged id l0 (sts ++ match it with Status s => [s] | _ => [] end)
         (l ++ [Wrote id it]).
Proof.
  intros (l' & -> & Hs). exists (l' ++ [Wrote id it]).
  split; [symmetry; apply app_assoc|].
  rewrite status_writes_app, status_writes_one, Hs. reflexivity.
Qed.

Lemma logged_write it sts :
  match it with Status _ => False | _ => True end →
  triple others id (logged id l0 sts) (setitem_job id it)
         (fun _ => logged id l0 sts) (fun _ => logged id l0 sts).
Proof.
  intros Hit. eapply triple_conseq; [| | |apply triple_setitem].
  - intros l H. exact H.
  - intros ? l (l1 & H1 & ->).
    apply (logged_snoc _ _ it) in H1. destruct it; try contradiction;
      rewrite app_nil_r in H1; exact H1.
  - intros ? l H. exact H.
Qed.

Lemma logged_quiet {A} (c : task A) sts :
  quiet others id c →
  triple others id (logged id l0 sts) c
         (fun _ => logged id l0 sts) (fun _ => logged id l0 sts).
Proof. intros Hc. apply Hc. Qed.

Lemma poll_training_logged sts n : ∀ p,
  triple others id (logged id l0 sts) (Main.poll_training id n p)
         (fun _ => logged id l0 sts) (fun _ => logged id l0 sts).
Proof.
  induction n as [|n IH]; intros p; cbn [Main.poll_training].
  - apply triple_ret.
  - eapply triple_bind; [apply logged_quiet, quiet_await|intros ?].
    eapply triple_bind; [apply logged_write; exact I|intros ?].
    eapply triple_bind; [apply logged_quiet, quiet_await|intros ?].
    apply IH.
Qed.

Ltac logged_step :=
  eapply triple_bind;
  [ first [ apply logged_write; exact I
          | apply poll_training_logged
          | apply logged_quiet; quiet_op ]
  | intros ? ].

(** The stages write ["processing"] once and no other status; when they
    raise without having written it, the record is not there. *)
Lemma run_stages_status vp :
  hoare others (fun w => mine id (log w) = l0) (Main.run_stages E id vp)
        (fun _ w => logged id l0 [processing] (mine id (log w)))
        (fun _ w => (jobs_status w !! id = None ∧ mine id (log w) = l0)
                    ∨ logged id l0 [processing] (mine id (log w))).
Proof.
  unfold Main.run_stages.
  eapply hoare_bind.
  { eapply hoare_conseq; [| | |apply (hoare_setitem others id (Status processing))].
    - intros w H. exact H.
    - intros ? w' (w & Hw & Hlog).
      instantiate (1 := fun _ w' => logged id l0 [processing] (mine id (log w'))).
      exists [Wrote id (Status processing)]. rewrite Hlog, Hw.
      split; [reflexivity|]. apply status_writes_one.
    - intros ? w [Hw Hn]. left. auto. }
  intros ?.
  eapply hoare_conseq with
    (P := fun w => logged id l0 [processing] (mine id (log w)))
    (Q := fun _ w => logged id l0 [processing] (mine id (log w)))
    (X := fun _ w => logged id l0 [processing] (mine id (log w)));
    [auto | auto | intros ? w H; right; exact H |].
  match goal with
  | |- hoare _ _ ?c _ _ =>
      change (triple others id (logged id l0 [processing]) c
                (fun _ => logged id l0 [processing])
                (fun _ => logged id l0 [processing]))
  end.
  repeat logged_step.
  apply logged_quiet. quiet_op.
Qed.

End Progress.



(* ===================================================================== *)
(** * Frame samplers: properties *)
(* ===================================================================== *)

Lemma scan_collects interval T :
  1 ≤ interval →
  ∀ rest fc ec written d,
    0 ≤ ec < T → 0 ≤ d < interval → (fc + d) mod interval = 0 →
    (Z.to_nat (d + (T - ec - 1) * interval) < length rest)%nat →
    ∃ new,
      Main.scan interval T rest fc ec written = (T, written ++ new)
      ∧ Z.of_nat (length new) = T - ec
      ∧ ∀ k : nat, (k < length new)%nat →
          ∃ f, rest !! Z.to_nat (d + Z.of_nat k * interval) = Some f
               ∧ new !! k = Some ("frame_" +:+ fmt_04d (ec + Z.of_nat k) +:+ ".jpg", f).
Proof.
  intros Hi. induction rest as [|fr rest IH]; intros fc ec written d Hec Hd Hmod Hlen.
  - simpl in Hlen. lia.
  - cbn [Main.scan].
    destruct (Z.eqb_spec (fc mod interval) 0) as [Hz|Hnz].
    + assert (d = 0) as ->.
      { rewrite Z.add_mod in Hmod by lia. rewrite Hz, Z.add_0_l, Z.mod_mod in Hmod by lia.
        rewrite Z.mod_small in Hmod by lia. exact Hmod. }
      destruct (Z.geb_spec (ec + 1) T) as [Hge|Hlt].
      * exists [("frame_" +:+ fmt_04d ec +:+ ".jpg", fr)].
        assert (ec + 1 = T) as <- by lia.
        split; [reflexivity|]. split; [simpl; lia|].
        intros k Hk. simpl in Hk. assert (k = 0%nat) as -> by lia.
        exists fr. split; [reflexivity|].
        replace (ec + Z.of_nat 0) with ec by lia. reflexivity.
      * destruct (IH (fc + 1) (ec + 1) (written ++ [("frame_" +:+ fmt_04d ec +:+ ".jpg", fr)])
                    (interval - 1)) as (new & Hscan & Hnew & Hk).
        -- lia.
        -- lia.
        -- replace (fc + 1 + (interval - 1)) with (fc + 0 + 1 * interval) by lia.
           rewrite Z_mod_plus_full. exact Hmod.
        -- simpl in Hlen.
           replace (interval - 1 + (T - (ec + 1) - 1) * interval)
             with (0 + (T - ec - 1) * interval - 1) by lia.
           assert (0 < (T - ec - 1) * interval) by nia. lia.
        -- exists (("frame_" +:+ fmt_04d ec +:+ ".jpg", fr) :: new).
           split; [rewrite Hscan, <- app_assoc; reflexivity|].
           split; [simpl length; lia|].
           intros [|k] Hlt'.
           ++ exists fr. split; [reflexivity|].
              replace (ec + Z.of_nat 0) with ec by lia. reflexivity.
           ++ simpl in Hlt'. destruct (Hk k) as (f & Hf & Hn); [lia|].
              exists f. split.
              ** replace (Z.to_nat (0 + Z.of_nat (S k) * interval))
                   with (S (Z.to_nat (interval - 1 + Z.of_nat k * interval))) by nia.
                 exact Hf.
              ** replace (ec + Z.of_nat (S k)) with (ec + 1 + Z.of_nat k) by lia.
                 exact Hn.
    + assert (d ≠ 0) by (intros ->; rewrite Z.add_0_r in Hmod; contradiction).
      destruct (IH (fc + 1) ec written (d - 1)) as (new & Hscan & Hnew & Hk).
      * lia.
      * lia.
      * replace (fc + 1 + (d - 1)) with (fc + d) by lia. exact Hmod.
      * simpl in Hlen. assert (0 ≤ (T - ec - 1) * interval) by nia. lia.
      * exists new. split; [exact Hscan|]. split; [exact Hnew|].
        intros k Hlt'. destruct (Hk k Hlt') as (f & Hf & Hn).
        exists f. split; [|exact Hn].
        replace (Z.to_nat (d + Z.of_nat k * interval))
          with (S (Z.to_nat (d - 1 + Z.of_nat k * interval))) by nia.
        exact Hf.
Qed.

(** C1, as amended.  For a source whose reported frame count [F] is the
    number of frames it yields, and a target [T] with [1 <= T <= F], the
    sampler of [main.py] returns [min(T, F)] and has written that many
    files: the [k]-th one, named by its zero-padded ordinal, is the frame
    at index [k * interval] of the source, with
    [interval = max(1, F // T)]. *)
Theorem sampler_uniform_stride (v : video) (T : Z) :
  CAP_PROP_FRAME_COUNT v = Z.of_nat (length (frames v)) →
  1 ≤ T →
  T ≤ CAP_PROP_FRAME_COUNT v →
  let F := CAP_PROP_FRAME_COUNT v in
  let interval := Z.max 1 (F / T) in
  ∃ files,
    Main.extract_frames_from_video v T = inr (Z.min T F, files)
    ∧ Z.of_nat (length files) = Z.min T F
    ∧ ∀ k : nat, (k < length files)%nat →
        ∃ f, frames v !! Z.to_nat (Z.of_nat k * interval) = Some f
             ∧ files !! k = Some ("frame_" +:+ fmt_04d (Z.of_nat k) +:+ ".jpg", f).
Proof.
  intros HF HT HTF F interval.
  assert (Hq : 1 ≤ F / T) by (apply Z.div_le_lower_bound; lia).
  assert (Hm : T * (F / T) ≤ F) by (apply Z.mul_div_le; lia).
  assert (Hint : interval = F / T) by (unfold interval; lia).
  unfold Main.extract_frames_from_video, floordiv.
  destruct (Z.eqb_spec T 0) as [?|_]; [lia|].
  fold F. fold interval.
  destruct (scan_collects interval T ltac:(lia) (frames v) 0 0 [] 0)
    as (new & Hscan & Hlen & Hk).
  - lia.
  - lia.
  - reflexivity.
  - apply Nat2Z.inj_lt. rewrite Z2Nat.id by nia. fold F in HF. nia.
  - exists new. rewrite Hscan. simpl app.
    replace (Z.min T F) with T by lia.
    split; [reflexivity|]. split; [lia|].
    intros k Hlt. destruct (Hk k Hlt) as (f & Hf & Hn).
    exists f. rewrite Z.add_0_l in Hf, Hn. auto.
Qed.

Lemma sampler_uniform_stride_witness :
  let v := Video 6 30 [[0]; [1]; [2]; [3]; [4]; [5]] in
  CAP_PROP_FRAME_COUNT v = Z.of_nat (length (frames v))
  ∧ 1 ≤ 3 ≤ CAP_PROP_FRAME_COUNT v
  ∧ ∃ files,
      Main.extract_frames_from_video v 3 = inr (3, files)
      ∧ Z.of_nat (length files) = 3.
Proof.
  intros v. split; [reflexivity|]. split; [simpl; lia|].
  destruct (sampler_uniform_stride v 3) as (files & H1 & H2 & _);
    [reflexivity | lia | simpl; lia |].
  exists files. split; [exact H1 | exact H2].
Defined.

(** C1, as stated, fails at the target the pipeline passes.  A file
    whose header announces 1000 frames and that yields 100 is read with
    a stride of [1000 // 50 = 20]: the frames 0, 20, 40, 60 and 80 are
    kept and the source is exhausted, so the sampler returns 5, which
    is neither [min(50, 1000)] nor [min(50, 100)], whichever of the two
    counts [F] stands for. *)
Lemma sampler_claim_fails_on_misreported_count :
  (¬ ∀ (v : video) (T : Z),
       1 ≤ T → T ≤ CAP_PROP_FRAME_COUNT v →
       ∃ files, Main.extract_frames_from_video v T
                = inr (Z.min T (CAP_PROP_FRAME_COUNT v), files))
  ∧ (¬ ∀ (v : video) (T : Z),
         1 ≤ T → T ≤ Z.of_nat (length (frames v)) →
         ∃ files, Main.extract_frames_from_video v T
                  = inr (Z.min T (Z.of_nat (length (frames v))), files))
  ∧ ∃ files,
      Main.extract_frames_from_video (Scenario.misreported 1000 100 30) 50
      = inr (5, files)
      ∧ files.*2 = [[0]; [20]; [40]; [60]; [80]].
Proof.
  assert (Hrun : ∃ files,
      Main.extract_frames_from_video (Scenario.misreported 1000 100 30) 50
      = inr (5, files)
      ∧ files.*2 = [[0]; [20]; [40]; [60]; [80]]).
  { eexists. split; vm_compute; reflexivity. }
  destruct Hrun as (files & Hrun & Hfiles).
  split; [|split].
  - intros H.
    destruct (H (Scenario.misreported 1000 100 30) 50) as (files' & Hf);
      [lia | simpl; lia |].
    rewrite Hrun in Hf. discriminate Hf.
  - intros H.
    destruct (H (Scenario.misreported 1000 100 30) 50) as (files' & Hf);
      [lia | vm_compute; discriminate |].
    rewrite Hrun in Hf. discriminate Hf.
  - exists files. split; [exact Hrun | exact Hfiles].
Qed.

(** The target must be at least one: with a target of zero the stride
    [total_frames // target_frames] raises [ZeroDivisionError], also on
    the empty source, for which [F >= T] holds. *)
Lemma sampler_claim_fails_at_zero_target :
  ¬ (∀ (v : video) (T : Z),
       CAP_PROP_FRAME_COUNT v = Z.of_nat (length (frames v)) →
       T ≤ CAP_PROP_FRAME_COUNT v →
       ∃ files, Main.extract_frames_from_video v T
                = inr (Z.min T (CAP_PROP_FRAME_COUNT v), files)).
Proof.
  intros H.
  destruct (H (Video 0 0 []) 0) as (files & Hf); [reflexivity | simpl; lia |].
  discriminate Hf.
Qed.

Lemma int_of_float_small (q : Q) :
  (-3 # 1 < q)%Q → (q < 3 # 1)%Q → int_of_float (q / inject_Z 3) = 0.
Proof.
  intros Hlo Hhi. unfold int_of_float.
  apply Z.quot_small_iff; [discriminate|].
  unfold Qlt in *. destruct q as [n d]. simpl in *. lia.
Qed.

(** C10.  For every source that yields at least one frame and reports a
    frame rate below 3 (and above -3), the sampler of
    [main_gaussian_splatting.py], called with [fps=3] as the pipeline
    does, computes [frame_interval = int(video_fps / 3) = 0] and raises
    [ZeroDivisionError] at the modulo on the first frame; the sampler of
    [main_colmap.py], with [max(1, ...)], returns a count on the same
    source. *)
Theorem gaussian_sampler_divides_by_zero (v : video) :
  frames v ≠ [] →
  (-3 # 1 < CAP_PROP_FPS v)%Q →
  (CAP_PROP_FPS v < 3 # 1)%Q →
  (∃ msg, GaussianSplatting.extract_frames_from_video v 3
          = inl (ZeroDivisionError msg))
  ∧ ∃ r, Colmap.extract_frames_from_video v 3 = inr r.
Proof.
  intros Hne Hlo Hhi. split.
  - unfold GaussianSplatting.extract_frames_from_video, truediv.
    simpl (3 =? 0). cbv iota. rewrite int_of_float_small by assumption.
    destruct (frames v) as [|fr rest]; [contradiction|].
    eexists. reflexivity.
  - unfold Colmap.extract_frames_from_video, truediv. simpl (3 =? 0). cbv iota.
    eexists. reflexivity.
Qed.

Lemma gaussian_sampler_divides_by_zero_witness :
  let v := Video 2 2 [[0]; [1]] in
  frames v ≠ []
  ∧ (-3 # 1 < CAP_PROP_FPS v)%Q
  ∧ (CAP_PROP_FPS v < 3 # 1)%Q
  ∧ (∃ msg, GaussianSplatting.extract_frames_from_video v 3
            = inl (ZeroDivisionError msg))
  ∧ ∃ r, Colmap.extract_frames_from_video v 3 = inr r.
Proof.
  intros v. split; [discriminate|]. split; [reflexivity|]. split; [reflexivity|].
  apply (gaussian_sampler_divides_by_zero v);
    [discriminate | reflexivity | reflexivity].
Defined.

(* ===================================================================== *)
(** * Evaluating a task step by step *)
(* ===================================================================== *)

Lemma setitem_job_Some id it w j :
  jobs_status w !! id = Some j →
  setitem_job id it w
  = Done (emit (Wrote id it) (set_jobs_status (insert id (setitem it j)) w)) tt.
Proof. intros H. unfold setitem_job. rewrite H. reflexivity. Qed.

Lemma commands_app l1 l2 : commands (l1 ++ l2) = commands l1 ++ commands l2.
Proof. unfold commands. apply omap_app. Qed.

Lemma res_bind_Done {A B} (f : A → task B) w a : res_bind f (Done w a) = f a w.
Proof. reflexivity. Qed.
Lemma res_bind_Raised {A B} (f : A → task B) w e : res_bind f (Raised w e) = Raised w e.
Proof. reflexivity. Qed.
Lemma res_catch_Done {A} (h : exn → task A) w a : res_catch h (Done w a) = Done w a.
Proof. reflexivity. Qed.
Lemma res_catch_Raised {A} (h : exn → task A) w e : res_catch h (Raised w e) = h e w.
Proof. reflexivity. Qed.

(** Move past a step that has been evaluated. *)
Ltac next_step :=
  repeat first [ rewrite res_bind_Done | rewrite res_bind_Raised
               | rewrite res_catch_Done | rewrite res_catch_Raised ];
  cbv beta.

(** Unfold the monad down to the next step that needs a fact. *)
Ltac eval_task :=
  do 3 (cbv beta iota delta [try_except mbind task_bind mret task_ret modify
                              gets raise lift add_job_files rmtree];
        cbn [fst snd when];
        next_step).

Lemma commands_snoc_wrote l id it : commands (l ++ [Wrote id it]) = commands l.
Proof. rewrite commands_app. apply app_nil_r. Qed.

Lemma commands_snoc_ran l cmd : commands (l ++ [Ran cmd]) = commands l ++ [cmd].
Proof. apply commands_app. Qed.

Lemma capture_quiet vp w w' : UPLOAD_DIR w' = UPLOAD_DIR w → capture vp w' = capture vp w.
Proof. intros H. unfold capture. rewrite H. reflexivity. Qed.

(** One write to a record that an earlier write has just put back. *)
Ltac write_step :=
  match goal with
  | |- context [setitem_job ?i ?it ?w] =>
      let H := fresh in
      eassert (H : jobs_status w !! i = Some _)
        by (autorewrite with world; apply lookup_insert_eq);
      rewrite (setitem_job_Some i it w _ H); clear H;
      next_step
  end.

Lemma too_few_frames_main E others id vp w j n files :
  jobs_status w !! id = Some j →
  (∀ path, fault E (Mkdir path) = None) →
  Main.extract_frames_from_video (capture vp w) 50 = inr (n, files) →
  n < 10 →
  let w' := (run_among others (Main.process_3d_generation E id vp w)).1 in
  ∃ j', jobs_status w' !! id = Some j'
        ∧ status j' = failed
        ∧ error j' = Some ("Pas assez de frames extraites (" +:+ pretty n
                            +:+ "). Vidéo trop courte?")
        ∧ commands (log w') = commands (log w).
Proof.
  intros Hj Hmk Hex Hn w'.
  eassert (Hrun : Main.process_3d_generation E id vp w = Done _ tt).
  { unfold Main.process_3d_generation, Main.run_stages. eval_task.
    rewrite (setitem_job_Some _ _ _ _ Hj). next_step.
    do 2 write_step.
    unfold makedirs, oscheck. rewrite !Hmk. eval_task.
    unfold Main.extract_frames, oscheck. rewrite Hmk. eval_task.
    erewrite capture_quiet by (autorewrite with world; reflexivity).
    rewrite Hex. eval_task.
    replace (n <? 10) with true by (symmetry; apply Z.ltb_lt, Hn).
    eval_task. unfold Main.on_exception. eval_task.
    do 4 write_step.
    reflexivity. }
  subst w'. rewrite Hrun. cbn [run_among fst].
  eexists. split; [autorewrite with world; apply lookup_insert_eq|].
  split; [reflexivity|]. split; [reflexivity|].
  autorewrite with world. rewrite !commands_snoc_wrote. reflexivity.
Qed.

Lemma too_few_frames_colmap E others id vp w j n files :
  jobs_status w !! id = Some j →
  (∀ path, fault E (Mkdir path) = None) →
  Colmap.extract_frames_from_video (capture vp w) 3 = inr (n, files) →
  n < 10 →
  let w' := (run_among others (Colmap.process_colmap E id vp w)).1 in
  ∃ j', jobs_status w' !! id = Some j'
        ∧ status j' = failed
        ∧ error j' = Some ("Pas assez de frames: " +:+ pretty n
                            +:+ ". Vidéo trop courte (minimum 5 secondes)")
        ∧ commands (log w') = commands (log w).
Proof.
  intros Hj Hmk Hex Hn w'.
  eassert (Hrun : Colmap.process_colmap E id vp w = Done _ tt).
  { unfold Colmap.process_colmap. eval_task.
    rewrite (setitem_job_Some _ _ _ _ Hj). next_step.
    do 2 write_step.
    unfold makedirs, oscheck. rewrite !Hmk. eval_task.
    unfold Colmap.extract_frames, oscheck. rewrite Hmk. eval_task.
    erewrite capture_quiet by (autorewrite with world; reflexivity).
    rewrite Hex. eval_task.
    replace (n <? 10) with true by (symmetry; apply Z.ltb_lt, Hn).
    eval_task.
    do 3 write_step.
    reflexivity. }
  subst w'. rewrite Hrun. cbn [run_among fst].
  eexists. split; [autorewrite with world; apply lookup_insert_eq|].
  split; [reflexivity|]. split; [reflexivity|].
  autorewrite with world. rewrite !commands_snoc_wrote. reflexivity.
Qed.

(** C4.  In [main.py] and in [main_colmap.py], each on its own: when
    the directories can be made, every run of the pipeline on a job
    whose record is there and of which the sampler keeps fewer than 10
    frames ends with the record in ["failed"], the error detail is the
    not-enough-frames message with the count in it, and the run has
    started no external command. *)
Theorem too_few_frames_fail_the_job E others id vp :
  (∀ path, fault E (Mkdir path) = None) →
  (∀ w j n files,
     jobs_status w !! id = Some j →
     Main.extract_frames_from_video (capture vp w) 50 = inr (n, files) →
     n < 10 →
     let w' := (run_among others (Main.process_3d_generation E id vp w)).1 in
     ∃ j', jobs_status w' !! id = Some j'
           ∧ status j' = failed
           ∧ error j' = Some ("Pas assez de frames extraites (" +:+ pretty n
                               +:+ "). Vidéo trop courte?")
           ∧ commands (log w') = commands (log w))
  ∧
  (∀ w j n files,
     jobs_status w !! id = Some j →
     Colmap.extract_frames_from_video (capture vp w) 3 = inr (n, files) →
     n < 10 →
     let w' := (run_among others (Colmap.process_colmap E id vp w)).1 in
     ∃ j', jobs_status w' !! id = Some j'
           ∧ status j' = failed
           ∧ error j' = Some ("Pas assez de frames: " +:+ pretty n
                               +:+ ". Vidéo trop courte (minimum 5 secondes)")
           ∧ commands (log w') = commands (log w)).
Proof.
  intros Hmk. split; intros w j n files Hj Hex Hn.
  - eapply too_few_frames_main; eassumption.
  - eapply too_few_frames_colmap; eassumption.
Qed.

(* ===================================================================== *)
(** * The status machine of one job *)
(* ===================================================================== *)

Lemma setitem_job_None id it w :
  jobs_status w !! id = None → setitem_job id it w = Raised w (KeyError id).
Proof. intros H. unfold setitem_job. rewrite H. reflexivity. Qed.

Lemma complete_gone E id vp w :
  jobs_status w !! id = None → Main.complete E id vp w = Raised w (KeyError id).
Proof.
  intros Hn. unfold Main.complete. eval_task.
  rewrite (setitem_job_None _ _ _ Hn). reflexivity.
Qed.

Lemma complete_runs E id vp w j :
  jobs_status w !! id = Some j →
  fault E (Unlink ("uploads/" +:+ vp)) = None →
  ∃ w', Main.complete E id vp w = Done w' tt
        ∧ mine id (log w')
          = mine id (log w)
            ++ [Wrote id (Status completed); Wrote id (Progress 100);
                Wrote id (Message "Modèle 3D généré avec succès");
                Wrote id (Download_url ("/download/" +:+ id +:+ ".ply"))].
Proof.
  intros Hj Hf. unfold Main.complete. eval_task.
  rewrite (setitem_job_Some _ _ _ _ Hj). next_step.
  do 3 write_step.
  assert (Hlog : ∀ l, mine id
            ((((l ++ [Wrote id (Status completed)]) ++ [Wrote id (Progress 100)])
              ++ [Wrote id (Message "Modèle 3D généré avec succès")])
             ++ [Wrote id (Download_url ("/download/" +:+ id +:+ ".ply"))])
          = mine id l ++ [Wrote id (Status completed); Wrote id (Progress 100);
                Wrote id (Message "Modèle 3D généré avec succès");
                Wrote id (Download_url ("/download/" +:+ id +:+ ".ply"))]).
  { intros l. rewrite !mine_app. rewrite <- !app_assoc. f_equal.
    unfold mine. cbn [filter list_filter event_id]. simpl.
    repeat (rewrite decide_True by reflexivity). reflexivity. }
  destruct (bool_decide (is_Some _)); cbn [when].
  - unfold oscheck. rewrite Hf. eval_task.
    eexists. split; [reflexivity|]. autorewrite with world. apply Hlog.
  - eexists. split; [reflexivity|]. autorewrite with world. apply Hlog.
Qed.

Lemma on_exception_gone id e w :
  jobs_status w !! id = None → Main.on_exception id e w = Raised w (KeyError id).
Proof.
  intros Hn. unfold Main.on_exception. eval_task.
  rewrite (setitem_job_None _ _ _ Hn). reflexivity.
Qed.

Lemma on_exception_runs id e w j :
  jobs_status w !! id = Some j →
  ∃ w', Main.on_exception id e w = Done w' tt
        ∧ mine id (log w')
          = mine id (log w)
            ++ [Wrote id (Status failed);
                Wrote id (Message "Échec de la génération");
                Wrote id (Error (str e)); Wrote id (Progress 0)].
Proof.
  intros Hj. unfold Main.on_exception. eval_task.
  rewrite (setitem_job_Some _ _ _ _ Hj). next_step.
  do 3 write_step.
  eexists. split; [reflexivity|]. autorewrite with world.
  rewrite !mine_app. rewrite <- !app_assoc. f_equal.
  unfold mine. cbn [filter list_filter event_id]. simpl.
  repeat (rewrite decide_True by reflexivity). reflexivity.
Qed.

Section Status.

Variable others : world → world.
Variable id : string.
Hypothesis others_quiet : ∀ w, mine id (log (others w)) = mine id (log w).
Variable E : env.
Variable vp : string.
Hypothesis cleanup_succeeds : fault E (Unlink ("uploads/" +:+ vp)) = None.
Variable l0 : list event.

Lemma complete_status :
  hoare others (fun w => logged id l0 [processing] (mine id (log w)))
        (Main.complete E id vp)
        (fun _ w => ended id l0 (mine id (log w)))
        (fun _ w => (jobs_status w !! id = None ∧ mine id (log w) = l0)
                    ∨ logged id l0 [processing] (mine id (log w))).
Proof.
  intros w Hw. destruct (jobs_status w !! id) as [j|] eqn:Hj.
  - destruct (complete_runs E id vp w j Hj cleanup_succeeds) as (w' & -> & Hlog).
    simpl. right. right. left. rewrite Hlog.
    destruct Hw as (l' & -> & Hs). eexists. split; [symmetry; apply app_assoc|].
    rewrite status_writes_app, Hs. simpl. rewrite !String.eqb_refl. reflexivity.
  - rewrite (complete_gone E id vp w Hj). simpl. right. exact Hw.
Qed.

Lemma on_exception_status e :
  hoare others
        (fun w => (jobs_status w !! id = None ∧ mine id (log w) = l0)
                  ∨ logged id l0 [processing] (mine id (log w)))
        (Main.on_exception id e)
        (fun _ w => ended id l0 (mine id (log w)))
        (fun _ w => ended id l0 (mine id (log w))).
Proof.
  intros w Hw. destruct (jobs_status w !! id) as [j|] eqn:Hj.
  - destruct Hw as [[Hn _]|Hw]; [congruence|].
    destruct (on_exception_runs id e w j Hj) as (w' & -> & Hlog).
    simpl. right. right. right. rewrite Hlog.
    destruct Hw as (l' & -> & Hs). eexists. split; [symmetry; apply app_assoc|].
    rewrite status_writes_app, Hs. simpl. rewrite !String.eqb_refl. reflexivity.
  - rewrite (on_exception_gone id e w Hj). simpl.
    destruct Hw as [[_ Hl]|Hw].
    + left. exists []. rewrite app_nil_r. auto.
    + right. left. exact Hw.
Qed.

Lemma process_3d_generation_status :
  hoare others (fun w => mine id (log w) = l0)
        (Main.process_3d_generation E id vp)
        (fun _ w => ended id l0 (mine id (log w)))
        (fun _ w => ended id l0 (mine id (log w))).
Proof.
  unfold Main.process_3d_generation.
  eapply hoare_try; [|intros e; apply on_exception_status].
  eapply hoare_bind; [apply (run_stages_status others id others_quiet E l0 vp)|].
  intros ?. cbv beta.
  eapply hoare_bind; [|intros ?; apply complete_status].
  eapply hoare_conseq with
    (P := fun w => logged id l0 [processing] (mine id (log w)))
    (Q := fun _ w => logged id l0 [processing] (mine id (log w)))
    (X := fun _ w => logged id l0 [processing] (mine id (log w)));
    [auto | auto | intros ? w H; right; exact H |].
  apply (quiet_resolve_artifact others id E (logged id l0 [processing])).
Qed.

End Status.

(** X21.  Apart from a failing cleanup, the status of a job of [main.py]
    only moves forward: whatever the tools do and whatever runs in
    between (as long as nothing else writes to the record), when the
    removal of the upload does not raise, the statuses the pipeline
    writes after ["queued"] are none (the record was deleted before it
    started), ["processing"] alone (deleted while it ran), or
    ["processing"] followed by ["completed"] or by ["failed"]. *)
Lemma status_forward_when_cleanup_succeeds E others id vp w :
  (∀ w0, mine id (log (others w0)) = mine id (log w0)) →
  fault E (Unlink ("uploads/" +:+ vp)) = None →
  ∃ l',
    mine id (log (run_among others (Main.process_3d_generation E id vp w)).1)
    = mine id (log w) ++ l'
    ∧ strictly_forward (queued :: status_writes id l') = true.
Proof.
  intros Hq Hf.
  pose proof (process_3d_generation_status others id Hq E vp Hf (mine id (log w)) w
                eq_refl) as H.
  apply wp_run in H.
  assert (He : ended id (mine id (log w))
                 (mine id (log (run_among others
                                  (Main.process_3d_generation E id vp w)).1))).
  { destruct (run_among others (Main.process_3d_generation E id vp w))
      as [w' [e|[]]]; exact H. }
  destruct He as [(l' & Hl & Hs)|[(l' & Hl & Hs)|[(l' & Hl & Hs)|(l' & Hl & Hs)]]];
    exists l'; rewrite Hs; split; try exact Hl; reflexivity.
Qed.

(* ===================================================================== *)
(** * Artifact resolution *)
(* ===================================================================== *)

Lemma elem_of_touch name dir : name ∈ touch name dir.
Proof.
  unfold touch. case_bool_decide; [assumption|].
  apply elem_of_app. right. apply list_elem_of_singleton. reflexivity.
Qed.

Lemma elem_of_touch_ne name n dir : n ≠ name → n ∈ touch name dir ↔ n ∈ dir.
Proof.
  intros Hne. unfold touch. case_bool_decide; [reflexivity|].
  rewrite elem_of_app, list_elem_of_singleton. tauto.
Qed.

Lemma not_elem_of_remove name dir : name ∉ remove name dir.
Proof. unfold remove. rewrite list_elem_of_filter. tauto. Qed.

Lemma glob_ply_elem id w n : n ∈ Main.glob_ply id w → n ∈ OUTPUT_DIR w.
Proof. unfold Main.glob_ply. rewrite list_elem_of_filter. tauto. Qed.

(** The run of the whole pipeline, once the stages have gone through. *)
Lemma process_after_stages E others id vp w w1 :
  run_among others (Main.run_stages E id vp w) = (w1, inr tt) →
  run_among others (Main.process_3d_generation E id vp w)
  = run_among others
      (try_except (Main.resolve_artifact E id ;; Main.complete E id vp)
                  (Main.on_exception id) w1).
Proof.
  intros Hst. unfold Main.process_3d_generation, try_except.
  rewrite !run_among_catch. unfold mbind at 1, task_bind at 1.
  rewrite run_among_bind, Hst. reflexivity.
Qed.

Lemma resolve_artifact_none E id w :
  Main.glob_ply id w = [] →
  Main.resolve_artifact E id w
  = Raised w (Exception "Fichier PLY non trouvé après l'export").
Proof.
  intros Hg. unfold Main.resolve_artifact. eval_task. rewrite Hg. reflexivity.
Qed.

Lemma resolve_artifact_some E id w ply_file rest :
  Main.glob_ply id w = ply_file :: rest →
  fault E (Move ("outputs/" +:+ ply_file) ("outputs/" +:+ (id +:+ ".ply"))) = None →
  ∃ w2, Main.resolve_artifact E id w = Done w2 tt
        ∧ jobs_status w2 = jobs_status w
        ∧ UPLOAD_DIR w2 = UPLOAD_DIR w
        ∧ (id +:+ ".ply") ∈ OUTPUT_DIR w2
        ∧ (ply_file ≠ id +:+ ".ply" → ply_file ∉ OUTPUT_DIR w2).
Proof.
  intros Hg Hmv. unfold Main.resolve_artifact. eval_task. rewrite Hg.
  assert (Hin : ply_file ∈ OUTPUT_DIR w).
  { apply (glob_ply_elem id). rewrite Hg. apply list_elem_of_here. }
  destruct (String.eqb_spec ply_file (id +:+ ".ply")) as [->|Hne]; cbn [negb when].
  - exists w. repeat split; [exact Hin | contradiction].
  - unfold oscheck. rewrite Hmv. eval_task.
    eexists. split; [reflexivity|]. autorewrite with world.
    repeat split.
    + apply elem_of_touch.
    + intros _ Hc. apply elem_of_touch_ne in Hc; [|exact Hne].
      revert Hc. apply not_elem_of_remove.
Qed.

(** What the success block and the [except] clause leave in the record. *)
Lemma complete_outcome E id vp w j :
  jobs_status w !! id = Some j →
  ∃ w' j',
    try_except (Main.complete E id vp) (Main.on_exception id) w = Done w' tt
    ∧ jobs_status w' !! id = Some j'
    ∧ download_url j' = Some ("/download/" +:+ id +:+ ".ply")
    ∧ OUTPUT_DIR w' = OUTPUT_DIR w
    ∧ (fault E (Unlink ("uploads/" +:+ vp)) = None →
       status j' = completed ∧ error j' = error j).
Proof.
  intros Hj. unfold Main.complete. eval_task.
  rewrite (setitem_job_Some _ _ _ _ Hj). next_step.
  do 3 write_step.
  destruct (bool_decide (is_Some _)); cbn [when].
  - unfold oscheck. destruct (fault E (Unlink _)) as [e|]; eval_task.
    + unfold Main.on_exception. eval_task. do 4 write_step.
      eexists _, _. split; [reflexivity|]. autorewrite with world.
      split; [apply lookup_insert_eq|]. split; [reflexivity|].
      split; [reflexivity|]. discriminate.
    + eexists _, _. split; [reflexivity|]. autorewrite with world.
      split; [apply lookup_insert_eq|]. repeat split.
  - eexists _, _. split; [reflexivity|]. autorewrite with world.
    split; [apply lookup_insert_eq|]. repeat split.
Qed.

(** C8, as amended.  Once the four stages have gone through, leaving the
    state [w1]: with no file that matches the pattern the job ends in
    ["failed"] with the file-not-found message; with one or more, the
    first in listing order is taken: if the move does not fail, the
    canonical file [<job_id>.ply] is in the output directory and the file
    taken is not there under another name, and the download locator of
    the record is [/download/<job_id>.ply]; the job is ["completed"] when
    the cleanup does not fail either. *)
Theorem artifact_resolution_takes_the_first E others id vp w w1 j1 :
  run_among others (Main.run_stages E id vp w) = (w1, inr tt) →
  jobs_status w1 !! id = Some j1 →
  let w' := (run_among others (Main.process_3d_generation E id vp w)).1 in
  (Main.glob_ply id w1 = [] →
   ∃ j', jobs_status w' !! id = Some j'
         ∧ status j' = failed
         ∧ error j' = Some "Fichier PLY non trouvé après l'export"
         ∧ download_url j' = download_url j1)
  ∧ (∀ ply_file rest,
       Main.glob_ply id w1 = ply_file :: rest →
       fault E (Move ("outputs/" +:+ ply_file) ("outputs/" +:+ (id +:+ ".ply"))) = None →
       ∃ j', jobs_status w' !! id = Some j'
             ∧ download_url j' = Some ("/download/" +:+ id +:+ ".ply")
             ∧ (id +:+ ".ply") ∈ OUTPUT_DIR w'
             ∧ (ply_file ≠ id +:+ ".ply" → ply_file ∉ OUTPUT_DIR w')
             ∧ (fault E (Unlink ("uploads/" +:+ vp)) = None →
                status j' = completed ∧ error j' = error j1)).
Proof.
  intros Hst Hj w'. subst w'. rewrite (process_after_stages _ _ _ _ _ _ Hst).
  split.
  - intros Hg.
    eassert (Htail : try_except (Main.resolve_artifact E id ;; Main.complete E id vp)
                                (Main.on_exception id) w1 = Done _ tt).
    { unfold try_except. unfold mbind at 1, task_bind at 1.
      rewrite (resolve_artifact_none _ _ _ Hg). next_step.
      unfold Main.on_exception. eval_task.
      rewrite (setitem_job_Some _ _ _ _ Hj). next_step.
      do 3 write_step. reflexivity. }
    rewrite Htail. cbn [run_among fst].
    eexists. autorewrite with world. split; [apply lookup_insert_eq|].
    repeat split.
  - intros ply_file rest Hg Hmv.
    destruct (resolve_artifact_some E id w1 ply_file rest Hg Hmv)
      as (w2 & Hres & Hjs & _ & Hin & Hout).
    assert (Hj2 : jobs_status w2 !! id = Some j1) by (rewrite Hjs; exact Hj).
    destruct (complete_outcome E id vp w2 j1 Hj2)
      as (w3 & j3 & Hrun & Hj3 & Hurl & Hdir & Hok).
    assert (Htail : try_except (Main.resolve_artifact E id ;; Main.complete E id vp)
                               (Main.on_exception id) w1 = Done w3 tt).
    { unfold try_except. unfold mbind at 1, task_bind at 1.
      rewrite Hres. next_step. exact Hrun. }
    rewrite Htail. cbn [run_among fst].
    exists j3. rewrite Hdir. auto.
Qed.

(* ===================================================================== *)
(** * Admission *)
(* ===================================================================== *)

Lemma res_bind_Suspended {A B} (f : A → task B) w k :
  res_bind f (Suspended w k) = Suspended w (fun w' => res_bind f (k w')).
Proof. reflexivity. Qed.
Lemma res_catch_Suspended {A} (h : exn → task A) w k :
  res_catch h (Suspended w k) = Suspended w (fun w' => res_catch h (k w')).
Proof. reflexivity. Qed.

(** The first stretch of the pipeline, up to the [await] on the pose
    estimation process: the job is processing and the command runs. *)
Lemma process_3d_generation_starts E id vp w j n files pr :
  jobs_status w !! id = Some j →
  (∀ path, fault E (Mkdir path) = None) →
  Main.extract_frames_from_video (capture vp w) 50 = inr (n, files) →
  10 ≤ n →
  (∀ cmd, spawn E cmd = inr (pr cmd)) →
  ∃ w' k j',
    Main.process_3d_generation E id vp w = Suspended w' k
    ∧ jobs_status w' = <[id := j']> (jobs_status w)
    ∧ status j' = processing
    ∧ background_tasks w' = background_tasks w
    ∧ length (commands (log w')) = S (length (commands (log w))).
Proof.
  intros Hj Hmk Hex Hn Hsp.
  eassert (Hrun : Main.process_3d_generation E id vp w = Suspended _ _).
  { unfold Main.process_3d_generation, Main.run_stages. eval_task.
    rewrite (setitem_job_Some _ _ _ _ Hj). next_step.
    do 2 write_step.
    unfold makedirs, oscheck. rewrite !Hmk. eval_task.
    unfold Main.extract_frames, oscheck. rewrite Hmk. eval_task.
    erewrite capture_quiet by (autorewrite with world; reflexivity).
    rewrite Hex. eval_task.
    replace (n <? 10) with false by (symmetry; apply Z.ltb_ge, Hn).
    eval_task.
    do 2 write_step.
    unfold create_subprocess_exec. eval_task. rewrite !Hsp. eval_task.
    unfold await. cbv beta. rewrite !res_bind_Suspended, res_catch_Suspended.
    reflexivity. }
  eexists _, _, _. split; [exact Hrun|].
  autorewrite with world. rewrite !insert_insert_eq.
  split; [reflexivity|]. split; [reflexivity|]. split; [reflexivity|].
  repeat first [rewrite commands_snoc_ran | rewrite commands_snoc_wrote].
  rewrite length_app. cbn [length]. lia.
Qed.

(** C6, as amended.  Nothing is compared with [MAX_CONCURRENT_JOBS]: from
    any state of the server, with any number of jobs processing, starting
    a background task that has been added puts its job in ["processing"]
    and its first external command in flight, next to the tasks that are
    already suspended; the other records are untouched. *)
Theorem admission_is_unbounded E s i id vp j n files pr :
  background_tasks (state s) !! i = Some (id, vp) →
  jobs_status (state s) !! id = Some j →
  (∀ path, fault E (Mkdir path) = None) →
  Main.extract_frames_from_video (capture vp (state s)) 50 = inr (n, files) →
  10 ≤ n →
  (∀ cmd, spawn E cmd = inr (pr cmd)) →
  let s' := step (Main.process_3d_generation E) s (Start_background i) in
  status <$> jobs_status (state s') !! id = Some processing
  ∧ (∀ id', id' ≠ id → jobs_status (state s') !! id' = jobs_status (state s) !! id')
  ∧ background_tasks (state s') = delete i (background_tasks (state s))
  ∧ length (workers s') = S (length (workers s))
  ∧ length (commands (log (state s'))) = S (length (commands (log (state s)))).
Proof.
  intros Hbg Hj Hmk Hex Hn Hsp s'. subst s'. unfold step. rewrite Hbg.
  destruct (process_3d_generation_starts E id vp
              (set_background_tasks (delete i) (state s)) j n files pr)
    as (w' & k & j' & Hrun & Hjs & Hst & Hq & Hcmd); try assumption.
  rewrite Hrun. cbn [settle_worker state workers].
  rewrite Hjs, Hq, Hcmd. autorewrite with world.
  split; [rewrite lookup_insert_eq; cbn; congruence|].
  split; [intros id' Hne; apply lookup_insert_ne; congruence|].
  split; [reflexivity|]. split; [|reflexivity].
  rewrite length_app. cbn [length]. lia.
Qed.

Lemma admission_is_unbounded_witness :
  let s := Scenario.two_running Scenario.all_well in
  let s' := step (Main.process_3d_generation Scenario.all_well) s
                 (Start_background 0) in
  count_status processing (state s) = 2%nat
  ∧ background_tasks (state s) !! 0%nat = Some ("j3", "j3.mp4")
  ∧ status <$> jobs_status (state s') !! "j3" = Some processing
  ∧ length (workers s') = S (length (workers s)).
Proof.
  intros s s'.
  split; [vm_compute; reflexivity|]. split; [vm_compute; reflexivity|].
  destruct (admission_is_unbounded Scenario.all_well s 0 "j3" "j3.mp4"
              (new_job "j3" "En attente de traitement..." "2025-01-01T00:00:00")
              50 (snd (Main.scan 6 50 (frames (Scenario.clip 300 30)) 0 0 []))
              (Scenario.results ["j1.ply"]))
    as (H1 & _ & _ & H4 & _).
  - vm_compute. reflexivity.
  - vm_compute. reflexivity.
  - intros path. reflexivity.
  - vm_compute. reflexivity.
  - lia.
  - intros cmd. reflexivity.
  - split; [exact H1 | exact H4].
Defined.

(* ===================================================================== *)
(** * Runs of the scenarios *)
(* ===================================================================== *)

(** When nothing fails, the record of the job ends completed and its
    status has moved [queued], [processing], [completed]. *)
Example run_all_well :
  status_writes "j1" (log (state (Scenario.run_one Scenario.all_well)))
  = [queued; processing; completed]
  ∧ progress_writes "j1" queued (log (state (Scenario.run_one Scenario.all_well)))
    = [10; 20; 40; 45; 50; 55; 90]
  ∧ OUTPUT_DIR (state (Scenario.run_one Scenario.all_well)) = ["j1.ply"].
Proof. vm_compute. repeat split. Qed.

(** Along that run the two optional fields agree with the status in
    every state a request can see. *)
Example run_all_well_fields :
  forallb (fun s => match jobs_status (state s) !! "j1" with
                    | Some j => fields_agree j
                    | None => true
                    end)
          (history (Main.process_3d_generation Scenario.all_well) boot
             (Scenario.submit Scenario.all_well "j1"
              ++ Start_background 0 :: repeat (Resume_worker 0) 20))
  = true.
Proof. vm_compute. reflexivity. Qed.

(** C2.  The run of [main.py] in which every stage succeeds and the
    removal of the upload raises: ["completed"] is written before the
    cleanup, inside the [try] block, so the [except] clause then writes
    ["failed"]; the status written to the record moves [queued],
    [processing], [completed], [failed], which is not strictly forward. *)
Theorem status_leaves_completed_when_cleanup_raises :
  status_writes "j1" (log (state (Scenario.run_one Scenario.cleanup_fails)))
  = [queued; processing; completed; failed]
  ∧ strictly_forward
      (status_writes "j1" (log (state (Scenario.run_one Scenario.cleanup_fails))))
    = false.
Proof. vm_compute. split; reflexivity. Qed.

(** Both writes fall in one stretch between two [await]s: a request that
    polls the record in between sees ["processing"], then ["failed"]. *)
Example cleanup_failure_as_observed :
  observed "j1"
    (history (Main.process_3d_generation Scenario.cleanup_fails) boot
       (Scenario.submit Scenario.cleanup_fails "j1"
        ++ Start_background 0 :: repeat (Resume_worker 0) 20))
  = [queued; processing; failed].
Proof. vm_compute. reflexivity. Qed.

(** [main_colmap.py] cleans up before it writes ["completed"]: the same
    fault there leaves the status sequence forward. *)
Example colmap_cleanup_raises :
  status_writes "j1" (log (state (Scenario.colmap_run_one Scenario.cleanup_fails)))
  = [queued; processing; failed]
  ∧ strictly_forward
      (status_writes "j1"
         (log (state (Scenario.colmap_run_one Scenario.cleanup_fails))))
    = true.
Proof. vm_compute. split; reflexivity. Qed.

(** C5.  After the same run the record, as [GET /job-status] returns it,
    has status ["failed"], an error detail and a download locator: the
    locator is set although the status is not ["completed"]. *)
Theorem download_url_set_on_failed_job :
  let s := step (Main.process_3d_generation Scenario.cleanup_fails)
                (Scenario.run_one Scenario.cleanup_fails)
                (Request (Main.get_job_status "j1")) in
  ∃ j, last (responses s) = Some (inr (Job_json j))
       ∧ status j = failed
       ∧ download_url j = Some "/download/j1.ply"
       ∧ error j = Some "[Errno 13] Permission denied: 'uploads/j1.mp4'"
       ∧ fields_agree j = false.
Proof. vm_compute. eexists. repeat split. Qed.

(** C6, as stated, fails: with the default bound of 2, three uploads
    followed by the start of their background tasks leave three jobs in
    ["processing"], none in ["queued"], and three commands running. *)
Lemma three_jobs_processing_at_once :
  Config.MAX_CONCURRENT_JOBS None = 2
  ∧ count_status processing (state (Scenario.run_three Scenario.all_well)) = 3%nat
  ∧ count_status queued (state (Scenario.run_three Scenario.all_well)) = 0%nat
  ∧ length (workers (Scenario.run_three Scenario.all_well)) = 3%nat
  ∧ length (commands (log (state (Scenario.run_three Scenario.all_well)))) = 3%nat.
Proof. vm_compute. repeat split. Qed.

(** C7.  [main_colmap.py] does not look at the content type: a text file
    is stored, gets a record in ["queued"], a background task and a job
    identifier. *)
Theorem colmap_accepts_non_video :
  content_type Scenario.text_file = Some "text/plain"
  ∧ responses Scenario.colmap_text_upload = [inr (Started "j1")]
  ∧ status <$> jobs_status (state Scenario.colmap_text_upload) !! "j1" = Some queued
  ∧ is_Some (UPLOAD_DIR (state Scenario.colmap_text_upload) !! "j1.mp4")
  ∧ background_tasks (state Scenario.colmap_text_upload) = [("j1", "j1.mp4")].
Proof. vm_compute. repeat split. eexists. reflexivity. Qed.

(** [main.py] rejects the same upload and leaves the state as it was;
    the [HTTPException(400)] raised by the test is caught by the
    handler's own [except Exception] and comes out as a 500. *)
Lemma main_rejects_non_video E file d w :
  match content_type file with
  | Some ct => startswith ct "video/" = false
  | None => True
  end →
  ∃ detail, Main.generate_3d E file d w = Raised w (HTTPException 500 detail).
Proof.
  intros Hct. unfold Main.generate_3d. eval_task.
  destruct (content_type file) as [ct|]; eval_task.
  - rewrite Hct. eval_task. eexists. reflexivity.
  - eexists. reflexivity.
Qed.

Example main_text_upload_rejected :
  responses Scenario.main_text_upload
  = [inl (HTTPException 500
            "Erreur lors de l'upload: 400: Le fichier doit être une vidéo")]
  ∧ jobs_status (state Scenario.main_text_upload) = ∅
  ∧ UPLOAD_DIR (state Scenario.main_text_upload) = ∅.
Proof. vm_compute. repeat split. Qed.

(** C8, as stated, fails: with two files that match the pattern after
    the export, the job is completed and the first of them has become
    the artifact; no error is raised for the ambiguity. *)
Lemma ambiguity_raises_no_error :
  filter (fun n => fnmatch_star "j1" ".ply" n) (out_files (Scenario.results ["j1_a.ply"; "j1_b.ply"] ["ns-export"]))
  = ["j1_a.ply"; "j1_b.ply"]
  ∧ ∃ j, jobs_status (state (Scenario.run_one Scenario.two_candidates)) !! "j1" = Some j
         ∧ status j = completed
         ∧ error j = None
         ∧ download_url j = Some "/download/j1.ply"
         ∧ OUTPUT_DIR (state (Scenario.run_one Scenario.two_candidates))
           = ["j1_b.ply"; "j1.ply"].
Proof. vm_compute. split; [reflexivity|]. eexists. repeat split. Qed.

(** C9.  [delete_job] of [main.py] on a job that failed in pose
    estimation: the record is gone and the request succeeds, and the
    working directory [jobs/j1] with the extracted frames is still there. *)
Theorem main_delete_leaves_working_directory :
  last (responses Scenario.failed_then_deleted) = Some (inr Success)
  ∧ jobs_status (state Scenario.failed_then_deleted) !! "j1" = None
  ∧ is_Some (JOBS_DIR (state Scenario.failed_then_deleted) !! "j1").
Proof. vm_compute. repeat split. eexists. reflexivity. Qed.

(** [delete_job] of [main_colmap.py] removes the directory as well. *)
Example colmap_delete_removes_working_directory :
  last (responses Scenario.colmap_failed_then_deleted) = Some (inr Success)
  ∧ jobs_status (state Scenario.colmap_failed_then_deleted) !! "j1" = None
  ∧ JOBS_DIR (state Scenario.colmap_failed_then_deleted) !! "j1" = None.
Proof. vm_compute. repeat split. Qed.

(* ===================================================================== *)
(** * Deleting a job *)
(* ===================================================================== *)

(** An identifier without a record: both [delete_job]s answer 404 and
    change nothing. *)
Lemma delete_job_unknown E id w :
  jobs_status w !! id = None →
  Main.delete_job E id w = Raised w (HTTPException 404 "Job non trouvé")
  ∧ Colmap.delete_job E id w = Raised w (HTTPException 404 "Job non trouvé").
Proof.
  intros Hn. unfold Main.delete_job, Colmap.delete_job. eval_task.
  rewrite Hn. rewrite bool_decide_eq_false_2 by (intros [? ?]; discriminate).
  split; reflexivity.
Qed.

(** [delete_job] of [main.py]: the record and the artifact go, the
    working directories stay as they are. *)
Lemma main_delete_job E id w j :
  jobs_status w !! id = Some j →
  fault E (Unlink ("outputs/" +:+ (id +:+ ".ply"))) = None →
  ∃ w', Main.delete_job E id w = Done w' Success
        ∧ jobs_status w' !! id = None
        ∧ ((id +:+ ".ply") ∉ OUTPUT_DIR w')
        ∧ JOBS_DIR w' = JOBS_DIR w.
Proof.
  intros Hj Hf. unfold Main.delete_job. eval_task.
  rewrite Hj. rewrite bool_decide_eq_true_2 by (eexists; reflexivity).
  eval_task. case_bool_decide as Hin; eval_task.
  - unfold oscheck. rewrite Hf. eval_task.
    eexists. split; [reflexivity|]. autorewrite with world.
    split; [apply lookup_delete_eq|]. split; [apply not_elem_of_remove | reflexivity].
  - eexists. split; [reflexivity|]. autorewrite with world.
    split; [apply lookup_delete_eq|]. split; [exact Hin | reflexivity].
Qed.

(** [delete_job] of [main_colmap.py]: record, artifact and working
    directory go, and the status and download queries answer 404. *)
Lemma colmap_delete_job E id w j :
  jobs_status w !! id = Some j →
  fault E (Unlink ("outputs/" +:+ (id +:+ ".ply"))) = None →
  ∃ w', Colmap.delete_job E id w = Done w' Success
        ∧ jobs_status w' !! id = None
        ∧ ((id +:+ ".ply") ∉ OUTPUT_DIR w')
        ∧ JOBS_DIR w' !! id = None
        ∧ Colmap.get_job_status id w' = Raised w' (HTTPException 404 "Job non trouvé")
        ∧ Colmap.download_model (id +:+ ".ply") w'
          = Raised w' (HTTPException 404 "Fichier non trouvé").
Proof.
  intros Hj Hf. unfold Colmap.delete_job. eval_task.
  rewrite Hj. rewrite bool_decide_eq_true_2 by (eexists; reflexivity).
  eval_task. unfold oscheck. rewrite Hf. eval_task.
  eexists. split; [reflexivity|].
  unfold Colmap.get_job_status, Colmap.download_model. eval_task.
  autorewrite with world.
  rewrite !lookup_delete_eq.
  rewrite bool_decide_eq_false_2 by apply not_elem_of_remove.
  repeat split. apply not_elem_of_remove.
Qed.

Lemma too_few_frames_fail_the_job_witness :
  (∃ j', jobs_status
           (run_among (fun w => w)
              (Main.process_3d_generation Scenario.all_well "j1" "j1.mp4"
                 (Scenario.submitted Scenario.all_well 8))).1 !! "j1" = Some j'
         ∧ status j' = failed
         ∧ error j' = Some ("Pas assez de frames extraites (" +:+ pretty 8
                             +:+ "). Vidéo trop courte?"))
  ∧ (∃ j', jobs_status
             (run_among (fun w => w)
                (Colmap.process_colmap Scenario.all_well "j1" "j1.mp4"
                   (Scenario.colmap_submitted Scenario.all_well 90))).1 !! "j1" = Some j'
           ∧ status j' = failed
           ∧ error j' = Some ("Pas assez de frames: " +:+ pretty 9
                               +:+ ". Vidéo trop courte (minimum 5 secondes)")).
Proof.
  destruct (too_few_frames_fail_the_job Scenario.all_well (fun w => w) "j1" "j1.mp4")
    as [Hmain Hcolmap].
  - intros path. reflexivity.
  - split.
    + destruct (Hmain (Scenario.submitted Scenario.all_well 8)
                  (new_job "j1" "En attente de traitement..." "2025-01-01T00:00:00")
                  8 (snd (Main.scan 1 50 (frames (Scenario.clip 8 30)) 0 0 [])))
        as (j' & H1 & H2 & H3 & _).
      * vm_compute. reflexivity.
      * vm_compute. reflexivity.
      * lia.
      * exists j'. split; [exact H1|]. split; [exact H2 | exact H3].
    + destruct (Hcolmap (Scenario.colmap_submitted Scenario.all_well 90)
                  (new_job "j1" "En attente..." "2025-01-01T00:00:00")
                  9 (snd (Colmap.scan 10 (frames (Scenario.clip 90 30)) 0 0 [])))
        as (j' & H1 & H2 & H3 & _).
      * vm_compute. reflexivity.
      * vm_compute. reflexivity.
      * lia.
      * exists j'. split; [exact H1|]. split; [exact H2 | exact H3].
Defined.

Lemma artifact_resolution_takes_the_first_witness :
  let E := Scenario.two_candidates in
  let w := Scenario.submitted E 300 in
  let w1 := (run_among (fun w => w) (Main.run_stages E "j1" "j1.mp4" w)).1 in
  let w' := (run_among (fun w => w) (Main.process_3d_generation E "j1" "j1.mp4" w)).1 in
  Main.glob_ply "j1" w1 = ["j1_a.ply"; "j1_b.ply"]
  ∧ ∃ j', jobs_status w' !! "j1" = Some j'
          ∧ download_url j' = Some ("/download/" +:+ "j1" +:+ ".ply")
          ∧ ("j1" +:+ ".ply") ∈ OUTPUT_DIR w'
          ∧ status j' = completed.
Proof.
  intros E w w1 w'.
  assert (Hg : Main.glob_ply "j1" w1 = ["j1_a.ply"; "j1_b.ply"])
    by (vm_compute; reflexivity).
  split; [exact Hg|].
  destruct (artifact_resolution_takes_the_first E (fun w => w) "j1" "j1.mp4" w w1
              (Job "j1" processing "Export du modèle 3D..." 90
                   "2025-01-01T00:00:00" None None))
    as [_ H].
  - vm_compute. reflexivity.
  - vm_compute. reflexivity.
  - destruct (H "j1_a.ply" ["j1_b.ply"] Hg eq_refl) as (j' & H1 & H2 & H3 & _ & H5).
    exists j'. repeat split; try assumption. apply H5. reflexivity.
Defined.

(* ===================================================================== *)
(** * Frame samplers: every source *)
(* ===================================================================== *)

(** What the loop of [main.py] does on any source: it keeps a
    subsequence of the frames, numbers them from [ec] on, and stops at
    the target. *)
Lemma main_scan_bounds interval T :
  ∀ rest fc ec written,
    ec < T →
    ∃ new,
      Main.scan interval T rest fc ec written
      = (ec + Z.of_nat (length new), written ++ new)
      ∧ ec + Z.of_nat (length new) ≤ T
      ∧ sublist (new.*2) rest
      ∧ new.*1 = frame_name <$> seqZ ec (Z.of_nat (length new)).
Proof.
  induction rest as [|fr rest IH]; intros fc ec written Hec.
  - exists []. cbn [Main.scan length]. rewrite app_nil_r, Z.add_0_r.
    split; [reflexivity|]. split; [lia|]. split; [constructor | reflexivity].
  - cbn [Main.scan].
    destruct (fc mod interval =? 0).
    + destruct (Z.geb_spec (ec + 1) T) as [Hge|Hlt].
      * exists [(frame_name ec, fr)]. cbn [length].
        split; [reflexivity|]. split; [lia|]. split.
        -- cbn. apply sublist_skip, sublist_nil_l.
        -- reflexivity.
      * destruct (IH (fc + 1) (ec + 1) (written ++ [(frame_name ec, fr)]))
          as (new & Hscan & Hle & Hsub & Hnames); [lia|].
        exists ((frame_name ec, fr) :: new).
        unfold frame_name in *. rewrite Hscan, <- app_assoc. cbn [length app].
        split; [f_equal; lia|]. split; [lia|]. split.
        -- cbn. apply sublist_skip, Hsub.
        -- rewrite Nat2Z.inj_succ, seqZ_cons by lia. cbn [fmap list_fmap fst].
           f_equal.
           replace (Z.succ ec) with (ec + 1) by lia.
           replace (Z.pred (Z.succ (Z.of_nat (length new))))
             with (Z.of_nat (length new)) by lia.
           exact Hnames.
    + destruct (IH (fc + 1) ec written Hec) as (new & Hscan & Hle & Hsub & Hnames).
      exists new. split; [exact Hscan|]. split; [exact Hle|].
      split; [apply sublist_cons, Hsub | exact Hnames].
Qed.

(** With a stride of one every frame is kept, up to the target. *)
Lemma main_scan_stride_one T :
  ∀ rest fc ec written,
    0 ≤ T - ec →
    ∃ new,
      Main.scan 1 T rest fc ec written
      = (ec + Z.of_nat (length new), written ++ new)
      ∧ new.*2 = take (Z.to_nat (Z.max 1 (T - ec))) rest.
Proof.
  induction rest as [|fr rest IH]; intros fc ec written Hec.
  - exists []. cbn [Main.scan length]. rewrite app_nil_r, Z.add_0_r, take_nil. auto.
  - cbn [Main.scan]. rewrite Z.mod_1_r. cbn [Z.eqb].
    destruct (Z.geb_spec (ec + 1) T) as [Hge|Hlt].
    + exists [(frame_name ec, fr)]. cbn [length].
      split; [reflexivity|].
      replace (Z.to_nat (Z.max 1 (T - ec))) with 1%nat by lia. reflexivity.
    + destruct (IH (fc + 1) (ec + 1) (written ++ [(frame_name ec, fr)]))
        as (new & Hscan & Htake); [lia|].
      exists ((frame_name ec, fr) :: new).
      unfold frame_name in *. rewrite Hscan, <- app_assoc. cbn [length app].
      split; [f_equal; lia|].
      replace (Z.to_nat (Z.max 1 (T - ec)))
        with (S (Z.to_nat (Z.max 1 (T - (ec + 1))))) by lia.
      cbn. f_equal. exact Htake.
Qed.

(** X1.  Whatever the source reports about itself, the sampler of
    [main.py] called with a target of at least one does not raise; it
    keeps at most [target_frames] frames, a subsequence of the frames of
    the source in their order, writes one file per frame kept, named
    [frame_0000.jpg], [frame_0001.jpg], ... without a gap, and keeps the
    first frame of every source that has one, as [frame_0000.jpg]. *)
Theorem main_sampler_never_exceeds_target (v : video) (T : Z) :
  1 ≤ T →
  ∃ n files,
    Main.extract_frames_from_video v T = inr (n, files)
    ∧ 0 ≤ n ≤ T
    ∧ Z.of_nat (length files) = n
    ∧ sublist (files.*2) (frames v)
    ∧ files.*1 = frame_name <$> seqZ 0 n
    ∧ (∀ f, head (frames v) = Some f → head files = Some (frame_name 0, f)).
Proof.
  intros HT. unfold Main.extract_frames_from_video, floordiv.
  destruct (Z.eqb_spec T 0) as [?|_]; [lia|].
  destruct (main_scan_bounds (Z.max 1 (CAP_PROP_FRAME_COUNT v / T)) T (frames v) 0 0 [])
    as (new & Hscan & Hle & Hsub & Hnames); [lia|].
  exists (Z.of_nat (length new)), new. rewrite Hscan. cbn [app].
  split; [reflexivity|]. split; [lia|]. split; [reflexivity|].
  split; [exact Hsub|]. split; [exact Hnames|].
  intros f Hf. destruct (frames v) as [|fr rest]; [discriminate|].
  injection Hf as ->.
  cbn [Main.scan] in Hscan. rewrite Z.mod_0_l in Hscan by lia. cbn [Z.eqb] in Hscan.
  destruct (Z.geb_spec (0 + 1) T) as [Hge|Hlt].
  - injection Hscan as _ <-. reflexivity.
  - match type of Hscan with
    | Main.scan ?i ?T ?r ?fc ?ec ?wr = _ =>
        destruct (main_scan_bounds i T r fc ec wr) as (new' & Hscan' & _); [lia|]
    end.
    rewrite Hscan' in Hscan. injection Hscan as _ <-. reflexivity.
Qed.

Lemma main_sampler_never_exceeds_target_witness :
  ∃ n files,
    Main.extract_frames_from_video (Scenario.clip 300 30) 50 = inr (n, files)
    ∧ 0 ≤ n ≤ 50
    ∧ Z.of_nat (length files) = n
    ∧ head files = Some (frame_name 0, [0]).
Proof.
  destruct (main_sampler_never_exceeds_target (Scenario.clip 300 30) 50)
    as (n & files & H1 & H2 & H3 & _ & _ & H6); [lia|].
  exists n, files. split; [exact H1|]. split; [exact H2|]. split; [exact H3|].
  apply H6. reflexivity.
Defined.

(** X2.  A source that reports fewer frames than the target (none, or a
    negative count, included) is read with a stride of one: the sampler
    of [main.py] keeps the frames from the first on, all of them when
    there are no more than [target_frames], and returns their number. *)
Theorem main_sampler_short_source (v : video) (T : Z) :
  1 ≤ T →
  CAP_PROP_FRAME_COUNT v < T →
  ∃ files,
    Main.extract_frames_from_video v T
    = inr (Z.min T (Z.of_nat (length (frames v))), files)
    ∧ files.*2 = take (Z.to_nat T) (frames v).
Proof.
  intros HT HF. unfold Main.extract_frames_from_video, floordiv.
  destruct (Z.eqb_spec T 0) as [?|_]; [lia|].
  assert (Hq : CAP_PROP_FRAME_COUNT v / T ≤ 0).
  { apply Z.lt_succ_r. apply Z.div_lt_upper_bound; lia. }
  replace (Z.max 1 (CAP_PROP_FRAME_COUNT v / T)) with 1 by lia.
  destruct (main_scan_stride_one T (frames v) 0 0 []) as (new & Hscan & Htake); [lia|].
  exists new. rewrite Hscan. cbn [app].
  replace (Z.to_nat (Z.max 1 (T - 0))) with (Z.to_nat T) in Htake by lia.
  split; [|exact Htake].
  do 2 f_equal.
  assert (Hl : length new = length (take (Z.to_nat T) (frames v)))
    by (rewrite <- Htake, length_fmap; reflexivity).
  rewrite Hl, length_take. lia.
Qed.

Lemma main_sampler_short_source_witness :
  ∃ files,
    Main.extract_frames_from_video (Scenario.clip 8 30) 50 = inr (8, files)
    ∧ files.*2 = frames (Scenario.clip 8 30).
Proof.
  destruct (main_sampler_short_source (Scenario.clip 8 30) 50) as (files & H1 & H2);
    [lia | simpl; lia |].
  exists files. split; [exact H1 | exact H2].
Defined.

(** The loop of [main_colmap.py] keeps the frames whose index is a
    multiple of the interval, to the end of the source; [d] is the
    distance from the frame read next to the next multiple. *)
Lemma colmap_scan_collects i :
  1 ≤ i →
  ∀ rest fc sc written d,
    0 ≤ d < i → (fc + d) mod i = 0 →
    ∃ new,
      Colmap.scan i rest fc sc written = (sc + Z.of_nat (length new), written ++ new)
      ∧ Z.of_nat (length new) = (Z.of_nat (length rest) - d + i - 1) / i
      ∧ ∀ k : nat, (k < length new)%nat →
          ∃ f, rest !! Z.to_nat (d + Z.of_nat k * i) = Some f
               ∧ new !! k = Some (frame_name (sc + Z.of_nat k), f).
Proof.
  intros Hi. induction rest as [|fr rest IH]; intros fc sc written d Hd Hmod.
  - exists []. cbn [Colmap.scan length]. rewrite app_nil_r, Z.add_0_r.
    split; [reflexivity|]. split.
    + symmetry. apply Z.div_small. lia.
    + intros k Hk. cbn in Hk. lia.
  - cbn [Colmap.scan].
    destruct (Z.eqb_spec (fc mod i) 0) as [Hz|Hnz].
    + assert (d = 0) as ->.
      { rewrite Z.add_mod in Hmod by lia.
        rewrite Hz, Z.add_0_l, Z.mod_mod in Hmod by lia.
        rewrite Z.mod_small in Hmod by lia. exact Hmod. }
      destruct (IH (fc + 1) (sc + 1) (written ++ [(frame_name sc, fr)]) (i - 1))
        as (new & Hscan & Hlen & Hk).
      * lia.
      * replace (fc + 1 + (i - 1)) with (fc + 0 + 1 * i) by lia.
        rewrite Z_mod_plus_full. exact Hmod.
      * exists ((frame_name sc, fr) :: new).
        unfold frame_name in *. rewrite Hscan, <- app_assoc. cbn [length app].
        split; [f_equal; lia|]. split.
        -- rewrite Nat2Z.inj_succ, Hlen.
           replace (Z.of_nat (S (length rest)) - 0 + i - 1)
             with (Z.of_nat (length rest) - (i - 1) + i - 1 + 1 * i) by lia.
           rewrite Z.div_add by lia. lia.
        -- intros [|k] Hlt.
           ++ exists fr. split; [reflexivity|].
              replace (sc + Z.of_nat 0) with sc by lia. reflexivity.
           ++ cbn [length] in Hlt. destruct (Hk k) as (f & Hf & Hn); [lia|].
              exists f. split.
              ** replace (Z.to_nat (0 + Z.of_nat (S k) * i))
                   with (S (Z.to_nat (i - 1 + Z.of_nat k * i))) by nia.
                 exact Hf.
              ** replace (sc + Z.of_nat (S k)) with (sc + 1 + Z.of_nat k) by lia.
                 exact Hn.
    + assert (d ≠ 0) by (intros ->; rewrite Z.add_0_r in Hmod; contradiction).
      destruct (IH (fc + 1) sc written (d - 1)) as (new & Hscan & Hlen & Hk).
      * lia.
      * replace (fc + 1 + (d - 1)) with (fc + d) by lia. exact Hmod.
      * exists new. split; [exact Hscan|]. split.
        -- rewrite Hlen. cbn [length]. f_equal. lia.
        -- intros k Hlt. destruct (Hk k Hlt) as (f & Hf & Hn).
           exists f. split; [|exact Hn].
           replace (Z.to_nat (d + Z.of_nat k * i))
             with (S (Z.to_nat (d - 1 + Z.of_nat k * i))) by nia.
           exact Hf.
Qed.

(** X3.  The sampler of [main_colmap.py], for a rate [fps] other than
    zero, does not raise and reads the source to its end: with
    [interval = max(1, int(video_fps / fps))] it keeps the frames at the
    indices [0], [interval], [2 * interval], ..., that is
    [ceil(F / interval)] of the [F] frames, and the [k]-th file written
    holds the frame at index [k * interval]. *)
Theorem colmap_sampler_count (v : video) (fps : Z) :
  fps ≠ 0 →
  let interval := Z.max 1 (int_of_float (CAP_PROP_FPS v / inject_Z fps)) in
  let n := (Z.of_nat (length (frames v)) + interval - 1) / interval in
  ∃ files,
    Colmap.extract_frames_from_video v fps = inr (n, files)
    ∧ Z.of_nat (length files) = n
    ∧ ∀ k : nat, (k < length files)%nat →
        ∃ f, frames v !! Z.to_nat (Z.of_nat k * interval) = Some f
             ∧ files !! k = Some (frame_name (Z.of_nat k), f).
Proof.
  intros Hfps interval n.
  unfold Colmap.extract_frames_from_video, truediv.
  destruct (Z.eqb_spec fps 0) as [?|_]; [contradiction|].
  fold interval.
  destruct (colmap_scan_collects interval ltac:(lia) (frames v) 0 0 [] 0)
    as (new & Hscan & Hlen & Hk); [lia | reflexivity |].
  exists new. rewrite Hscan. cbn [app].
  rewrite Z.sub_0_r in Hlen. fold n in Hlen. rewrite Hlen, Z.add_0_l.
  split; [reflexivity|]. split; [reflexivity|].
  intros k Hlt. destruct (Hk k Hlt) as (f & Hf & Hn).
  exists f. rewrite Z.add_0_l in Hf, Hn. auto.
Qed.

Lemma colmap_sampler_count_witness :
  ∃ files,
    Colmap.extract_frames_from_video (Scenario.clip 25 30) 3 = inr (3, files)
    ∧ Z.of_nat (length files) = 3.
Proof.
  destruct (colmap_sampler_count (Scenario.clip 25 30) 3) as (files & H1 & H2 & _);
    [discriminate|].
  exists files. split; [exact H1 | exact H2].
Defined.

(** With an interval other than zero the loop of
    [main_gaussian_splatting.py] does not raise and does what the one of
    [main_colmap.py] does, the file names apart. *)
Lemma gaussian_scan_colmap i :
  i ≠ 0 →
  ∀ rest fc sc written,
    ∃ n files,
      GaussianSplatting.scan i rest fc sc written = inr (n, files)
      ∧ Colmap.scan i rest fc sc (with_frame_prefix <$> written)
        = (n, with_frame_prefix <$> files).
Proof.
  intros Hi. induction rest as [|fr rest IH]; intros fc sc written.
  - exists sc, written. split; reflexivity.
  - cbn [GaussianSplatting.scan Colmap.scan]. unfold pymod.
    destruct (Z.eqb_spec i 0) as [?|_]; [contradiction|].
    destruct (fc mod i =? 0).
    + destruct (IH (fc + 1) (sc + 1) (written ++ [(fmt_04d sc +:+ ".jpg", fr)]))
        as (n & files & HG & HC).
      exists n, files. split; [exact HG|].
      rewrite fmap_app in HC. exact HC.
    + apply IH.
Qed.

(** X4.  When [int(video_fps / fps)] is at least one, the samplers of
    [main_gaussian_splatting.py] and of [main_colmap.py] agree: neither
    raises, they return the same count and keep the same frames, and the
    files differ only by the prefix [frame_] of their names. *)
Theorem gaussian_sampler_agrees_with_colmap (v : video) (fps : Z) :
  fps ≠ 0 →
  1 ≤ int_of_float (CAP_PROP_FPS v / inject_Z fps) →
  ∃ n files,
    GaussianSplatting.extract_frames_from_video v fps = inr (n, files)
    ∧ Colmap.extract_frames_from_video v fps = inr (n, with_frame_prefix <$> files).
Proof.
  intros Hfps Hi.
  unfold GaussianSplatting.extract_frames_from_video,
    Colmap.extract_frames_from_video, truediv.
  destruct (Z.eqb_spec fps 0) as [?|_]; [contradiction|].
  rewrite Z.max_r by exact Hi.
  destruct (gaussian_scan_colmap (int_of_float (CAP_PROP_FPS v / inject_Z fps))
              ltac:(lia) (frames v) 0 0 []) as (n & files & HG & HC).
  change (with_frame_prefix <$> []) with (@nil image_file) in HC.
  exists n, files. rewrite HG, HC. split; reflexivity.
Qed.

Lemma gaussian_sampler_agrees_with_colmap_witness :
  let v := Scenario.clip 30 30 in
  ∃ n files,
    GaussianSplatting.extract_frames_from_video v 3 = inr (n, files)
    ∧ Colmap.extract_frames_from_video v 3 = inr (n, with_frame_prefix <$> files)
    ∧ n = 3.
Proof.
  intros v.
  destruct (gaussian_sampler_agrees_with_colmap v 3) as (n & files & HG & HC).
  - discriminate.
  - vm_compute. discriminate.
  - exists n, files. split; [exact HG|]. split; [exact HC|].
    vm_compute in HG. congruence.
Defined.

(* ===================================================================== *)
(** * The endpoints *)
(* ===================================================================== *)

Lemma run_among_Suspended {A} others w (k : world → res A) :
  run_among others (Suspended w k) = run_among others (k (others w)).
Proof. reflexivity. Qed.

Lemma run_among_Done {A} others w (a : A) : run_among others (Done w a) = (w, inr a).
Proof. reflexivity. Qed.

(** Step over an [await]: the rest of the system runs, then the task. *)
Ltac await_step :=
  unfold await; cbv beta;
  rewrite ?res_bind_Suspended, ?res_catch_Suspended;
  rewrite run_among_Suspended; cbv beta;
  next_step.

(** X5.  An upload to [main.py] whose content type starts with [video/]
    and whose file can be opened is accepted whatever the state of the
    server and whatever runs while its content is read: the answer
    carries the job identifier drawn, the upload is stored under
    [<job_id>.mp4], the pipeline is the last background task added, and
    the record is the fresh one, queued with progress 0 and neither
    locator nor error, which [GET /job-status] returns as it is. *)
Theorem upload_creates_queued_job E others file d w ct :
  content_type file = Some ct →
  startswith ct "video/" = true →
  fault E (Open_wb ("uploads/" +:+ uuid4 d +:+ ".mp4")) = None →
  let id := uuid4 d in
  let j := new_job id "En attente de traitement..." (now d) in
  let r := run_among others (Main.generate_3d E file d w) in
  r.2 = inr (Started id)
  ∧ jobs_status r.1 !! id = Some j
  ∧ UPLOAD_DIR r.1 !! (id +:+ ".mp4") = Some (content file)
  ∧ last (background_tasks r.1) = Some (id, id +:+ ".mp4")
  ∧ Main.get_job_status id r.1 = Done r.1 (Job_json j).
Proof.
  intros Hct Hv Hf id j r.
  eassert (Hrun : r = (_, inr (Started id))).
  { subst r. unfold Main.generate_3d. eval_task. rewrite Hct. eval_task.
    rewrite Hv. cbn [negb when]. eval_task.
    unfold oscheck. rewrite Hf. eval_task.
    await_step. eval_task.
    unfold create_job, add_task. eval_task. apply run_among_Done. }
  rewrite Hrun. cbn [fst snd].
  unfold Main.get_job_status. eval_task. autorewrite with world.
  subst id. rewrite !lookup_insert_eq, last_snoc.
  repeat split.
Qed.

Lemma upload_creates_queued_job_witness :
  let E := Scenario.all_well in
  let r := run_among (fun w => w)
             (Main.generate_3d E (Scenario.mp4 300) (Draw "j1" "2025-01-01T00:00:00")
                empty_world) in
  r.2 = inr (Started "j1")
  ∧ Main.get_job_status "j1" r.1
    = Done r.1 (Job_json (new_job "j1" "En attente de traitement..."
                            "2025-01-01T00:00:00")).
Proof.
  intros E r.
  destruct (upload_creates_queued_job E (fun w => w) (Scenario.mp4 300)
              (Draw "j1" "2025-01-01T00:00:00") empty_world "video/mp4")
    as (H1 & _ & _ & _ & H5); [reflexivity | reflexivity | reflexivity |].
  split; [exact H1 | exact H5].
Defined.

(** X6.  When the upload cannot be opened for writing, the three
    handlers of [POST /generate-3d] raise before anything is created:
    the state is as it was, with no record, no stored file and no
    background task.  [main.py] and [main_gaussian_splatting.py] answer
    500 with the message of the error; [main_colmap.py], which has no
    [try], lets the error itself escape. *)
Theorem upload_that_cannot_be_stored E file d w ct e :
  content_type file = Some ct →
  startswith ct "video/" = true →
  fault E (Open_wb ("uploads/" +:+ uuid4 d +:+ ".mp4")) = Some e →
  Main.generate_3d E file d w
  = Raised w (HTTPException 500 ("Erreur lors de l'upload: " +:+ str e))
  ∧ GaussianSplatting.generate_3d E file d w
    = Raised w (HTTPException 500 ("Erreur: " +:+ str e))
  ∧ Colmap.generate_3d E file d w = Raised w e.
Proof.
  intros Hct Hv Hf.
  unfold Main.generate_3d, GaussianSplatting.generate_3d, Colmap.generate_3d.
  eval_task. rewrite Hct. eval_task. rewrite Hv. cbn [negb when]. eval_task.
  unfold oscheck. rewrite Hf. eval_task. repeat split.
Qed.

Lemma upload_that_cannot_be_stored_witness :
  Main.generate_3d Fault.disk_full (Scenario.mp4 300)
    (Draw "j1" "2025-01-01T00:00:00") empty_world
  = Raised empty_world
      (HTTPException 500
         "Erreur lors de l'upload: [Errno 28] No space left on device").
Proof.
  destruct (upload_that_cannot_be_stored Fault.disk_full (Scenario.mp4 300)
              (Draw "j1" "2025-01-01T00:00:00") empty_world "video/mp4"
              (OSError "[Errno 28] No space left on device"))
    as [H _]; [reflexivity | reflexivity | reflexivity |].
  exact H.
Defined.

(** X7.  [main.py] and [main_gaussian_splatting.py] reject an upload
    whose content type does not start with [video/], or is missing, and
    leave the state as it was.  The [HTTPException(400)] of the test (an
    [AttributeError] when there is no content type) is caught by the
    handler's own [except Exception]: the client gets a 500 whose detail
    quotes it. *)
Theorem non_video_upload_is_rejected E file d w :
  match content_type file with
  | Some ct => startswith ct "video/" = false
  | None => True
  end →
  let cause :=
    match content_type file with
    | Some _ => HTTPException 400 "Le fichier doit être une vidéo"
    | None => AttributeError "'NoneType' object has no attribute 'startswith'"
    end in
  Main.generate_3d E file d w
  = Raised w (HTTPException 500 ("Erreur lors de l'upload: " +:+ str cause))
  ∧ GaussianSplatting.generate_3d E file d w
    = Raised w (HTTPException 500 ("Erreur: " +:+ str cause)).
Proof.
  intros Hct cause. subst cause.
  unfold Main.generate_3d, GaussianSplatting.generate_3d. eval_task.
  destruct (content_type file) as [ct|]; eval_task.
  - rewrite Hct. eval_task. split; reflexivity.
  - split; reflexivity.
Qed.

Lemma non_video_upload_is_rejected_witness :
  GaussianSplatting.generate_3d Scenario.all_well Scenario.text_file
    (Draw "j1" "2025-01-01T00:00:00") empty_world
  = Raised empty_world
      (HTTPException 500 "Erreur: 400: Le fichier doit être une vidéo").
Proof.
  destruct (non_video_upload_is_rejected Scenario.all_well Scenario.text_file
              (Draw "j1" "2025-01-01T00:00:00") empty_world) as [_ H];
    [reflexivity|].
  exact H.
Defined.

(** X8.  [GET /jobs] of [main.py] and of [main_colmap.py] changes
    nothing and lists the records of the job table, one entry per job:
    a record is in the list exactly when [GET /job-status] returns it
    for some identifier. *)
Theorem list_jobs_agrees_with_job_status w :
  ∃ js,
    Main.list_jobs w = Done w (Jobs_json js)
    ∧ Colmap.list_jobs w = Done w (Jobs_json js)
    ∧ length js = size (jobs_status w)
    ∧ ∀ j, j ∈ js ↔ ∃ id, Main.get_job_status id w = Done w (Job_json j).
Proof.
  eexists. split; [reflexivity|]. split; [reflexivity|]. split.
  - rewrite length_fmap. apply length_map_to_list.
  - intros j. rewrite list_elem_of_fmap. split.
    + intros ([id j'] & -> & Hin). apply elem_of_map_to_list in Hin.
      exists id. unfold Main.get_job_status. eval_task. rewrite Hin. reflexivity.
    + intros (id & Hget). unfold Main.get_job_status in Hget. revert Hget. eval_task.
      destruct (jobs_status w !! id) as [j'|] eqn:Hj; [|discriminate].
      intros [= ->]. exists (id, j). split; [reflexivity|].
      apply elem_of_map_to_list, Hj.
Qed.

(* ===================================================================== *)
(** * Deleting a job, and the pipeline of a deleted job *)
(* ===================================================================== *)

(** X9.  [DELETE /job] of [main.py] on a job that has a record, when the
    artifact can be removed: the request succeeds, and in the state it
    leaves, before anything else has run, the status query, the
    download of [<job_id>.ply] and a second [DELETE] answer 404; the
    records of the other jobs, the uploads and the background tasks not
    yet started are as they were.  This is the state right after the
    request and no later one: a pipeline of the job that is still
    running is not stopped and can write the artifact again. *)
Theorem delete_job_then_not_found E id w j :
  jobs_status w !! id = Some j →
  fault E (Unlink ("outputs/" +:+ id +:+ ".ply")) = None →
  ∃ w',
    Main.delete_job E id w = Done w' Success
    ∧ Main.get_job_status id w' = Raised w' (HTTPException 404 "Job non trouvé")
    ∧ Main.download_model (id +:+ ".ply") w'
      = Raised w' (HTTPException 404 "Fichier non trouvé")
    ∧ Main.delete_job E id w' = Raised w' (HTTPException 404 "Job non trouvé")
    ∧ (∀ id', id' ≠ id → jobs_status w' !! id' = jobs_status w !! id')
    ∧ UPLOAD_DIR w' = UPLOAD_DIR w
    ∧ background_tasks w' = background_tasks w.
Proof.
  intros Hj Hf.
  assert (Hafter : ∀ w', jobs_status w' !! id = None → (id +:+ ".ply") ∉ OUTPUT_DIR w' →
    Main.get_job_status id w' = Raised w' (HTTPException 404 "Job non trouvé")
    ∧ Main.download_model (id +:+ ".ply") w'
      = Raised w' (HTTPException 404 "Fichier non trouvé")
    ∧ Main.delete_job E id w' = Raised w' (HTTPException 404 "Job non trouvé")).
  { intros w' Hn Hout.
    unfold Main.get_job_status, Main.download_model, Main.delete_job. eval_task.
    rewrite Hn. rewrite (bool_decide_eq_false_2 _ Hout).
    rewrite bool_decide_eq_false_2 by (intros [? ?]; discriminate).
    repeat split. }
  unfold Main.delete_job at 1. eval_task.
  rewrite Hj. rewrite bool_decide_eq_true_2 by (eexists; reflexivity).
  eval_task. case_bool_decide as Hin; eval_task.
  - unfold oscheck. rewrite Hf. eval_task.
    eexists. split; [reflexivity|].
    match goal with
    | |- Main.get_job_status id ?w' = _ ∧ _ =>
        destruct (Hafter w') as (H1 & H2 & H3);
          [autorewrite with world; apply lookup_delete_eq
          |autorewrite with world; apply not_elem_of_remove|]
    end.
    split; [exact H1|]. split; [exact H2|]. split; [exact H3|].
    split; [|split; reflexivity].
    intros id' Hne. autorewrite with world. apply lookup_delete_ne. congruence.
  - eexists. split; [reflexivity|].
    match goal with
    | |- Main.get_job_status id ?w' = _ ∧ _ =>
        destruct (Hafter w') as (H1 & H2 & H3);
          [autorewrite with world; apply lookup_delete_eq
          |autorewrite with world; exact Hin|]
    end.
    split; [exact H1|]. split; [exact H2|]. split; [exact H3|].
    split; [|split; reflexivity].
    intros id' Hne. autorewrite with world. apply lookup_delete_ne. congruence.
Qed.

Lemma delete_job_then_not_found_witness :
  let E := Scenario.all_well in
  let w := state (Scenario.run_one E) in
  ("j1" +:+ ".ply") ∈ OUTPUT_DIR w
  ∧ ∃ w',
      Main.delete_job E "j1" w = Done w' Success
      ∧ Main.download_model ("j1" +:+ ".ply") w'
        = Raised w' (HTTPException 404 "Fichier non trouvé")
      ∧ Main.delete_job E "j1" w' = Raised w' (HTTPException 404 "Job non trouvé").
Proof.
  intros E w. split; [vm_compute; apply list_elem_of_here|].
  edestruct (delete_job_then_not_found E "j1" w) as (w' & H1 & _ & H3 & H4 & _).
  - vm_compute. reflexivity.
  - reflexivity.
  - exists w'. split; [exact H1|]. split; [exact H3 | exact H4].
Defined.

(** X10.  When removing the artifact raises, [DELETE /job] raises the
    same error and nothing has changed: the files are removed before the
    record is, so the record is still there, and in [main_colmap.py] so
    is the working directory.  [main.py] only tries to remove an
    artifact that exists. *)
Theorem delete_job_keeps_record_when_unlink_raises E id w j e :
  jobs_status w !! id = Some j →
  fault E (Unlink ("outputs/" +:+ id +:+ ".ply")) = Some e →
  ((id +:+ ".ply") ∈ OUTPUT_DIR w → Main.delete_job E id w = Raised w e)
  ∧ Colmap.delete_job E id w = Raised w e.
Proof.
  intros Hj Hf. unfold Main.delete_job, Colmap.delete_job. eval_task.
  rewrite Hj. rewrite bool_decide_eq_true_2 by (eexists; reflexivity).
  eval_task. unfold oscheck. rewrite Hf. eval_task. split; [|reflexivity].
  intros Hin. rewrite (bool_decide_eq_true_2 _ Hin). reflexivity.
Qed.

Lemma delete_job_keeps_record_when_unlink_raises_witness :
  let w := state (Scenario.run_one Scenario.all_well) in
  Main.delete_job Fault.artifact_locked "j1" w
  = Raised w (OSError "[Errno 13] Permission denied: 'outputs/j1.ply'")
  ∧ is_Some (jobs_status w !! "j1").
Proof.
  intros w.
  edestruct (delete_job_keeps_record_when_unlink_raises Fault.artifact_locked "j1" w)
    as [H _].
  - vm_compute. reflexivity.
  - reflexivity.
  - split; [apply H; vm_compute; apply list_elem_of_here|].
    vm_compute. eexists. reflexivity.
Defined.

(** The pipelines on a state without the record of their job. *)
Lemma main_pipeline_gone E id vp w :
  jobs_status w !! id = None →
  Main.process_3d_generation E id vp w = Raised w (KeyError id).
Proof.
  intros Hn. unfold Main.process_3d_generation, Main.run_stages, Main.on_exception.
  eval_task. rewrite !(setitem_job_None _ _ _ Hn). next_step.
  rewrite !(setitem_job_None _ _ _ Hn). next_step. reflexivity.
Qed.

Lemma colmap_pipeline_gone E id vp w :
  jobs_status w !! id = None →
  Colmap.process_colmap E id vp w = Raised w (KeyError id).
Proof.
  intros Hn. unfold Colmap.process_colmap.
  eval_task. rewrite !(setitem_job_None _ _ _ Hn). next_step.
  rewrite !(setitem_job_None _ _ _ Hn). next_step. reflexivity.
Qed.

Lemma gaussian_pipeline_gone E id vp w :
  jobs_status w !! id = None →
  GaussianSplatting.process_gaussian_splatting E id vp w = Raised w (KeyError id).
Proof.
  intros Hn. unfold GaussianSplatting.process_gaussian_splatting.
  eval_task. rewrite !(setitem_job_None _ _ _ Hn). next_step.
  rewrite !(setitem_job_None _ _ _ Hn). next_step. reflexivity.
Qed.

(** X11.  A pipeline that starts when the record of its job is not in
    the job table (it was deleted while queued) does nothing: the first
    write raises [KeyError], the [except] clause raises it again at its
    own first write, and the exception leaves the task with the state
    unchanged.  No backend creates the record again. *)
Theorem pipeline_of_deleted_job_raises_key_error E id vp w :
  jobs_status w !! id = None →
  Main.process_3d_generation E id vp w = Raised w (KeyError id)
  ∧ Colmap.process_colmap E id vp w = Raised w (KeyError id)
  ∧ GaussianSplatting.process_gaussian_splatting E id vp w = Raised w (KeyError id).
Proof.
  intros Hn. split; [|split].
  - apply main_pipeline_gone, Hn.
  - apply colmap_pipeline_gone, Hn.
  - apply gaussian_pipeline_gone, Hn.
Qed.

Lemma pipeline_of_deleted_job_raises_key_error_witness :
  Main.process_3d_generation Scenario.all_well "j1" "j1.mp4" empty_world
  = Raised empty_world (KeyError "j1").
Proof.
  destruct (pipeline_of_deleted_job_raises_key_error Scenario.all_well "j1" "j1.mp4"
              empty_world) as [H _]; [reflexivity|].
  exact H.
Defined.

(** X12.  Deleting a job of [main.py] that is still queued does not
    cancel its background task: the request succeeds and the task stays
    in the queue.  When the task starts it finds no record, raises
    [KeyError] and ends at once: the record is not created again, no
    worker is left suspended, no command is started, and the upload and
    the working directories stay as they were. *)
Theorem deleted_queued_job_still_starts E s i id vp j :
  background_tasks (state s) !! i = Some (id, vp) →
  jobs_status (state s) !! id = Some j →
  fault E (Unlink ("outputs/" +:+ id +:+ ".ply")) = None →
  let s1 := step (Main.process_3d_generation E) s (Request (Main.delete_job E id)) in
  let s2 := step (Main.process_3d_generation E) s1 (Start_background i) in
  responses s1 = responses s ++ [inr Success]
  ∧ background_tasks (state s1) = background_tasks (state s)
  ∧ jobs_status (state s2) = delete id (jobs_status (state s))
  ∧ workers s2 = workers s
  ∧ commands (log (state s2)) = commands (log (state s))
  ∧ JOBS_DIR (state s2) = JOBS_DIR (state s)
  ∧ UPLOAD_DIR (state s2) = UPLOAD_DIR (state s).
Proof.
  intros Hbg Hj Hf s1 s2.
  assert (Hs1 : ∃ w1, s1 = System w1 (handlers s) (workers s) (responses s ++ [inr Success])
            ∧ jobs_status w1 = delete id (jobs_status (state s))
            ∧ background_tasks w1 = background_tasks (state s)
            ∧ commands (log w1) = commands (log (state s))
            ∧ JOBS_DIR w1 = JOBS_DIR (state s)
            ∧ UPLOAD_DIR w1 = UPLOAD_DIR (state s)).
  { subst s1. cbn [step]. unfold Main.delete_job. eval_task.
    rewrite Hj. rewrite bool_decide_eq_true_2 by (eexists; reflexivity).
    eval_task. case_bool_decide as Hin; eval_task.
    - unfold oscheck. rewrite Hf. eval_task. cbn [settle_handler].
      eexists. split; [reflexivity|]. autorewrite with world.
      rewrite commands_app. cbn. rewrite app_nil_r. repeat split.
    - cbn [settle_handler].
      eexists. split; [reflexivity|]. autorewrite with world.
      rewrite commands_app. cbn. rewrite app_nil_r. repeat split. }
  destruct Hs1 as (w1 & Hs1 & Hjs & Hq & Hc & Hjd & Hup).
  subst s2. rewrite Hs1. cbn [responses state step]. rewrite Hq, Hbg.
  rewrite (main_pipeline_gone E id vp (set_background_tasks (delete i) w1))
    by (autorewrite with world; rewrite Hjs; apply lookup_delete_eq).
  cbn [settle_worker state workers]. autorewrite with world.
  repeat split; assumption.
Qed.

Lemma deleted_queued_job_still_starts_witness :
  let E := Scenario.all_well in
  let s := steps (Main.process_3d_generation E) boot (Scenario.submit E "j1") in
  let s1 := step (Main.process_3d_generation E) s (Request (Main.delete_job E "j1")) in
  let s2 := step (Main.process_3d_generation E) s1 (Start_background 0) in
  background_tasks (state s) = [("j1", "j1.mp4")]
  ∧ jobs_status (state s2) = delete "j1" (jobs_status (state s))
  ∧ workers s2 = workers s
  ∧ commands (log (state s2)) = commands (log (state s)).
Proof.
  intros E s s1 s2. split; [vm_compute; reflexivity|].
  edestruct (deleted_queued_job_still_starts E s 0 "j1" "j1.mp4")
    as (_ & _ & H3 & H4 & H5 & _).
  - vm_compute. reflexivity.
  - vm_compute. reflexivity.
  - reflexivity.
  - split; [exact H3|]. split; [exact H4 | exact H5].
Defined.

(* ===================================================================== *)
(** * What a pipeline leaves alone *)
(* ===================================================================== *)

Section Frame.

Variable others : world → world.
Variable I : world → Prop.
Hypothesis I_others : ∀ w, I w → I (others w).

Lemma preserves_ret {A} (a : A) : preserves others I (mret a).
Proof. intros w HI. exact HI. Qed.

Lemma preserves_raise {A} (e : exn) : preserves others I (@raise A e).
Proof. intros w HI. exact HI. Qed.

Lemma preserves_bind {A B} (c : task A) (f : A → task B) :
  preserves others I c → (∀ a, preserves others I (f a)) →
  preserves others I (c ≫= f).
Proof. intros Hc Hf. eapply hoare_bind; [exact Hc | exact Hf]. Qed.

Lemma preserves_try {A} (c : task A) (h : exn → task A) :
  preserves others I c → (∀ e, preserves others I (h e)) →
  preserves others I (try_except c h).
Proof. intros Hc Hh. eapply hoare_try; [exact Hc | exact Hh]. Qed.

Lemma preserves_await : preserves others I await.
Proof. intros w HI. simpl. apply I_others, HI. Qed.

Lemma preserves_modify (f : world → world) :
  (∀ w, I w → I (f w)) → preserves others I (modify f).
Proof. intros Hf w HI. simpl. apply Hf, HI. Qed.

Lemma preserves_gets {A} (f : world → A) : preserves others I (gets f).
Proof. intros w HI. exact HI. Qed.

Lemma preserves_lift {A} (x : exn + A) : preserves others I (lift x).
Proof. destruct x; intros w HI; exact HI. Qed.

Lemma preserves_when (b : bool) (c : task unit) :
  preserves others I c → preserves others I (when b c).
Proof. intros Hc. destruct b; [exact Hc | apply preserves_ret]. Qed.

Lemma preserves_oscheck E c : preserves others I (oscheck E c).
Proof.
  unfold oscheck. destruct (fault E c); [apply preserves_raise | apply preserves_ret].
Qed.

Variable id : string.
Variable vp : string.

(** What the pipeline of job [id] on the upload [vp] may touch: the log,
    the record and the working directory of [id], the output directory
    and the upload [vp]. *)
Hypothesis I_wrote : ∀ it w, I w → I (emit (Wrote id it) w).
Hypothesis I_ran : ∀ cmd w, I w → I (emit (Ran cmd) w).
Hypothesis I_record : ∀ f w, only_at id f → I w → I (set_jobs_status f w).
Hypothesis I_jobs_dir : ∀ f w, only_at id f → I w → I (set_JOBS_DIR f w).
Hypothesis I_output : ∀ f w, I w → I (set_OUTPUT_DIR f w).

Lemma only_at_insert `{Countable K} {V} (k : K) (v : gmap K V → V) :
  only_at k (fun m => <[k := v m]> m).
Proof. intros m k' Hne. apply lookup_insert_ne. congruence. Qed.

Lemma only_at_delete `{Countable K} {V} (k : K) : only_at (V := V) k (delete k).
Proof. intros m k' Hne. apply lookup_delete_ne. congruence. Qed.

Lemma preserves_setitem it : preserves others I (setitem_job id it).
Proof.
  intros w HI. unfold setitem_job.
  destruct (jobs_status w !! id) as [j|]; simpl; [|exact HI].
  apply I_wrote, I_record; [|exact HI].
  apply (only_at_insert id (fun _ => setitem it j)).
Qed.

Lemma preserves_makedirs E sub : preserves others I (makedirs E id sub).
Proof.
  unfold makedirs. apply preserves_bind; [apply preserves_oscheck|intros ?].
  apply preserves_modify. intros w. apply I_jobs_dir.
  apply (only_at_insert id (fun d => default [] (d !! id))).
Qed.

Lemma preserves_add_job_files names : preserves others I (add_job_files id names).
Proof.
  unfold add_job_files. apply preserves_modify. intros w. apply I_jobs_dir.
  apply (only_at_insert id (fun d => default [] (d !! id) ++ names)).
Qed.

Lemma preserves_rmtree : preserves others I (rmtree id).
Proof.
  unfold rmtree. apply preserves_modify. intros w. apply I_jobs_dir, only_at_delete.
Qed.

Lemma preserves_create_subprocess_exec E cmd :
  preserves others I (create_subprocess_exec E cmd).
Proof.
  unfold create_subprocess_exec.
  apply preserves_bind; [apply preserves_lift|intros ?].
  apply preserves_bind; [apply preserves_modify, I_ran|intros ?].
  apply preserves_bind; [apply preserves_await|intros ?].
  apply preserves_ret.
Qed.

Lemma preserves_communicate p : preserves others I (communicate id p).
Proof.
  unfold communicate.
  apply preserves_bind; [apply preserves_await|intros ?].
  apply preserves_bind; [apply preserves_add_job_files|intros ?].
  apply preserves_modify, I_output.
Qed.

Lemma preserves_subprocess_run E cmd : preserves others I (subprocess_run E id cmd).
Proof.
  unfold subprocess_run.
  apply preserves_bind; [apply preserves_lift|intros ?].
  apply preserves_bind; [apply preserves_modify, I_ran|intros ?].
  apply preserves_bind; [apply preserves_add_job_files|intros ?].
  apply preserves_bind; [apply preserves_modify, I_output|intros ?].
  apply preserves_ret.
Qed.

Ltac frame_step :=
  first [ apply preserves_setitem | apply preserves_makedirs
        | apply preserves_add_job_files | apply preserves_rmtree
        | apply preserves_create_subprocess_exec | apply preserves_communicate
        | apply preserves_subprocess_run
        | apply preserves_await | apply preserves_oscheck
        | apply preserves_gets | apply preserves_lift | apply preserves_raise
        | apply preserves_ret
        | apply preserves_when
        | apply preserves_modify; apply I_output
        | apply preserves_bind; [|intros ?] ].

Lemma preserves_main_extract_frames E T :
  preserves others I (Main.extract_frames E id vp T).
Proof. unfold Main.extract_frames. repeat frame_step. Qed.

Lemma preserves_colmap_extract_frames E fps :
  preserves others I (Colmap.extract_frames E id vp fps).
Proof. unfold Colmap.extract_frames. repeat frame_step. Qed.

Lemma preserves_gaussian_extract_frames E fps :
  preserves others I (GaussianSplatting.extract_frames E id vp fps).
Proof. unfold GaussianSplatting.extract_frames. repeat frame_step. Qed.

Lemma preserves_main_poll_training n : ∀ p,
  preserves others I (Main.poll_training id n p).
Proof.
  induction n as [|n IH]; intros p; cbn [Main.poll_training];
    [apply preserves_ret|].
  do 3 (apply preserves_bind; [frame_step|intros ?]). apply IH.
Qed.

Lemma preserves_gaussian_poll_training n : ∀ p,
  preserves others I (GaussianSplatting.poll_training id n p).
Proof.
  induction n as [|n IH]; intros p; cbn [GaussianSplatting.poll_training];
    [apply preserves_ret|].
  do 3 (apply preserves_bind; [frame_step|intros ?]). apply IH.
Qed.

Ltac frame_op :=
  first [ apply preserves_main_extract_frames | apply preserves_colmap_extract_frames
        | apply preserves_gaussian_extract_frames
        | apply preserves_main_poll_training | apply preserves_gaussian_poll_training
        | frame_step ].

Lemma preserves_run_stages E : preserves others I (Main.run_stages E id vp).
Proof. unfold Main.run_stages. repeat frame_op. Qed.

Lemma preserves_resolve_artifact E : preserves others I (Main.resolve_artifact E id).
Proof.
  unfold Main.resolve_artifact. apply preserves_bind; [apply preserves_gets|].
  intros [|ply_file ?]; repeat frame_op.
Qed.

Lemma preserves_on_exception e : preserves others I (Main.on_exception id e).
Proof. unfold Main.on_exception. repeat frame_op. Qed.

(** The pipelines of [main.py] and [main_gaussian_splatting.py] end
    with the same success block; up to it they keep [I], and so does the
    [except] clause. *)
Lemma main_pipeline_rule E (Q : world → Prop) :
  hoare others I (Main.complete E id vp) (fun _ => Q) (fun _ => I) →
  hoare others I (Main.process_3d_generation E id vp)
        (fun _ w => Q w ∨ I w) (fun _ w => Q w ∨ I w).
Proof.
  intros Hc. unfold Main.process_3d_generation.
  eapply hoare_try with (X' := fun _ => I).
  - eapply hoare_bind; [apply preserves_run_stages|intros ?].
    eapply hoare_bind; [apply preserves_resolve_artifact|intros ?].
    eapply hoare_conseq; [| | |exact Hc]; cbv beta; auto.
  - intros e. eapply hoare_conseq; [| | |apply preserves_on_exception]; cbv beta; auto.
Qed.

Lemma gaussian_pipeline_rule E (Q : world → Prop) :
  hoare others I (Main.complete E id vp) (fun _ => Q) (fun _ => I) →
  hoare others I (GaussianSplatting.process_gaussian_splatting E id vp)
        (fun _ w => Q w ∨ I w) (fun _ w => Q w ∨ I w).
Proof.
  intros Hc. unfold GaussianSplatting.process_gaussian_splatting.
  eapply hoare_try with (X' := fun _ => I).
  - match goal with
    | |- context [mbind ?f (setitem_job id (Status completed))] =>
        change (mbind f (setitem_job id (Status completed)))
          with (Main.complete E id vp)
    end.
    revert Hc. generalize (Main.complete E id vp). intros tail Hc.
    repeat (eapply hoare_bind; [solve [repeat frame_op]|intros ?]).
    eapply hoare_conseq; [| | |exact Hc]; cbv beta; auto.
  - intros e. eapply hoare_conseq with (Q := fun _ => I) (X := fun _ => I);
      [| | |repeat frame_op]; cbv beta; auto.
Qed.

Hypothesis I_upload : ∀ f w, only_at vp f → I w → I (set_UPLOAD_DIR f w).

Lemma preserves_complete E : preserves others I (Main.complete E id vp).
Proof.
  unfold Main.complete. repeat frame_op.
  apply preserves_modify. intros w. apply I_upload, only_at_delete.
Qed.

Lemma preserves_process_3d_generation E :
  preserves others I (Main.process_3d_generation E id vp).
Proof.
  eapply hoare_conseq; [| | |apply main_pipeline_rule, preserves_complete];
    cbv beta; tauto.
Qed.

Lemma preserves_process_colmap E :
  preserves others I (Colmap.process_colmap E id vp).
Proof.
  unfold Colmap.process_colmap.
  apply preserves_try; [|intros e; repeat frame_op].
  repeat frame_op.
  apply preserves_modify. intros w. apply I_upload, only_at_delete.
Qed.

Lemma preserves_process_gaussian_splatting E :
  preserves others I (GaussianSplatting.process_gaussian_splatting E id vp).
Proof.
  eapply hoare_conseq; [| | |apply gaussian_pipeline_rule, preserves_complete];
    cbv beta; tauto.
Qed.

End Frame.

Section Isolation.

Variable others : world → world.
Variables id vp id' vp' : string.
Hypothesis other_job : id' ≠ id.
Hypothesis other_upload : vp' ≠ vp.
Hypothesis others_untouched : ∀ w, untouched id' vp' w (others w).
Variable w : world.

Lemma untouched_others w0 : untouched id' vp' w w0 → untouched id' vp' w (others w0).
Proof.
  intros (H1 & H2 & H3 & H4). destruct (others_untouched w0) as (G1 & G2 & G3 & G4).
  repeat split; congruence.
Qed.

Lemma untouched_emit e w0 : untouched id' vp' w w0 → untouched id' vp' w (emit e w0).
Proof. intros H. exact H. Qed.

Lemma untouched_record f w0 :
  only_at id f → untouched id' vp' w w0 → untouched id' vp' w (set_jobs_status f w0).
Proof.
  intros Hf (H1 & H2 & H3 & H4). repeat split; try assumption.
  autorewrite with world. rewrite Hf by exact other_job. exact H1.
Qed.

Lemma untouched_jobs_dir f w0 :
  only_at id f → untouched id' vp' w w0 → untouched id' vp' w (set_JOBS_DIR f w0).
Proof.
  intros Hf (H1 & H2 & H3 & H4). repeat split; try assumption.
  autorewrite with world. rewrite Hf by exact other_job. exact H2.
Qed.

Lemma untouched_output f w0 :
  untouched id' vp' w w0 → untouched id' vp' w (set_OUTPUT_DIR f w0).
Proof. intros H. exact H. Qed.

Lemma untouched_upload f w0 :
  only_at vp f → untouched id' vp' w w0 → untouched id' vp' w (set_UPLOAD_DIR f w0).
Proof.
  intros Hf (H1 & H2 & H3 & H4). repeat split; try assumption.
  autorewrite with world. rewrite Hf by exact other_upload. exact H3.
Qed.

Lemma untouched_by_pipeline (c : task unit) :
  preserves others (untouched id' vp' w) c →
  untouched id' vp' w (run_among others (c w)).1.
Proof.
  intros Hc.
  assert (H0 : untouched id' vp' w w) by (repeat split).
  specialize (Hc w H0). apply wp_run in Hc.
  destruct (run_among others (c w)) as [w' [e|[]]]; exact Hc.
Qed.

End Isolation.

(** X13.  The pipeline of one job leaves the other jobs alone.  For a
    job [id'] other than the one processed and an upload [vp'] other
    than its own, when the rest of the system does not touch them
    either: in all three backends, at the end of the run the record of
    [id'], its working directory, the upload [vp'] and the queue of
    background tasks are what they were at its start, whatever the tools
    and the operating system did. *)
Theorem pipelines_leave_other_jobs_alone E others id vp id' vp' w :
  id' ≠ id → vp' ≠ vp →
  (∀ w0, untouched id' vp' w0 (others w0)) →
  untouched id' vp' w (run_among others (Main.process_3d_generation E id vp w)).1
  ∧ untouched id' vp' w (run_among others (Colmap.process_colmap E id vp w)).1
  ∧ untouched id' vp' w
      (run_among others (GaussianSplatting.process_gaussian_splatting E id vp w)).1.
Proof.
  intros Hid Hvp Ho.
  pose proof (untouched_others others id' vp' Ho w) as H1.
  pose proof (fun it => untouched_emit id' vp' w (Wrote id it)) as H2.
  pose proof (fun cmd => untouched_emit id' vp' w (Ran cmd)) as H2'.
  pose proof (untouched_record id id' vp' Hid w) as H3.
  pose proof (untouched_jobs_dir id id' vp' Hid w) as H4.
  pose proof (untouched_output id' vp' w) as H5.
  pose proof (untouched_upload vp id' vp' Hvp w) as H6.
  split; [|split]; apply untouched_by_pipeline.
  - apply preserves_process_3d_generation; auto.
  - apply preserves_process_colmap; auto.
  - apply preserves_process_gaussian_splatting; auto.
Qed.

Lemma pipelines_leave_other_jobs_alone_witness :
  let E := Scenario.all_well in
  let w := Scenario.submitted E 300 in
  untouched "j2" "j2.mp4" w
    (run_among (fun w => w) (Main.process_3d_generation E "j1" "j1.mp4" w)).1.
Proof.
  intros E w.
  destruct (pipelines_leave_other_jobs_alone E (fun w => w) "j1" "j1.mp4" "j2" "j2.mp4" w)
    as [H _].
  - discriminate.
  - discriminate.
  - intros w0. split; [reflexivity|]. split; [reflexivity|]. split; reflexivity.
  - exact H.
Defined.

(** The success block either ends with the record completed, or raises
    before it has removed the upload. *)
Lemma complete_cases E id vp w :
  match Main.complete E id vp w with
  | Done w' _ => record id (fun j => status j = completed) w'
  | Raised w' _ => UPLOAD_DIR w' = UPLOAD_DIR w
  | Suspended _ _ => False
  end.
Proof.
  destruct (jobs_status w !! id) as [j|] eqn:Hj.
  - unfold Main.complete. eval_task.
    rewrite (setitem_job_Some _ _ _ _ Hj). next_step.
    do 3 write_step.
    destruct (bool_decide (is_Some _)); cbn [when].
    + unfold oscheck. destruct (fault E (Unlink _)) as [e|]; eval_task.
      * reflexivity.
      * eexists. autorewrite with world. split; [apply lookup_insert_eq|reflexivity].
    + eexists. autorewrite with world. split; [apply lookup_insert_eq|reflexivity].
  - rewrite (complete_gone E id vp w Hj). reflexivity.
Qed.

Section Upload.

Variable others : world → world.
Variable vp : string.
Variable x : option video.

Lemma complete_keeps_upload E id :
  hoare others (fun w => UPLOAD_DIR w !! vp = x) (Main.complete E id vp)
        (fun _ => record id (fun j => status j = completed))
        (fun _ w => UPLOAD_DIR w !! vp = x).
Proof.
  intros w Hw. pose proof (complete_cases E id vp w) as H.
  destruct (Main.complete E id vp w) as [w' []|w' e|]; simpl;
    [exact H | rewrite H; exact Hw | contradiction].
Qed.

End Upload.

(** X14.  In [main.py] and [main_gaussian_splatting.py] the uploaded
    video is removed only by the cleanup that follows the write of
    ["completed"]: when the rest of the system leaves the upload alone,
    at the end of a run either the record of the job is there with
    status ["completed"], or the upload is still what it was.  A job
    that fails, or whose record was deleted, keeps its upload on disk. *)
Theorem upload_is_kept_unless_completed E others id vp w :
  (∀ w0, UPLOAD_DIR (others w0) !! vp = UPLOAD_DIR w0 !! vp) →
  (let w' := (run_among others (Main.process_3d_generation E id vp w)).1 in
   record id (fun j => status j = completed) w'
   ∨ UPLOAD_DIR w' !! vp = UPLOAD_DIR w !! vp)
  ∧ (let w' := (run_among others
                  (GaussianSplatting.process_gaussian_splatting E id vp w)).1 in
     record id (fun j => status j = completed) w'
     ∨ UPLOAD_DIR w' !! vp = UPLOAD_DIR w !! vp).
Proof.
  intros Ho. set (I := fun w0 : world => UPLOAD_DIR w0 !! vp = UPLOAD_DIR w !! vp).
  assert (H1 : ∀ w0, I w0 → I (others w0)) by (intros w0 H; unfold I; rewrite Ho; exact H).
  split.
  - pose proof (main_pipeline_rule others I H1 id vp) as H.
    specialize (H ltac:(auto) ltac:(auto) ltac:(auto) ltac:(auto) ltac:(auto) E _
                  (complete_keeps_upload others vp _ E id) w eq_refl).
    apply wp_run in H.
    destruct (run_among others (Main.process_3d_generation E id vp w)) as [w' [e|[]]];
      exact H.
  - pose proof (gaussian_pipeline_rule others I H1 id vp) as H.
    specialize (H ltac:(auto) ltac:(auto) ltac:(auto) ltac:(auto) ltac:(auto) E _
                  (complete_keeps_upload others vp _ E id) w eq_refl).
    apply wp_run in H.
    destruct (run_among others
                (GaussianSplatting.process_gaussian_splatting E id vp w)) as [w' [e|[]]];
      exact H.
Qed.

Lemma upload_is_kept_unless_completed_witness :
  let E := Scenario.no_poses in
  let w := Scenario.submitted E 300 in
  let w' := (run_among (fun w => w) (Main.process_3d_generation E "j1" "j1.mp4" w)).1 in
  record "j1" (fun j => status j = completed) w'
  ∨ UPLOAD_DIR w' !! "j1.mp4" = UPLOAD_DIR w !! "j1.mp4".
Proof.
  intros E w w'.
  destruct (upload_is_kept_unless_completed E (fun w => w) "j1" "j1.mp4" w) as [H _].
  - intros w0. reflexivity.
  - exact H.
Defined.

(* ===================================================================== *)
(** * The commands of a run *)
(* ===================================================================== *)

Section Commands.

Variable others : world → world.
Hypothesis others_start_nothing : ∀ w, commands (log (others w)) = commands (log w).
Variable E : env.
Variables id vp : string.
Variable c0 : list (list string).

Lemma started_others l w : started c0 l w → started c0 l (others w).
Proof. unfold started. rewrite others_start_nothing. auto. Qed.

Lemma started_wrote l it w : started c0 l w → started c0 l (emit (Wrote id it) w).
Proof. unfold started. autorewrite with world. rewrite commands_snoc_wrote. auto. Qed.

Lemma started_record l (f : gmap string job → gmap string job) w :
  only_at id f → started c0 l w → started c0 l (set_jobs_status f w).
Proof. intros _ H. exact H. Qed.

Lemma started_jobs_dir l (f : gmap string (list string) → gmap string (list string)) w :
  only_at id f → started c0 l w → started c0 l (set_JOBS_DIR f w).
Proof. intros _ H. exact H. Qed.

Lemma started_output l (f : list string → list string) w :
  started c0 l w → started c0 l (set_OUTPUT_DIR f w).
Proof. intros H. exact H. Qed.

Lemma in_order_others w : in_order id c0 w → in_order id c0 (others w).
Proof. intros (n & l & Hl & H). exists n, l. split; [exact Hl|]. apply started_others, H. Qed.

Lemma in_order_wrote it w : in_order id c0 w → in_order id c0 (emit (Wrote id it) w).
Proof. intros (n & l & Hl & H). exists n, l. split; [exact Hl|]. apply started_wrote, H. Qed.

Lemma in_order_record (f : gmap string job → gmap string job) w :
  only_at id f → in_order id c0 w → in_order id c0 (set_jobs_status f w).
Proof. intros _ H. exact H. Qed.

Lemma in_order_jobs_dir (f : gmap string (list string) → gmap string (list string)) w :
  only_at id f → in_order id c0 w → in_order id c0 (set_JOBS_DIR f w).
Proof. intros _ H. exact H. Qed.

Lemma in_order_output (f : list string → list string) w :
  in_order id c0 w → in_order id c0 (set_OUTPUT_DIR f w).
Proof. intros H. exact H. Qed.

Lemma in_order_upload (f : gmap string video → gmap string video) w :
  only_at vp f → in_order id c0 w → in_order id c0 (set_UPLOAD_DIR f w).
Proof. intros _ H. exact H. Qed.

(** Starting a command adds it to the commands started; when the
    command cannot be started, nothing is added. *)
Lemma started_exec l cmd (X : exn → world → Prop) :
  (∀ e w, started c0 l w → X e w) →
  hoare others (started c0 l) (create_subprocess_exec E cmd)
        (fun _ => started c0 (l ++ [cmd])) X.
Proof.
  intros HX w Hw. unfold create_subprocess_exec, lift.
  destruct (spawn E cmd) as [e|p]; simpl; [apply HX, Hw|].
  unfold started in *. rewrite others_start_nothing. autorewrite with world.
  rewrite commands_snoc_ran, Hw. symmetry. apply app_assoc.
Qed.

Lemma started_step {A} l (c : task A) (X : exn → world → Prop) :
  preserves others (started c0 l) c →
  (∀ e w, started c0 l w → X e w) →
  hoare others (started c0 l) c (fun _ => started c0 l) X.
Proof. intros Hc HX. eapply hoare_conseq; [| | |exact Hc]; cbv beta; auto. Qed.

Lemma started_last {A} l n (c : task A) :
  preserves others (started c0 l) c →
  l `prefix_of` main_commands id n →
  hoare others (started c0 l) c (fun _ => in_order id c0) (fun _ => in_order id c0).
Proof.
  intros Hc Hl. eapply hoare_conseq; [| | |exact Hc]; cbv beta; [auto | |];
    intros ? w H; exists n, l; auto.
Qed.

Ltac started_side :=
  first [ apply started_others | apply started_wrote | apply started_record
        | apply started_jobs_dir | apply started_output ].

Ltac started_leaf :=
  first [ apply preserves_setitem | apply preserves_makedirs
        | apply preserves_main_extract_frames | apply preserves_main_poll_training
        | apply preserves_communicate | apply preserves_gets
        | apply preserves_when; apply preserves_raise ];
  try (intros; started_side; assumption).

Ltac weaken :=
  intros ? ? ?;
  first [ match goal with
          | n : Z |- _ =>
              exists n; eexists; (split; [|eassumption]); eexists; reflexivity
          end
        | exists 0; eexists; (split; [|eassumption]); eexists; reflexivity ].

Lemma run_stages_in_order :
  hoare others (started c0 []) (Main.run_stages E id vp)
        (fun _ => in_order id c0) (fun _ => in_order id c0).
Proof.
  unfold Main.run_stages.
  repeat (eapply hoare_bind;
          [ first [ apply started_exec; weaken
                  | apply started_step; [started_leaf | weaken] ]
          | intros ? ]).
  cbv beta. eapply started_last; [started_leaf | eexists; reflexivity].
Qed.

Ltac in_order_side :=
  first [ exact in_order_others | exact in_order_wrote | exact in_order_record
        | exact in_order_jobs_dir | exact in_order_output | exact in_order_upload ].

Lemma process_3d_generation_in_order :
  hoare others (started c0 []) (Main.process_3d_generation E id vp)
        (fun _ => in_order id c0) (fun _ => in_order id c0).
Proof.
  unfold Main.process_3d_generation.
  eapply hoare_try; [|intros e; apply preserves_on_exception; in_order_side].
  eapply hoare_bind; [apply run_stages_in_order|intros ?].
  eapply hoare_bind; [apply preserves_resolve_artifact; in_order_side|intros ?].
  apply preserves_complete; in_order_side.
Qed.

End Commands.

(** X15.  A run of the pipeline of [main.py] starts at most three
    commands, in the order of the stages: whatever the tools and the
    operating system do, when the rest of the system starts no command,
    the commands started during the run are the first zero, one, two or
    three of [ns-process-data], [ns-train], [ns-export], with the
    arguments of the job.  Training is never started before pose
    estimation, nor the export before training, and no command is
    started twice. *)
Theorem commands_start_in_order E others id vp w :
  (∀ w0, commands (log (others w0)) = commands (log w0)) →
  ∃ n l,
    l `prefix_of` main_commands id n
    ∧ commands (log (run_among others (Main.process_3d_generation E id vp w)).1)
      = commands (log w) ++ l.
Proof.
  intros Ho.
  pose proof (process_3d_generation_in_order others Ho E id vp (commands (log w)) w) as H.
  apply wp_run in H; [|symmetry; apply app_nil_r].
  destruct (run_among others (Main.process_3d_generation E id vp w)) as [w' [e|[]]];
    exact H.
Qed.

Lemma commands_start_in_order_witness :
  let E := Scenario.no_poses in
  let w := Scenario.submitted E 300 in
  ∃ n l,
    l `prefix_of` main_commands "j1" n
    ∧ commands (log (run_among (fun w => w)
                       (Main.process_3d_generation E "j1" "j1.mp4" w)).1)
      = commands (log w) ++ l.
Proof.
  intros E w.
  apply (commands_start_in_order E (fun w => w) "j1" "j1.mp4" w).
  intros w0. reflexivity.
Defined.

(* ===================================================================== *)
(** * main_colmap.py: the pipeline runs in one piece *)
(* ===================================================================== *)

Section Atomic.

Lemma atomic_ret {A} (a : A) : atomic (mret a).
Proof. intros w. exact I. Qed.

Lemma atomic_raise {A} (e : exn) : atomic (@raise A e).
Proof. intros w. exact I. Qed.

Lemma atomic_bind {A B} (c : task A) (f : A → task B) :
  atomic c → (∀ a, atomic (f a)) → atomic (c ≫= f).
Proof.
  intros Hc Hf w. unfold mbind, task_bind. specialize (Hc w).
  destruct (c w) as [w' a|w' e|]; simpl; [apply Hf | exact I | contradiction].
Qed.

Lemma atomic_try {A} (c : task A) (h : exn → task A) :
  atomic c → (∀ e, atomic (h e)) → atomic (try_except c h).
Proof.
  intros Hc Hh w. unfold try_except. specialize (Hc w).
  destruct (c w) as [w' a|w' e|]; simpl; [exact I | apply Hh | contradiction].
Qed.

Lemma atomic_modify f : atomic (modify f).
Proof. intros w. exact I. Qed.

Lemma atomic_gets {A} (f : world → A) : atomic (gets f).
Proof. intros w. exact I. Qed.

Lemma atomic_lift {A} (x : exn + A) : atomic (lift x).
Proof. destruct x; intros w; exact I. Qed.

Lemma atomic_when b c : atomic c → atomic (when b c).
Proof. intros Hc. destruct b; [exact Hc | apply atomic_ret]. Qed.

Lemma atomic_oscheck E c : atomic (oscheck E c).
Proof. unfold oscheck. destruct (fault E c); [apply atomic_raise | apply atomic_ret]. Qed.

Lemma atomic_setitem id it : atomic (setitem_job id it).
Proof. intros w. unfold setitem_job. destruct (jobs_status w !! id); exact I. Qed.

End Atomic.

Ltac atomic_step :=
  first [ apply atomic_setitem | apply atomic_oscheck | apply atomic_modify
        | apply atomic_gets | apply atomic_lift | apply atomic_raise
        | apply atomic_ret | apply atomic_when
        | apply atomic_bind; [|intros ?] ].

Lemma atomic_process_colmap E id vp : atomic (Colmap.process_colmap E id vp).
Proof.
  unfold Colmap.process_colmap, Colmap.extract_frames, makedirs, subprocess_run,
    add_job_files, rmtree.
  apply atomic_try; [|intros e]; repeat atomic_step.
Qed.

(** X16.  The pipeline of [main_colmap.py] never reaches an [await]: its
    commands are run with the blocking [subprocess.run].  On every
    state it returns or raises without handing control back, so the step
    of the event loop that starts it leaves no suspended worker and lets
    no request in before the job has reached its end: the server
    answers nothing while a job is processed. *)
Theorem colmap_pipeline_never_yields E s i :
  let s' := step (Colmap.process_colmap E) s (Start_background i) in
  workers s' = workers s ∧ handlers s' = handlers s ∧ responses s' = responses s
  ∧ ∀ id vp w, settles (Colmap.process_colmap E id vp w).
Proof.
  intros s'. split; [|split; [|split]]; try (intros; apply atomic_process_colmap);
    subst s'; cbn [step];
    destruct (background_tasks (state s) !! i) as [[id vp]|]; try reflexivity;
    pose proof (atomic_process_colmap E id vp
                  (set_background_tasks (delete i) (state s))) as H;
    destruct (Colmap.process_colmap E id vp _); try contradiction; reflexivity.
Qed.

Section Outcome.

Variable others : world → world.
Variable E : env.
Variables id vp : string.
Variable x : option video.

Lemma job_write it (P Q : job → Prop) y X :
  (∀ j, P j → Q (setitem it j)) →
  hoare others (job_is id vp P y) (setitem_job id it)
        (fun _ => job_is id vp Q y) X.
Proof.
  intros HPQ w ((j & Hj & HP) & Hup). rewrite (setitem_job_Some _ _ _ _ Hj). simpl.
  split; [|exact Hup]. exists (setitem it j). autorewrite with world.
  split; [apply lookup_insert_eq | apply HPQ, HP].
Qed.

Variables u e : option string.

Lemma working_others_free P y w :
  job_is id vp P y w → ∀ w', jobs_status w' = jobs_status w →
  UPLOAD_DIR w' = UPLOAD_DIR w → job_is id vp P y w'.
Proof.
  intros [(j & Hj & HP) Hup] w' H1 H2. split.
  - exists j. rewrite H1. auto.
  - rewrite H2. exact Hup.
Qed.

Ltac job_side :=
  intros; eapply working_others_free; [eassumption | reflexivity | reflexivity].

Ltac job_leaf :=
  cbv beta;
  first [ apply (job_write _ (working u e) (working u e));
          intros ? (? & ? & ? & ?); repeat split; cbn; solve [assumption | lia]
        | first [ apply preserves_makedirs | apply preserves_colmap_extract_frames
                | apply preserves_subprocess_run | apply preserves_gets
                | apply preserves_oscheck
                | apply preserves_when; apply preserves_raise ];
          try job_side ].

Lemma process_colmap_outcome :
  hoare others
        (job_is id vp (fun j => download_url j = u ∧ error j = e) x)
        (Colmap.process_colmap E id vp)
        (fun _ w =>
           job_is id vp (fun j => status j = completed ∧ progress j = 100
                           ∧ download_url j = Some ("/download/" +:+ id +:+ ".ply")
                           ∧ error j = e) None w
           ∨ job_is id vp (fun j => status j = failed ∧ is_Some (error j)
                             ∧ download_url j = u ∧ 10 ≤ progress j ≤ 80) x w)
        (fun _ _ => False).
Proof.
  unfold Colmap.process_colmap.
  eapply hoare_try with (X' := fun _ => job_is id vp (working u e) x).
  - eapply hoare_bind;
      [apply job_write with (Q := fun j => status j = processing ∧ download_url j = u
                                         ∧ error j = e); cbn; tauto|intros ?].
    eapply hoare_bind;
      [apply job_write with (Q := fun j => status j = processing ∧ download_url j = u
                                         ∧ error j = e); cbn; tauto|intros ?].
    eapply hoare_bind;
      [apply job_write with (Q := working u e); unfold working; cbn; intuition lia
      |intros ?].
    repeat (eapply hoare_bind; [solve [job_leaf]|intros ?]).
    eapply hoare_bind with
      (Q := fun _ => job_is id vp (working u e) None).
    { intros w H. cbv beta in H. destruct H as [Hr Hup]. simpl. split; [exact Hr|].
      autorewrite with world. apply lookup_delete_eq. }
    intros ?.
    eapply hoare_bind with
      (Q := fun _ => job_is id vp (working u e) None).
    { unfold rmtree. intros w H. simpl. eapply working_others_free;
        [exact H | reflexivity | reflexivity]. }
    intros ?.
    eapply hoare_bind;
      [apply job_write with (Q := fun j => status j = completed ∧ download_url j = u
                                         ∧ error j = e);
       unfold working; cbn; tauto|intros ?].
    eapply hoare_bind;
      [apply job_write with (Q := fun j => status j = completed ∧ download_url j = u
                                         ∧ error j = e); cbn; tauto|intros ?].
    eapply hoare_bind;
      [apply job_write with (Q := fun j => status j = completed ∧ progress j = 100
                                         ∧ download_url j = u ∧ error j = e);
       cbn; tauto|intros ?].
    eapply hoare_conseq; [| | |apply job_write with
      (Q := fun j => status j = completed ∧ progress j = 100
                     ∧ download_url j = Some ("/download/" +:+ id +:+ ".ply")
                     ∧ error j = e)]; cbv beta.
    + intros w H. exact H.
    + intros ? w H. left. exact H.
    + intros ? w H. exact H.
    + cbn. tauto.
  - intros e0.
    eapply hoare_bind;
      [apply job_write with (Q := fun j => status j = failed ∧ download_url j = u
                                         ∧ 10 ≤ progress j ≤ 80);
       unfold working; cbn; tauto|intros ?].
    eapply hoare_bind;
      [apply job_write with (Q := fun j => status j = failed ∧ download_url j = u
                                         ∧ 10 ≤ progress j ≤ 80); cbn; tauto|intros ?].
    eapply hoare_conseq; [| | |apply job_write with
      (Q := fun j => status j = failed ∧ is_Some (error j)
                     ∧ download_url j = u ∧ 10 ≤ progress j ≤ 80)]; cbv beta.
    + intros w H. exact H.
    + intros ? w H. right. exact H.
    + intros ? w H. exact H.
    + cbn. intros j (H1 & H2 & H3). repeat split; eauto; lia.
Qed.

End Outcome.

(** X17.  In [main_colmap.py] a pipeline that finds the record of its
    job always returns, and leaves the record in one of two shapes.
    Either ["completed"], with progress 100, the download locator
    [/download/<job_id>.ply], the error field as it was and the upload
    removed; or ["failed"], with an error detail, the locator as it was,
    the progress of the stage that failed (between 10 and 80: it is not
    reset) and the upload still there.  For a job created by
    [generate_3d] the two optional fields agree with the status. *)
Theorem colmap_job_outcome E id vp w j :
  jobs_status w !! id = Some j →
  ∃ w' j',
    Colmap.process_colmap E id vp w = Done w' tt
    ∧ jobs_status w' !! id = Some j'
    ∧ ((status j' = completed ∧ progress j' = 100
        ∧ download_url j' = Some ("/download/" +:+ id +:+ ".ply")
        ∧ error j' = error j
        ∧ UPLOAD_DIR w' !! vp = None)
       ∨ (status j' = failed ∧ is_Some (error j')
          ∧ download_url j' = download_url j
          ∧ 10 ≤ progress j' ≤ 80
          ∧ UPLOAD_DIR w' !! vp = UPLOAD_DIR w !! vp))
    ∧ (download_url j = None → error j = None → fields_agree j' = true).
Proof.
  intros Hj.
  pose proof (process_colmap_outcome (fun w => w) E id vp (UPLOAD_DIR w !! vp)
                (download_url j) (error j) w) as H.
  pose proof (atomic_process_colmap E id vp w) as Ha.
  destruct (Colmap.process_colmap E id vp w) as [w' []|w' e0|]; simpl in H, Ha.
  - destruct H as [[(j' & Hj' & H1 & H2 & H3 & H4) Hup]|[(j' & Hj' & H1 & H2 & H3 & H4) Hup]].
    + split; [exists j; auto | reflexivity].
    + exists w', j'. split; [reflexivity|]. split; [exact Hj'|]. split.
      * left. auto.
      * intros _ He. unfold fields_agree. rewrite H1, H3, H4, He.
        apply andb_true_intro. split; apply bool_decide_eq_true_2.
        -- split; [reflexivity | eexists; reflexivity].
        -- split; [intros [? ?]; discriminate | discriminate].
    + exists w', j'. split; [reflexivity|]. split; [exact Hj'|]. split.
      * right. auto.
      * intros Hu _. unfold fields_agree. rewrite H1, H3, Hu.
        apply andb_true_intro. split; apply bool_decide_eq_true_2.
        -- split; [intros [? ?]; discriminate | discriminate].
        -- split; [reflexivity | intros _; exact H2].
  - exfalso. apply H. split; [exists j; auto | reflexivity].
  - contradiction.
Qed.

Lemma colmap_job_outcome_witness :
  let E := Scenario.all_well in
  let w := state (steps (Colmap.process_colmap E) boot
                    [Request (Colmap.generate_3d E (Scenario.mp4 300)
                                (Draw "j1" "2025-01-01T00:00:00"));
                     Resume_handler 0]) in
  ∃ w' j',
    Colmap.process_colmap E "j1" "j1.mp4" w = Done w' tt
    ∧ jobs_status w' !! "j1" = Some j'
    ∧ fields_agree j' = true.
Proof.
  intros E w.
  destruct (colmap_job_outcome E "j1" "j1.mp4" w
              (new_job "j1" "En attente..." "2025-01-01T00:00:00"))
    as (w' & j' & H1 & H2 & _ & H4).
  - vm_compute. reflexivity.
  - exists w', j'. split; [exact H1|]. split; [exact H2|].
    apply H4; reflexivity.
Defined.

(* ===================================================================== *)
(** * Progress in the sibling backends *)
(* ===================================================================== *)

Section SiblingProgress.

Variable others : world → world.
Variable id : string.
Hypothesis others_quiet : ∀ w, mine id (log (others w)) = mine id (log w).
Variable E : env.
Variable cur : status_t.
Variable l0 : list event.

Ltac quiet_leaf :=
  first [ apply quiet_bind; [|intros ?]
        | apply quiet_await; exact others_quiet
        | apply quiet_emit_ran | apply quiet_oscheck
        | apply quiet_gets | apply quiet_lift | apply quiet_raise
        | apply quiet_ret
        | apply quiet_when
        | apply quiet_modify; intros ?; reflexivity ].

Lemma quiet_subprocess_run cmd : quiet others id (subprocess_run E id cmd).
Proof. unfold subprocess_run, add_job_files. repeat quiet_leaf. Qed.

Lemma quiet_colmap_extract_frames vp fps :
  quiet others id (Colmap.extract_frames E id vp fps).
Proof. unfold Colmap.extract_frames, add_job_files. repeat quiet_leaf. Qed.

Lemma quiet_gaussian_extract_frames vp fps :
  quiet others id (GaussianSplatting.extract_frames E id vp fps).
Proof. unfold GaussianSplatting.extract_frames, add_job_files. repeat quiet_leaf. Qed.

Ltac quiet_any :=
  solve [ apply quiet_makedirs | apply quiet_colmap_extract_frames
        | apply quiet_gaussian_extract_frames | apply quiet_subprocess_run
        | apply quiet_create_subprocess_exec; exact others_quiet
        | apply quiet_communicate; exact others_quiet
        | unfold rmtree; repeat quiet_leaf ].

Ltac ramp_any :=
  lazymatch goal with
  | |- triple _ _ _ (mbind _ (setitem_job _ (Status completed))) _ _ => fail
  | _ =>
      eapply triple_bind;
      [ first [ apply ramp_write; lia
              | apply ramp_quiet; [lia | quiet_any] ]
      | intros ? ]
  end.

Lemma gaussian_poll_training_ramp n : ∀ p,
  p ≤ 85 →
  triple others id (ramp_inv id cur l0 p) (GaussianSplatting.poll_training id n p)
         (fun _ => ramp_inv id cur l0 85) (fun _ => ramp_inv id cur l0 90).
Proof.
  induction n as [|n IH]; intros p Hp; cbn [GaussianSplatting.poll_training].
  - eapply triple_conseq; [| | |apply triple_ret with (P := ramp_inv id cur l0 p)].
    + auto.
    + intros ? l H. eapply ramp_inv_weaken; [exact Hp | exact H].
    + intros ? l H. exact H.
  - eapply triple_bind;
      [apply ramp_quiet; [lia | apply quiet_await; exact others_quiet]|intros ?].
    eapply triple_bind;
      [apply (ramp_write others id cur l0 (Progress (Z.min (p + 5) 85))); lia|intros ?].
    eapply triple_bind;
      [apply ramp_quiet; [lia | apply quiet_await; exact others_quiet]|intros ?].
    apply IH. lia.
Qed.

(** The writes once the status has left ["processing"]. *)
Lemma settled_inv_weaken hi hi' l :
  hi ≤ hi' → settled_inv id cur l0 hi l → settled_inv id cur l0 hi' l.
Proof.
  intros Hle (l' & -> & Hs & Hb & Hl). exists l'. repeat split; [exact Hs| |exact Hl].
  eapply Forall_impl; [exact Hb|]. simpl. intros. lia.
Qed.

Ltac settled_any :=
  eapply triple_conseq with (P := settled_inv id cur l0 90)
    (Q := fun _ => settled_inv id cur l0 90) (X := fun _ => settled_inv id cur l0 90);
    [ intros l H; cbv beta in H; eapply settled_inv_weaken; [|exact H]; lia
    | intros ? l; apply settled_inv_ramp | intros ? l; apply settled_inv_ramp |];
  repeat (eapply triple_bind; [apply settled_write; exact I|intros ?]);
  apply settled_write; exact I.

Lemma process_colmap_ramp vp :
  triple others id (fun l => l = l0) (Colmap.process_colmap E id vp)
         (fun _ => ramp_inv id cur l0 90) (fun _ => ramp_inv id cur l0 90).
Proof.
  unfold Colmap.process_colmap.
  eapply triple_try with (X' := fun _ => ramp_inv id cur l0 90).
  - eapply triple_conseq with (P := ramp_inv id cur l0 10)
      (Q := fun _ => ramp_inv id cur l0 90) (X := fun _ => ramp_inv id cur l0 90);
      [intros l ->; apply ramp_inv_start | auto | auto |].
    repeat ramp_any.
    eapply triple_bind; [apply settle_write; [discriminate | lia]|intros ?].
    settled_any.
  - intros e.
    eapply triple_bind; [apply settle_write; [discriminate | lia]|intros ?].
    settled_any.
Qed.

Ltac settled_mixed :=
  eapply triple_conseq with (P := settled_inv id cur l0 90)
    (Q := fun _ => settled_inv id cur l0 90) (X := fun _ => settled_inv id cur l0 90);
    [ intros l H; cbv beta in H; eapply settled_inv_weaken; [|exact H]; lia
    | intros ? l; apply settled_inv_ramp | intros ? l; apply settled_inv_ramp |];
  repeat (eapply triple_bind;
          [ first [ apply settled_write; exact I
                  | match goal with
                    | |- triple _ _ ?P ?c _ _ =>
                        assert (Hq : quiet others id c) by quiet_any;
                        apply (Hq (settled_inv id cur l0 90))
                    end ]
          | intros ? ]).

Lemma process_gaussian_splatting_ramp vp :
  triple others id (fun l => l = l0)
         (GaussianSplatting.process_gaussian_splatting E id vp)
         (fun _ => ramp_inv id cur l0 90) (fun _ => ramp_inv id cur l0 90).
Proof.
  unfold GaussianSplatting.process_gaussian_splatting.
  eapply triple_try with (X' := fun _ => ramp_inv id cur l0 90).
  - eapply triple_conseq with (P := ramp_inv id cur l0 10)
      (Q := fun _ => ramp_inv id cur l0 90) (X := fun _ => ramp_inv id cur l0 90);
      [intros l ->; apply ramp_inv_start | auto | auto |].
    repeat ramp_any.
    eapply triple_bind; [apply gaussian_poll_training_ramp; lia|intros ?].
    repeat ramp_any.
    eapply triple_bind; [apply settle_write; [discriminate | lia]|intros ?].
    settled_mixed.
    match goal with
    | |- triple _ _ ?P ?c _ _ =>
        assert (Hq : quiet others id c) by (repeat quiet_leaf);
        apply (Hq (settled_inv id cur l0 90))
    end.
  - intros e.
    eapply triple_bind; [apply settle_write; [discriminate | lia]|intros ?].
    settled_any.
Qed.

End SiblingProgress.

(** X18.  In [main_colmap.py] and [main_gaussian_splatting.py] too, the
    progress values written to the record of a job while its status is
    ["processing"] are non-decreasing and at most 90, whatever the tools
    and the operating system do and whatever else runs at the
    suspension points, as long as nothing else writes to the record. *)
Theorem sibling_progress_never_decreases E others id vp w cur :
  (∀ w0, mine id (log (others w0)) = mine id (log w0)) →
  (∃ l',
      mine id (log (run_among others (Colmap.process_colmap E id vp w)).1)
      = mine id (log w) ++ l'
      ∧ Sorted Z.le (progress_writes id cur l')
      ∧ Forall (fun p => p ≤ 90) (progress_writes id cur l'))
  ∧ (∃ l',
      mine id (log (run_among others
                      (GaussianSplatting.process_gaussian_splatting E id vp w)).1)
      = mine id (log w) ++ l'
      ∧ Sorted Z.le (progress_writes id cur l')
      ∧ Forall (fun p => p ≤ 90) (progress_writes id cur l')).
Proof.
  intros Hq. split.
  - pose proof (process_colmap_ramp others id E cur (mine id (log w)) vp w eq_refl) as H.
    apply wp_run in H.
    destruct (run_among others (Colmap.process_colmap E id vp w)) as [w' [e|[]]];
      exact H.
  - pose proof (process_gaussian_splatting_ramp others id Hq E cur (mine id (log w)) vp w
                  eq_refl) as H.
    apply wp_run in H.
    destruct (run_among others (GaussianSplatting.process_gaussian_splatting E id vp w))
      as [w' [e|[]]]; exact H.
Qed.

Lemma sibling_progress_never_decreases_witness :
  let w := Scenario.submitted Scenario.all_well 300 in
  ∃ l',
    mine "j1" (log (run_among (fun w => w)
                      (GaussianSplatting.process_gaussian_splatting Scenario.all_well
                         "j1" "j1.mp4" w)).1)
    = mine "j1" (log w) ++ l'
    ∧ Sorted Z.le (progress_writes "j1" queued l').
Proof.
  intros w.
  destruct (sibling_progress_never_decreases Scenario.all_well (fun w => w)
              "j1" "j1.mp4" w queued) as [_ (l' & H1 & H2 & _)].
  - intros w0. reflexivity.
  - exists l'. split; [exact H1 | exact H2].
Defined.

(* ===================================================================== *)
(** * Failures of a stage *)
(* ===================================================================== *)

(** X19.  In [main_gaussian_splatting.py] a readable video that reports
    a frame rate below 3 frames per second fails its job at the first
    stage: the [ZeroDivisionError] of the sampler is caught by the
    [except] clause, the record ends ["failed"] with the message of the
    error as its detail and the progress left at 10, no command has been
    started and the upload is kept. *)
Theorem gaussian_low_frame_rate_fails_the_job E others id vp w j v :
  jobs_status w !! id = Some j →
  (∀ path, fault E (Mkdir path) = None) →
  UPLOAD_DIR w !! vp = Some v →
  frames v ≠ [] →
  (-3 # 1 < CAP_PROP_FPS v)%Q →
  (CAP_PROP_FPS v < 3 # 1)%Q →
  let w' := (run_among others
               (GaussianSplatting.process_gaussian_splatting E id vp w)).1 in
  ∃ j', jobs_status w' !! id = Some j'
        ∧ status j' = failed
        ∧ (∃ msg, GaussianSplatting.extract_frames_from_video v 3
                  = inl (ZeroDivisionError msg)
                  ∧ error j' = Some msg)
        ∧ progress j' = 10
        ∧ commands (log w') = commands (log w)
        ∧ UPLOAD_DIR w' = UPLOAD_DIR w.
Proof.
  intros Hj Hmk Hv Hne Hlo Hhi w'.
  assert (Hex : GaussianSplatting.extract_frames_from_video (capture vp w) 3
                = inl (ZeroDivisionError "integer modulo by zero")).
  { replace (capture vp w) with v by (unfold capture; rewrite Hv; reflexivity).
    unfold GaussianSplatting.extract_frames_from_video, truediv.
    simpl (3 =? 0). cbv iota. rewrite int_of_float_small by assumption.
    destruct (frames v) as [|fr rest]; [contradiction|]. reflexivity. }
  eassert (Hrun : GaussianSplatting.process_gaussian_splatting E id vp w = Done _ tt).
  { unfold GaussianSplatting.process_gaussian_splatting. eval_task.
    rewrite (setitem_job_Some _ _ _ _ Hj). next_step.
    do 2 write_step.
    unfold makedirs, oscheck. rewrite !Hmk. eval_task.
    unfold GaussianSplatting.extract_frames, oscheck. rewrite Hmk. eval_task.
    erewrite capture_quiet by (autorewrite with world; reflexivity).
    rewrite Hex. eval_task.
    do 3 write_step.
    reflexivity. }
  subst w'. rewrite Hrun. cbn [run_among fst].
  eexists. split; [autorewrite with world; apply lookup_insert_eq|].
  split; [reflexivity|].
  split; [eexists; split; [rewrite <- Hex; unfold capture; rewrite Hv|]; reflexivity|].
  split; [reflexivity|].
  autorewrite with world. rewrite !commands_snoc_wrote. split; reflexivity.
Qed.

Lemma gaussian_low_frame_rate_fails_the_job_witness :
  let E := Scenario.all_well in
  let w := state (steps (GaussianSplatting.process_gaussian_splatting E) boot
                    [Request (GaussianSplatting.generate_3d E
                                (Upload (Some "video/mp4") (Scenario.clip 300 2))
                                (Draw "j1" "2025-01-01T00:00:00"));
                     Resume_handler 0]) in
  let w' := (run_among (fun w => w)
               (GaussianSplatting.process_gaussian_splatting E "j1" "j1.mp4" w)).1 in
  ∃ j', jobs_status w' !! "j1" = Some j'
        ∧ status j' = failed
        ∧ commands (log w') = commands (log w).
Proof.
  intros E w w'.
  edestruct (gaussian_low_frame_rate_fails_the_job E (fun w => w) "j1" "j1.mp4" w)
    as (j' & H1 & H2 & _ & _ & H5 & _).
  - vm_compute. reflexivity.
  - intros path. reflexivity.
  - vm_compute. reflexivity.
  - discriminate.
  - reflexivity.
  - reflexivity.
  - exists j'. split; [exact H1|]. split; [exact H2 | exact H5].
Defined.

(** X20.  In [main.py], when pose estimation exits with a code other
    than zero, the job fails there: the record ends ["failed"] with
    progress 0 and the locator as it was, the error detail is
    [COLMAP processing failed: ] followed by the error stream of the
    command, or by [COLMAP failed] when that stream is empty, and the
    pose estimation is the only command the run has started. *)
Theorem pose_estimation_failure_fails_the_job E others id vp w j n files p :
  jobs_status w !! id = Some j →
  (∀ path, fault E (Mkdir path) = None) →
  Main.extract_frames_from_video (capture vp w) 50 = inr (n, files) →
  10 ≤ n →
  let cmd := hd [] (main_commands id n) in
  spawn E cmd = inr p →
  returncode p ≠ 0 →
  (∀ w0, jobs_status (others w0) !! id = jobs_status w0 !! id
         ∧ commands (log (others w0)) = commands (log w0)) →
  let w' := (run_among others (Main.process_3d_generation E id vp w)).1 in
  ∃ j',
    jobs_status w' !! id = Some j'
    ∧ status j' = failed
    ∧ error j' = Some ("COLMAP processing failed: "
                       +:+ decode_or (stderr p) "COLMAP failed")
    ∧ progress j' = 0
    ∧ download_url j' = download_url j
    ∧ commands (log w') = commands (log w) ++ [cmd].
Proof.
  intros Hj Hmk Hex Hn cmd Hsp Hrc Ho w'.
  unfold main_commands in cmd. cbn [hd] in cmd. subst cmd.
  eassert (Hrun : run_among others (Main.process_3d_generation E id vp w) = (_, inr tt)).
  { unfold Main.process_3d_generation, Main.run_stages. eval_task.
    rewrite (setitem_job_Some _ _ _ _ Hj). next_step.
    do 2 write_step.
    unfold makedirs, oscheck. rewrite !Hmk. eval_task.
    unfold Main.extract_frames, oscheck. rewrite Hmk. eval_task.
    erewrite capture_quiet by (autorewrite with world; reflexivity).
    rewrite Hex. eval_task.
    replace (n <? 10) with false by (symmetry; apply Z.ltb_ge, Hn).
    eval_task.
    do 2 write_step.
    unfold create_subprocess_exec. eval_task. rewrite Hsp. eval_task.
    await_step. eval_task.
    unfold communicate. eval_task. await_step. eval_task.
    rewrite (proj2 (Z.eqb_neq _ _) Hrc). cbn [negb when]. eval_task.
    unfold Main.on_exception. eval_task.
    match goal with
    | |- context [setitem_job id ?it ?w0] =>
        eassert (H : jobs_status w0 !! id = Some _)
          by (autorewrite with world; rewrite !(proj1 (Ho _));
              autorewrite with world; apply lookup_insert_eq);
        rewrite (setitem_job_Some id it w0 _ H); clear H; next_step
    end.
    do 3 write_step.
    apply run_among_Done. }
  subst w'. rewrite Hrun. cbn [fst].
  eexists. split; [autorewrite with world; apply lookup_insert_eq|].
  split; [reflexivity|]. split; [reflexivity|]. split; [reflexivity|].
  split; [reflexivity|].
  autorewrite with world. rewrite !commands_snoc_wrote.
  rewrite !(proj2 (Ho _)). autorewrite with world.
  rewrite commands_snoc_ran, !commands_snoc_wrote. reflexivity.
Qed.

Lemma pose_estimation_failure_fails_the_job_witness :
  let E := Scenario.no_poses in
  let w := Scenario.submitted E 300 in
  let w' := (run_among (fun w => w) (Main.process_3d_generation E "j1" "j1.mp4" w)).1 in
  ∃ j',
    jobs_status w' !! "j1" = Some j'
    ∧ status j' = failed
    ∧ error j' = Some "COLMAP processing failed: no poses"
    ∧ length (commands (log w')) = S (length (commands (log w))).
Proof.
  intros E w w'.
  edestruct (pose_estimation_failure_fails_the_job E (fun w => w) "j1" "j1.mp4" w
               (new_job "j1" "En attente de traitement..." "2025-01-01T00:00:00")
               50 (snd (Main.scan 6 50 (frames (Scenario.clip 300 30)) 0 0 []))
               (Proc 1 "no poses" 0 [] []))
    as (j' & H1 & H2 & H3 & _ & _ & H6).
  - vm_compute. reflexivity.
  - intros path. reflexivity.
  - vm_compute. reflexivity.
  - lia.
  - reflexivity.
  - discriminate.
  - intros w0. split; reflexivity.
  - exists j'. split; [exact H1|]. split; [exact H2|]. split; [exact H3|].
    fold w' in H6. rewrite H6, length_app. cbn [length]. lia.
Defined.

(* ===================================================================== *)
(** * The status machine when the cleanup succeeds *)
(* ===================================================================== *)

Lemma status_forward_when_cleanup_succeeds_witness :
  let E := Scenario.all_well in
  let w := Scenario.submitted E 300 in
  ∃ l',
    mine "j1" (log (run_among (fun w => w)
                      (Main.process_3d_generation E "j1" "j1.mp4" w)).1)
    = mine "j1" (log w) ++ l'
    ∧ strictly_forward (queued :: status_writes "j1" l') = true.
Proof.
  intros E w.
  apply (status_forward_when_cleanup_succeeds E (fun w => w) "j1" "j1.mp4" w).
  - intros w0. reflexivity.
  - reflexivity.
Defined.

(* ===================================================================== *)
(** * config.py: validation *)
(* ===================================================================== *)

Lemma unset_false (key : option string) :
  Config.unset key = false ↔ ∃ k, key = Some k ∧ k ≠ EmptyString.
Proof.
  destruct key as [k|]; cbn.
  - destruct (String.eqb_spec k EmptyString) as [->|Hne].
    + split; [discriminate|]. intros (k & [= <-] & H). contradiction.
    + split; [eauto|reflexivity].
  - split; [discriminate|]. intros (k & H & _). discriminate.
Qed.

Lemma auth_is_off_by_default (environ : gmap string string) :
  environ !! "ENABLE_AUTH" = None → Config.ENABLE_AUTH environ = false.
Proof.
  intros H. unfold Config.ENABLE_AUTH, Config.flag, Config.getenv. rewrite H.
  reflexivity.
Qed.

(** X22.  [Config.validate] returns without raising exactly when the
    Gaussian Splatting directory exists and, if [ENABLE_AUTH] is on, an
    [API_KEY] is set to a string that is not empty; in every other case
    it raises.  With [ENABLE_AUTH] not set in the
    environment, authentication is off and only the directory counts. *)
Theorem validate_accepts_exactly_the_usable_configurations
    (environ : gmap string string) (path_exists : bool) :
  (Config.validate environ path_exists = inr tt
   ↔ path_exists = true
     ∧ (Config.ENABLE_AUTH environ = true →
        ∃ key, environ !! "API_KEY" = Some key ∧ key ≠ EmptyString))
  ∧ (environ !! "ENABLE_AUTH" = None →
     (Config.validate environ path_exists = inr tt ↔ path_exists = true)).
Proof.
  split.
  - rewrite <- (unset_false (environ !! "API_KEY")).
    unfold Config.validate, Config.API_KEY.
    destruct path_exists, (Config.ENABLE_AUTH environ),
      (Config.unset (environ !! "API_KEY")); cbn [negb andb app];
      intuition discriminate.
  - intros Hoff. apply auth_is_off_by_default in Hoff.
    unfold Config.validate. rewrite Hoff.
    destruct path_exists; cbn [negb andb app]; intuition discriminate.
Qed.

(* ===================================================================== *)
(** * Invariants of the job table *)
(* ===================================================================== *)

Section Stretch.

Variable Inv : world → Prop.

Lemma guarantees_mono {A} (r : res A) (Q Q' : world → exn + A → Prop) :
  (∀ w x, Q w x → Q' w x) → guarantees Inv r Q → guarantees Inv r Q'.
Proof.
  intros HQ. induction r as [| |w k IH]; simpl; auto.
  intros [Hw Hk]. split; [exact Hw|]. intros w' Hw'. apply IH, Hk, Hw'.
Qed.

Lemma guarantees_bind {A B} (f : A → task B) (r : res A) Q :
  guarantees Inv (res_bind f r) Q
  ↔ guarantees Inv r (fun w x => match x with
                                 | inr a => guarantees Inv (f a w) Q
                                 | inl e => Q w (inl e)
                                 end).
Proof.
  induction r as [| |w k IH]; simpl; [tauto | tauto |].
  split; intros [Hw Hk]; (split; [exact Hw|]); intros w' Hw'; apply IH, Hk, Hw'.
Qed.

Lemma guarantees_catch {A} (h : exn → task A) (r : res A) Q :
  guarantees Inv (res_catch h r) Q
  ↔ guarantees Inv r (fun w x => match x with
                                 | inr a => Q w (inr a)
                                 | inl e => guarantees Inv (h e w) Q
                                 end).
Proof.
  induction r as [| |w k IH]; simpl; [tauto | tauto |].
  split; intros [Hw Hk]; (split; [exact Hw|]); intros w' Hw'; apply IH, Hk, Hw'.
Qed.

Lemma stretch_bind {A B} (c : task A) (f : A → task B) P Q R X :
  stretch Inv P c Q X →
  (∀ a, stretch Inv (Q a) (f a) R X) →
  stretch Inv P (c ≫= f) R X.
Proof.
  intros Hc Hf w HP. unfold mbind, task_bind. apply guarantees_bind.
  eapply guarantees_mono; [|apply Hc, HP].
  intros w' [e|a] H; [exact H|]. apply Hf, H.
Qed.

Lemma stretch_try {A} (c : task A) (h : exn → task A) P Q X X' :
  stretch Inv P c Q X' →
  (∀ e, stretch Inv (X' e) (h e) Q X) →
  stretch Inv P (try_except c h) Q X.
Proof.
  intros Hc Hh w HP. unfold try_except. apply guarantees_catch.
  eapply guarantees_mono; [|apply Hc, HP].
  intros w' [e|a] H; [|exact H]. apply Hh, H.
Qed.

Lemma stretch_conseq {A} (c : task A) (P P' : world → Prop) Q Q' X X' :
  (∀ w, P' w → P w) → (∀ a w, Q a w → Q' a w) → (∀ e w, X e w → X' e w) →
  stretch Inv P c Q X → stretch Inv P' c Q' X'.
Proof.
  intros HP HQ HX Hc w Hw. eapply guarantees_mono; [|apply Hc, HP, Hw].
  intros w' [e|a] H; [apply HX|apply HQ]; exact H.
Qed.

Lemma stretch_ret {A} (a : A) (P : world → Prop) X :
  stretch Inv P (mret a) (fun _ => P) X.
Proof. intros w HP. exact HP. Qed.

Lemma stretch_raise {A} (e : exn) (P : world → Prop) (Q : A → _) :
  stretch Inv P (raise e) Q (fun _ => P).
Proof. intros w HP. exact HP. Qed.

Lemma stretch_gets {A} (f : world → A) (P : world → Prop) X :
  stretch Inv P (gets f) (fun _ => P) X.
Proof. intros w HP. exact HP. Qed.

Lemma stretch_lift {A} (x : exn + A) (P : world → Prop) :
  stretch Inv P (lift x) (fun _ => P) (fun _ => P).
Proof. destruct x; intros w HP; exact HP. Qed.

Lemma stretch_modify (f : world → world) (P Q : world → Prop) X :
  (∀ w, P w → Q (f w)) → stretch Inv P (modify f) (fun _ => Q) X.
Proof. intros Hf w HP. simpl. apply Hf, HP. Qed.

Lemma stretch_when (b : bool) (c : task unit) (P : world → Prop) X :
  stretch Inv P c (fun _ => P) X → stretch Inv P (when b c) (fun _ => P) X.
Proof. intros Hc. destruct b; [exact Hc | apply stretch_ret]. Qed.

Lemma stretch_oscheck E c (P : world → Prop) :
  stretch Inv P (oscheck E c) (fun _ => P) (fun _ => P).
Proof.
  unfold oscheck. destruct (fault E c); [apply stretch_raise | apply stretch_ret].
Qed.

(** At an [await] the invariant must hold, and it is all that is known
    afterwards. *)
Lemma stretch_await (P : world → Prop) X :
  (∀ w, P w → Inv w) → stretch Inv P await (fun _ => Inv) X.
Proof. intros HP w Hw. simpl. split; [apply HP, Hw|]. intros w' Hw'. exact Hw'. Qed.

End Stretch.

Section Table.

Variable id : string.

Lemma consistent_apart_from w : consistent w ↔ apart_from id (good id) w.
Proof.
  split.
  - intros H. split; [intros id' j _; apply H | apply H].
  - intros [H1 H2] id' j Hj. destruct (decide (id' = id)) as [->|Hne]; auto.
Qed.

Lemma apart_from_write it (P Q R : job → Prop) :
  (∀ j, P j → Q (setitem it j)) →
  stretch consistent (apart_from id P) (setitem_job id it)
          (fun _ => apart_from id Q) (fun _ => apart_from id R).
Proof.
  intros HPQ w [H1 H2]. unfold setitem_job.
  destruct (jobs_status w !! id) as [j|] eqn:Hj; cbn [guarantees].
  - unfold apart_from. autorewrite with world. split.
    + intros id' j' Hne. rewrite lookup_insert_ne by congruence. apply H1, Hne.
    + intros j'. rewrite lookup_insert_eq. intros [= <-]. apply HPQ, H2. reflexivity.
  - split; [exact H1|]. intros j. rewrite Hj. discriminate.
Qed.

Lemma apart_from_modify (f : world → world) (P : job → Prop) X :
  (∀ w, jobs_status (f w) = jobs_status w) →
  stretch consistent (apart_from id P) (modify f) (fun _ => apart_from id P) X.
Proof.
  intros Hf. apply stretch_modify. intros w [H1 H2].
  split; [intros id' j; rewrite Hf; apply H1 | intros j; rewrite Hf; apply H2].
Qed.

Lemma apart_from_await X :
  stretch consistent (apart_from id (good id)) await
          (fun _ => apart_from id (good id)) X.
Proof.
  eapply stretch_conseq; [| | |apply stretch_await with (P := apart_from id (good id))];
    cbv beta.
  - auto.
  - intros _ w. apply consistent_apart_from.
  - intros e w H. exact H.
  - intros w. apply consistent_apart_from.
Qed.

Lemma good_setitem it j : harmless it → good id j → good id (setitem it j).
Proof.
  intros Hit (H1 & H2 & H3 & H4).
  unfold good, harmless in *.
  destruct it as [s|m|p|u|e];
    cbn [setitem job_id status progress download_url error];
    (split; [assumption|]); (split; [lia|]); split;
    first [assumption | intros _; eexists; reflexivity | subst s; discriminate].
Qed.

Lemma steady_ret {A} (a : A) : steady id (mret a).
Proof. apply stretch_ret. Qed.

Lemma steady_raise {A} (e : exn) : steady id (@raise A e).
Proof. apply stretch_raise. Qed.

Lemma steady_bind {A B} (c : task A) (f : A → task B) :
  steady id c → (∀ a, steady id (f a)) → steady id (c ≫= f).
Proof. intros Hc Hf. eapply stretch_bind; [exact Hc | exact Hf]. Qed.

Lemma steady_gets {A} (f : world → A) : steady id (gets f).
Proof. apply stretch_gets. Qed.

Lemma steady_lift {A} (x : exn + A) : steady id (lift x).
Proof. apply stretch_lift. Qed.

Lemma steady_when b c : steady id c → steady id (when b c).
Proof. apply stretch_when. Qed.

Lemma steady_oscheck E c : steady id (oscheck E c).
Proof. apply stretch_oscheck. Qed.

Lemma steady_await : steady id await.
Proof. apply apart_from_await. Qed.

Lemma steady_modify f : (∀ w, jobs_status (f w) = jobs_status w) → steady id (modify f).
Proof. intros Hf. apply apart_from_modify, Hf. Qed.

Lemma steady_setitem it : harmless it → steady id (setitem_job id it).
Proof. intros Hit. apply apart_from_write. intros j. apply good_setitem, Hit. Qed.

Ltac steady_step :=
  first [ apply steady_setitem; unfold harmless; solve [exact I | reflexivity | lia]
        | apply steady_await | apply steady_oscheck
        | apply steady_gets | apply steady_lift | apply steady_raise
        | apply steady_ret
        | apply steady_when
        | apply steady_modify; intros ?; reflexivity
        | apply steady_bind; [|intros ?] ].

Lemma steady_makedirs E sub : steady id (makedirs E id sub).
Proof. unfold makedirs. repeat steady_step. Qed.

Lemma steady_rmtree : steady id (rmtree id).
Proof. unfold rmtree. repeat steady_step. Qed.

Lemma steady_create_subprocess_exec E cmd : steady id (create_subprocess_exec E cmd).
Proof. unfold create_subprocess_exec. repeat steady_step. Qed.

Lemma steady_communicate p : steady id (communicate id p).
Proof. unfold communicate, add_job_files. repeat steady_step. Qed.

Lemma steady_subprocess_run E cmd : steady id (subprocess_run E id cmd).
Proof. unfold subprocess_run, add_job_files. repeat steady_step. Qed.

Lemma steady_main_extract_frames E vp T : steady id (Main.extract_frames E id vp T).
Proof. unfold Main.extract_frames, add_job_files. repeat steady_step. Qed.

Lemma steady_colmap_extract_frames E vp fps : steady id (Colmap.extract_frames E id vp fps).
Proof. unfold Colmap.extract_frames, add_job_files. repeat steady_step. Qed.

Lemma steady_gaussian_extract_frames E vp fps :
  steady id (GaussianSplatting.extract_frames E id vp fps).
Proof. unfold GaussianSplatting.extract_frames, add_job_files. repeat steady_step. Qed.

Lemma steady_main_poll_training n : ∀ p,
  0 ≤ p → steady id (Main.poll_training id n p).
Proof.
  induction n as [|n IH]; intros p Hp; cbn [Main.poll_training]; [apply steady_ret|].
  apply steady_bind; [apply steady_await|intros ?].
  apply steady_bind; [apply steady_setitem; unfold harmless; lia|intros ?].
  apply steady_bind; [apply steady_await|intros ?].
  apply IH. lia.
Qed.

Lemma steady_gaussian_poll_training n : ∀ p,
  0 ≤ p → steady id (GaussianSplatting.poll_training id n p).
Proof.
  induction n as [|n IH]; intros p Hp; cbn [GaussianSplatting.poll_training];
    [apply steady_ret|].
  apply steady_bind; [apply steady_await|intros ?].
  apply steady_bind; [apply steady_setitem; unfold harmless; lia|intros ?].
  apply steady_bind; [apply steady_await|intros ?].
  apply IH. lia.
Qed.

Ltac steady_op :=
  first [ apply steady_makedirs | apply steady_rmtree
        | apply steady_create_subprocess_exec | apply steady_communicate
        | apply steady_subprocess_run
        | apply steady_main_extract_frames | apply steady_colmap_extract_frames
        | apply steady_gaussian_extract_frames
        | apply steady_main_poll_training; lia
        | apply steady_gaussian_poll_training; lia
        | steady_step ].

(** The writes of the success block and of the [except] clauses: the
    record is put back in order before the stretch ends. *)
Ltac record_side :=
  intros ? ?; unfold good, completing, failing in *;
  cbn [setitem job_id status progress download_url error];
  intuition (try lia; try congruence; try discriminate; eauto).

Ltac critical_write :=
  lazymatch goal with
  | |- stretch _ (apart_from _ (good _)) (setitem_job _ (Status completed)) _ _ =>
      apply apart_from_write with (Q := completing id) (R := good id); record_side
  | |- stretch _ (apart_from _ (good _)) (setitem_job _ (Status failed)) _ _ =>
      apply apart_from_write with (Q := failing id) (R := good id); record_side
  | |- stretch _ (apart_from _ (completing _)) (setitem_job _ (Download_url _)) _ _ =>
      apply apart_from_write with (Q := good id) (R := good id); record_side
  | |- stretch _ (apart_from _ (completing _)) (setitem_job _ _) _ _ =>
      apply apart_from_write with (Q := completing id) (R := good id); record_side
  | |- stretch _ (apart_from _ (failing _)) (setitem_job _ (Error _)) _ _ =>
      apply apart_from_write with (Q := good id) (R := good id); record_side
  | |- stretch _ (apart_from _ (failing _)) (setitem_job _ _) _ _ =>
      apply apart_from_write with (Q := failing id) (R := good id); record_side
  end.

Ltac table_chain :=
  repeat (eapply stretch_bind;
          [ cbv beta; first [critical_write | solve [repeat steady_op]] | intros ? ]);
  cbv beta; first [critical_write | solve [repeat steady_op]].

Lemma steady_run_stages E vp : steady id (Main.run_stages E id vp).
Proof. unfold Main.run_stages. repeat steady_op. Qed.

Lemma steady_resolve_artifact E : steady id (Main.resolve_artifact E id).
Proof.
  unfold Main.resolve_artifact. apply steady_bind; [apply steady_gets|].
  intros [|ply_file ?]; repeat steady_op.
Qed.

Lemma steady_complete E vp : steady id (Main.complete E id vp).
Proof. unfold Main.complete, steady. table_chain. Qed.

Lemma steady_on_exception e : steady id (Main.on_exception id e).
Proof. unfold Main.on_exception, steady. table_chain. Qed.

Lemma steady_process_3d_generation E vp : steady id (Main.process_3d_generation E id vp).
Proof.
  unfold Main.process_3d_generation.
  eapply stretch_try; [|intros e; apply steady_on_exception].
  apply steady_bind; [apply steady_run_stages|intros ?].
  apply steady_bind; [apply steady_resolve_artifact|intros ?].
  apply steady_complete.
Qed.

Lemma steady_process_colmap E vp : steady id (Colmap.process_colmap E id vp).
Proof.
  unfold Colmap.process_colmap.
  eapply stretch_try with (X' := fun _ => apart_from id (good id));
    [|intros e; unfold steady; table_chain].
  unfold steady. table_chain.
Qed.

Lemma steady_process_gaussian_splatting E vp :
  steady id (GaussianSplatting.process_gaussian_splatting E id vp).
Proof.
  unfold GaussianSplatting.process_gaussian_splatting.
  eapply stretch_try with (X' := fun _ => apart_from id (good id));
    [|intros e; unfold steady; table_chain].
  unfold steady. table_chain.
Qed.

End Table.

(** ** The endpoints keep the table consistent *)

Lemma consistent_same_table (f : world → world) :
  (∀ w, jobs_status (f w) = jobs_status w) →
  stretch consistent consistent (modify f) (fun _ => consistent) (fun _ => consistent).
Proof.
  intros Hf. apply stretch_modify. intros w Hw id j. rewrite Hf. apply Hw.
Qed.

Lemma consistent_create_job id msg now :
  keeps consistent (create_job id msg now).
Proof.
  unfold create_job. apply stretch_modify. intros w Hw id' j.
  autorewrite with world. destruct (decide (id' = id)) as [->|Hne].
  - rewrite lookup_insert_eq. intros [= <-]. repeat split; cbn; try lia; discriminate.
  - rewrite lookup_insert_ne by congruence. apply Hw.
Qed.

Lemma consistent_delete id :
  keeps consistent
    (modify (fun w => emit (Deleted id) (set_jobs_status (delete id) w))).
Proof.
  apply stretch_modify. intros w Hw id' j. autorewrite with world.
  intros Hj. apply lookup_delete_Some in Hj as [_ Hj]. apply Hw, Hj.
Qed.

Ltac endpoint_step :=
  first [ apply consistent_create_job | apply consistent_delete
        | apply stretch_await; auto
        | apply stretch_oscheck | apply stretch_gets | apply stretch_lift
        | apply stretch_raise | apply stretch_ret
        | apply stretch_when
        | apply consistent_same_table; intros ?; reflexivity
        | eapply stretch_bind; [|intros ?] ].

Lemma keeps_main_generate_3d E file d : keeps consistent (Main.generate_3d E file d).
Proof.
  unfold Main.generate_3d, keeps, add_task.
  eapply stretch_try with (X' := fun _ => consistent);
    [|intros e; apply stretch_raise].
  eapply stretch_bind with (Q := fun _ => consistent);
    [destruct (content_type file); [apply stretch_ret | apply stretch_raise]|intros ?].
  repeat endpoint_step.
Qed.

Lemma keeps_gaussian_generate_3d E file d :
  keeps consistent (GaussianSplatting.generate_3d E file d).
Proof.
  unfold GaussianSplatting.generate_3d, keeps, add_task.
  eapply stretch_try with (X' := fun _ => consistent);
    [|intros e; apply stretch_raise].
  eapply stretch_bind with (Q := fun _ => consistent);
    [destruct (content_type file); [apply stretch_ret | apply stretch_raise]|intros ?].
  repeat endpoint_step.
Qed.

Lemma keeps_colmap_generate_3d E file d : keeps consistent (Colmap.generate_3d E file d).
Proof. unfold Colmap.generate_3d, keeps, add_task. repeat endpoint_step. Qed.

Lemma keeps_get_job_status id : keeps consistent (Main.get_job_status id).
Proof.
  unfold Main.get_job_status, keeps.
  eapply stretch_bind; [apply stretch_gets|].
  intros [j|]; [apply stretch_ret | apply stretch_raise].
Qed.

Lemma keeps_download_model filename : keeps consistent (Main.download_model filename).
Proof. unfold Main.download_model, keeps. repeat endpoint_step. Qed.

Lemma keeps_list_jobs : keeps consistent Main.list_jobs.
Proof. unfold Main.list_jobs, keeps. repeat endpoint_step. Qed.

Lemma keeps_main_delete_job E id : keeps consistent (Main.delete_job E id).
Proof.
  unfold Main.delete_job, keeps.
  eapply stretch_bind; [apply stretch_gets|].
  intros [|]; [|apply stretch_raise]. repeat endpoint_step.
Qed.

Lemma keeps_colmap_delete_job E id : keeps consistent (Colmap.delete_job E id).
Proof.
  unfold Colmap.delete_job, keeps, rmtree.
  eapply stretch_bind; [apply stretch_gets|].
  intros [|]; [|apply stretch_raise]. repeat endpoint_step.
Qed.

Lemma keeps_main_endpoint E h : main_endpoint E h → keeps consistent h.
Proof.
  intros [(file & d & ->)|[(id & ->)|[(f & ->)|[(id & ->)| ->]]]].
  - apply keeps_main_generate_3d.
  - apply keeps_get_job_status.
  - apply keeps_download_model.
  - apply keeps_main_delete_job.
  - apply keeps_list_jobs.
Qed.

Lemma keeps_colmap_endpoint E h : colmap_endpoint E h → keeps consistent h.
Proof.
  intros [(file & d & ->)|[(id & ->)|[(f & ->)|[(id & ->)| ->]]]].
  - apply keeps_colmap_generate_3d.
  - apply keeps_get_job_status.
  - apply keeps_download_model.
  - apply keeps_colmap_delete_job.
  - apply keeps_list_jobs.
Qed.

Lemma keeps_gaussian_endpoint E h : gaussian_endpoint E h → keeps consistent h.
Proof.
  intros [(file & d & ->)|[(id & ->)|(f & ->)]].
  - apply keeps_gaussian_generate_3d.
  - apply keeps_get_job_status.
  - apply keeps_download_model.
Qed.

Lemma keeps_pipeline (c : string → string → task unit) :
  (∀ id vp, steady id (c id vp)) →
  ∀ id vp, keeps consistent (c id vp).
Proof.
  intros Hc id vp. eapply stretch_conseq; [| | |apply (Hc id vp)]; cbv beta;
    intros; apply (consistent_apart_from id); assumption.
Qed.

(** ** The server *)

Section Server.

Variable Inv : world → Prop.
Variable background : string → string → task unit.
Variable allowed : task response → Prop.
Hypothesis background_keeps : ∀ id vp, keeps Inv (background id vp).
Hypothesis allowed_keeps : ∀ h, allowed h → keeps Inv h.

Lemma sound_settle_handler s r :
  sound Inv s → guarantees Inv r (fun w' _ => Inv w') →
  sound Inv (settle_handler s r).
Proof.
  intros (Hs & Hh & Hw) Hr. destruct r as [w a|w e|w k]; cbn in *.
  - repeat split; assumption.
  - repeat split; assumption.
  - destruct Hr as [Hi Hk]. repeat split; try assumption.
    apply Forall_app. split; [exact Hh|]. repeat constructor. exact Hk.
Qed.

Lemma sound_settle_worker s r :
  sound Inv s → guarantees Inv r (fun w' _ => Inv w') →
  sound Inv (settle_worker s r).
Proof.
  intros (Hs & Hh & Hw) Hr. destruct r as [w a|w e|w k]; cbn in *.
  - repeat split; assumption.
  - repeat split; assumption.
  - destruct Hr as [Hi Hk]. repeat split; try assumption.
    apply Forall_app. split; [exact Hw|]. repeat constructor. exact Hk.
Qed.

Lemma keeps_guarantees {A} (c : task A) w :
  keeps Inv c → Inv w → guarantees Inv (c w) (fun w' _ => Inv w').
Proof.
  intros Hc Hw. eapply guarantees_mono; [|apply Hc, Hw].
  intros w' [e|a] H; exact H.
Qed.

Hypothesis Inv_queue : ∀ f w, Inv w → Inv (set_background_tasks f w).

Lemma sound_step s a :
  served_by allowed a → sound Inv s → sound Inv (step background s a).
Proof.
  intros Ha Hs. destruct a as [h|i|i|i]; cbn [step].
  - apply sound_settle_handler; [exact Hs|].
    apply keeps_guarantees; [apply allowed_keeps, Ha | apply Hs].
  - destruct (handlers s !! i) as [k|] eqn:Hk; [|exact Hs].
    destruct Hs as (Hs & Hh & Hw).
    apply sound_settle_handler.
    + repeat split; try assumption. cbn. apply Forall_delete, Hh.
    + eapply Forall_lookup_1 in Hh; [|exact Hk]. apply Hh, Hs.
  - destruct (background_tasks (state s) !! i) as [[id vp]|]; [|exact Hs].
    destruct Hs as (Hs & Hh & Hw).
    apply sound_settle_worker.
    + repeat split; try assumption. cbn. apply Inv_queue, Hs.
    + apply keeps_guarantees; [apply background_keeps | apply Inv_queue, Hs].
  - destruct (workers s !! i) as [k|] eqn:Hk; [|exact Hs].
    destruct Hs as (Hs & Hh & Hw).
    apply sound_settle_worker.
    + repeat split; try assumption. cbn. apply Forall_delete, Hw.
    + eapply Forall_lookup_1 in Hw; [|exact Hk]. apply Hw, Hs.
Qed.

Lemma sound_history l : ∀ s,
  Forall (served_by allowed) l → sound Inv s →
  Forall (fun s' => Inv (state s')) (history background s l).
Proof.
  induction l as [|a l IH]; intros s Hl Hs; cbn [history].
  - repeat constructor. apply Hs.
  - inversion Hl as [|? ? Ha Hl']; subst.
    constructor; [apply Hs|]. apply IH; [exact Hl'|]. apply sound_step; assumption.
Qed.

End Server.

Lemma sound_boot : sound consistent boot.
Proof.
  split; [|split; constructor]. intros id j Hj. cbn in Hj.
  rewrite lookup_empty in Hj. discriminate.
Qed.

Lemma consistent_queue f w : consistent w → consistent (set_background_tasks f w).
Proof. intros H. exact H. Qed.

(** X23.  Whatever requests reach the routes of a backend, in whatever
    order the loop serves them and runs the background tasks, and
    whatever the tools and the file system do, every state that a
    request can see has a job table in which each record carries its
    own key as [job_id], a progress between 0 and 100, a download
    locator if it is completed and an error detail if it is failed. *)
Theorem every_visible_record_is_good E (b : backend) (l : list action) :
  Forall (served_by (endpoint E b)) l →
  Forall (fun s => consistent (state s)) (history (pipeline E b) boot l).
Proof.
  intros Hl.
  apply (sound_history consistent _ (endpoint E b)); auto using sound_boot.
  - intros id vp. apply keeps_pipeline. clear id vp. intros id vp.
    destruct b; cbn [pipeline].
    + apply steady_process_3d_generation.
    + apply steady_process_colmap.
    + apply steady_process_gaussian_splatting.
  - destruct b; cbn [endpoint].
    + apply keeps_main_endpoint.
    + apply keeps_colmap_endpoint.
    + apply keeps_gaussian_endpoint.
Qed.

Lemma every_visible_record_is_good_witness :
  Forall (served_by (endpoint Scenario.all_well main_py))
         (Scenario.submit Scenario.all_well "j1"
          ++ [Start_background 0; Resume_worker 0;
              Request (Main.get_job_status "j1");
              Request (Main.delete_job Scenario.all_well "j1");
              Resume_worker 0])
  ∧ Forall (fun s => consistent (state s))
           (history (pipeline Scenario.all_well main_py) boot
              (Scenario.submit Scenario.all_well "j1"
               ++ [Start_background 0; Resume_worker 0;
                   Request (Main.get_job_status "j1");
                   Request (Main.delete_job Scenario.all_well "j1");
                   Resume_worker 0])).
Proof.
  assert (Hl : Forall (served_by (endpoint Scenario.all_well main_py))
                 (Scenario.submit Scenario.all_well "j1"
                  ++ [Start_background 0; Resume_worker 0;
                      Request (Main.get_job_status "j1");
                      Request (Main.delete_job Scenario.all_well "j1");
                      Resume_worker 0])).
  { unfold Scenario.submit. cbn [app].
    repeat (apply Forall_cons; split; [|]); try apply Forall_nil;
      cbn [served_by endpoint]; try exact I.
    - left. eexists _, _. reflexivity.
    - right. left. eexists. reflexivity.
    - right. right. right. left. eexists. reflexivity. }
  split; [exact Hl|].
  exact (every_visible_record_is_good Scenario.all_well main_py _ Hl).
Defined.

(* ===================================================================== *)
(** * A deleted record does not come back *)
(* ===================================================================== *)

Section Lasting.

Variable Inv : world → Prop.

Lemma lasting_weaken {A} (r : res A) (b b' : Prop) :
  (b' → b) → lasting Inv b r → lasting Inv b' r.
Proof.
  intros Hb. destruct r as [w a|w e|w k]; cbn [lasting]; [tauto | tauto |].
  intros [H1 H2]. split; [tauto | exact H2].
Qed.

Lemma lasting_bind {A B} (f : A → task B) (r : res A) (b : Prop) :
  lasting Inv b r → (∀ a, maintains Inv (f a)) → lasting Inv b (res_bind f r).
Proof.
  intros Hr Hf. revert b Hr.
  induction r as [w a|w e|w k IH]; intros b Hr; cbn [res_bind lasting] in *.
  - eapply lasting_weaken; [exact Hr | apply Hf].
  - exact Hr.
  - destruct Hr as [H1 H2]. split; [exact H1|]. intros w'. apply IH, H2.
Qed.

Lemma lasting_catch {A} (h : exn → task A) (r : res A) (b : Prop) :
  lasting Inv b r → (∀ e, maintains Inv (h e)) → lasting Inv b (res_catch h r).
Proof.
  intros Hr Hh. revert b Hr.
  induction r as [w a|w e|w k IH]; intros b Hr; cbn [res_catch lasting] in *.
  - exact Hr.
  - eapply lasting_weaken; [exact Hr | apply Hh].
  - destruct Hr as [H1 H2]. split; [exact H1|]. intros w'. apply IH, H2.
Qed.

Lemma maintains_bind {A B} (c : task A) (f : A → task B) :
  maintains Inv c → (∀ a, maintains Inv (f a)) → maintains Inv (c ≫= f).
Proof. intros Hc Hf w. unfold mbind, task_bind. apply lasting_bind; [apply Hc | exact Hf]. Qed.

Lemma maintains_try {A} (c : task A) (h : exn → task A) :
  maintains Inv c → (∀ e, maintains Inv (h e)) → maintains Inv (try_except c h).
Proof. intros Hc Hh w. unfold try_except. apply lasting_catch; [apply Hc | exact Hh]. Qed.

Lemma maintains_ret {A} (a : A) : maintains Inv (mret a).
Proof. intros w H. exact H. Qed.

Lemma maintains_raise {A} (e : exn) : maintains Inv (@raise A e).
Proof. intros w H. exact H. Qed.

Lemma maintains_gets {A} (f : world → A) : maintains Inv (gets f).
Proof. intros w H. exact H. Qed.

Lemma maintains_lift {A} (x : exn + A) : maintains Inv (lift x).
Proof. destruct x; intros w H; exact H. Qed.

Lemma maintains_modify (f : world → world) :
  (∀ w, Inv w → Inv (f w)) → maintains Inv (modify f).
Proof. intros Hf w. exact (Hf w). Qed.

Lemma maintains_when (b : bool) (c : task unit) :
  maintains Inv c → maintains Inv (when b c).
Proof. intros Hc. destruct b; [exact Hc | apply maintains_ret]. Qed.

Lemma maintains_oscheck E c : maintains Inv (oscheck E c).
Proof.
  unfold oscheck. destruct (fault E c); [apply maintains_raise | apply maintains_ret].
Qed.

Lemma maintains_await : maintains Inv await.
Proof. intros w. split; [tauto|]. intros w' H. exact H. Qed.

End Lasting.

Section Gone.

Variable id : string.

(** A write to a record does not create one. *)
Lemma gone_setitem id' it : maintains (gone id) (setitem_job id' it).
Proof.
  intros w. unfold setitem_job.
  destruct (jobs_status w !! id') as [j|] eqn:Hj; cbn [lasting]; [|tauto].
  unfold gone. autorewrite with world. intros Hg.
  rewrite lookup_insert_ne; [exact Hg|]. intros ->. congruence.
Qed.

Lemma gone_same_table (f : world → world) :
  (∀ w, jobs_status (f w) = jobs_status w) → maintains (gone id) (modify f).
Proof. intros Hf. apply maintains_modify. intros w. unfold gone. rewrite Hf. tauto. Qed.

Lemma gone_delete id' :
  maintains (gone id)
    (modify (fun w => emit (Deleted id') (set_jobs_status (delete id') w))).
Proof.
  apply maintains_modify. intros w. unfold gone. autorewrite with world.
  intros Hg. apply lookup_delete_None. right. exact Hg.
Qed.

Lemma gone_create_job id' msg now :
  id' ≠ id → maintains (gone id) (create_job id' msg now).
Proof.
  intros Hne. unfold create_job. apply maintains_modify. intros w. unfold gone.
  autorewrite with world. intros Hg. rewrite lookup_insert_ne by exact Hne. exact Hg.
Qed.

Ltac gone_step :=
  lazymatch goal with
  | |- maintains _ (setitem_job _ _) => apply gone_setitem
  | |- maintains _ await => apply maintains_await
  | |- maintains _ (oscheck _ _) => apply maintains_oscheck
  | |- maintains _ (gets _) => apply maintains_gets
  | |- maintains _ (lift _) => apply maintains_lift
  | |- maintains _ (raise _) => apply maintains_raise
  | |- maintains _ (mret _) => apply maintains_ret
  | |- maintains _ (when _ _) => apply maintains_when
  | |- maintains _ (modify _) =>
      first [ apply gone_delete | apply gone_same_table; intros ?; reflexivity ]
  | |- maintains _ (mbind _ _) => apply maintains_bind; [|intros ?]
  end.

Lemma gone_makedirs E id' sub : maintains (gone id) (makedirs E id' sub).
Proof. unfold makedirs. repeat gone_step. Qed.

Lemma gone_rmtree id' : maintains (gone id) (rmtree id').
Proof. unfold rmtree. repeat gone_step. Qed.

Lemma gone_create_subprocess_exec E cmd :
  maintains (gone id) (create_subprocess_exec E cmd).
Proof. unfold create_subprocess_exec. repeat gone_step. Qed.

Lemma gone_communicate id' p : maintains (gone id) (communicate id' p).
Proof. unfold communicate, add_job_files. repeat gone_step. Qed.

Lemma gone_subprocess_run E id' cmd : maintains (gone id) (subprocess_run E id' cmd).
Proof. unfold subprocess_run, add_job_files. repeat gone_step. Qed.

Lemma gone_main_extract_frames E id' vp T :
  maintains (gone id) (Main.extract_frames E id' vp T).
Proof. unfold Main.extract_frames, add_job_files. repeat gone_step. Qed.

Lemma gone_colmap_extract_frames E id' vp fps :
  maintains (gone id) (Colmap.extract_frames E id' vp fps).
Proof. unfold Colmap.extract_frames, add_job_files. repeat gone_step. Qed.

Lemma gone_gaussian_extract_frames E id' vp fps :
  maintains (gone id) (GaussianSplatting.extract_frames E id' vp fps).
Proof. unfold GaussianSplatting.extract_frames, add_job_files. repeat gone_step. Qed.

Lemma gone_main_poll_training id' n : ∀ p, maintains (gone id) (Main.poll_training id' n p).
Proof.
  induction n as [|n IH]; intros p; cbn [Main.poll_training]; [apply maintains_ret|].
  apply maintains_bind; [apply maintains_await|intros ?].
  apply maintains_bind; [apply gone_setitem|intros ?].
  apply maintains_bind; [apply maintains_await|intros ?].
  apply IH.
Qed.

Lemma gone_gaussian_poll_training id' n : ∀ p,
  maintains (gone id) (GaussianSplatting.poll_training id' n p).
Proof.
  induction n as [|n IH]; intros p; cbn [GaussianSplatting.poll_training];
    [apply maintains_ret|].
  apply maintains_bind; [apply maintains_await|intros ?].
  apply maintains_bind; [apply gone_setitem|intros ?].
  apply maintains_bind; [apply maintains_await|intros ?].
  apply IH.
Qed.

Ltac gone_op :=
  lazymatch goal with
  | |- maintains _ (makedirs _ _ _) => apply gone_makedirs
  | |- maintains _ (rmtree _) => apply gone_rmtree
  | |- maintains _ (create_subprocess_exec _ _) => apply gone_create_subprocess_exec
  | |- maintains _ (communicate _ _) => apply gone_communicate
  | |- maintains _ (subprocess_run _ _ _) => apply gone_subprocess_run
  | |- maintains _ (Main.extract_frames _ _ _ _) => apply gone_main_extract_frames
  | |- maintains _ (Colmap.extract_frames _ _ _ _) => apply gone_colmap_extract_frames
  | |- maintains _ (GaussianSplatting.extract_frames _ _ _ _) =>
      apply gone_gaussian_extract_frames
  | |- maintains _ (Main.poll_training _ _ _) => apply gone_main_poll_training
  | |- maintains _ (GaussianSplatting.poll_training _ _ _) =>
      apply gone_gaussian_poll_training
  | |- _ => gone_step
  end.

Lemma gone_run_stages E id' vp : maintains (gone id) (Main.run_stages E id' vp).
Proof. unfold Main.run_stages. repeat gone_op. Qed.

Lemma gone_resolve_artifact E id' : maintains (gone id) (Main.resolve_artifact E id').
Proof.
  unfold Main.resolve_artifact. apply maintains_bind; [apply maintains_gets|].
  intros [|ply_file ?]; repeat gone_op.
Qed.

Lemma gone_complete E id' vp : maintains (gone id) (Main.complete E id' vp).
Proof. unfold Main.complete. repeat gone_op. Qed.

Lemma gone_on_exception id' e : maintains (gone id) (Main.on_exception id' e).
Proof. unfold Main.on_exception. repeat gone_op. Qed.

(** No pipeline creates a record. *)
Lemma gone_process_3d_generation E id' vp :
  maintains (gone id) (Main.process_3d_generation E id' vp).
Proof.
  unfold Main.process_3d_generation.
  apply maintains_try; [|intros e; apply gone_on_exception].
  apply maintains_bind; [apply gone_run_stages|intros ?].
  apply maintains_bind; [apply gone_resolve_artifact|intros ?].
  apply gone_complete.
Qed.

Lemma gone_process_colmap E id' vp :
  maintains (gone id) (Colmap.process_colmap E id' vp).
Proof.
  unfold Colmap.process_colmap.
  apply maintains_try; [|intros e; repeat gone_op].
  repeat gone_op.
Qed.

Lemma gone_process_gaussian_splatting E id' vp :
  maintains (gone id) (GaussianSplatting.process_gaussian_splatting E id' vp).
Proof.
  unfold GaussianSplatting.process_gaussian_splatting.
  apply maintains_try; [|intros e; repeat gone_op].
  repeat gone_op.
Qed.

Lemma gone_pipeline E b id' vp : maintains (gone id) (pipeline E b id' vp).
Proof.
  destruct b; cbn [pipeline].
  - apply gone_process_3d_generation.
  - apply gone_process_colmap.
  - apply gone_process_gaussian_splatting.
Qed.

End Gone.

(** ** The endpoints *)

Section GoneEndpoints.

Variable id : string.

Ltac gone_step :=
  lazymatch goal with
  | |- maintains _ (setitem_job _ _) => apply gone_setitem
  | |- maintains _ await => apply maintains_await
  | |- maintains _ (oscheck _ _) => apply maintains_oscheck
  | |- maintains _ (gets _) => apply maintains_gets
  | |- maintains _ (lift _) => apply maintains_lift
  | |- maintains _ (raise _) => apply maintains_raise
  | |- maintains _ (mret _) => apply maintains_ret
  | |- maintains _ (when _ _) => apply maintains_when
  | |- maintains _ (create_job _ _ _) => apply gone_create_job; assumption
  | |- maintains _ (rmtree _) => apply gone_rmtree
  | |- maintains _ (modify _) =>
      first [ apply gone_delete | apply gone_same_table; intros ?; reflexivity ]
  | |- maintains _ (mbind _ _) => apply maintains_bind; [|intros ?]
  end.

Lemma gone_main_generate_3d E file d :
  uuid4 d ≠ id → maintains (gone id) (Main.generate_3d E file d).
Proof.
  intros Hne. unfold Main.generate_3d, add_task.
  apply maintains_try; [|intros e; apply maintains_raise].
  apply maintains_bind;
    [destruct (content_type file); [apply maintains_ret | apply maintains_raise]|intros ?].
  repeat gone_step.
Qed.

Lemma gone_gaussian_generate_3d E file d :
  uuid4 d ≠ id → maintains (gone id) (GaussianSplatting.generate_3d E file d).
Proof.
  intros Hne. unfold GaussianSplatting.generate_3d, add_task.
  apply maintains_try; [|intros e; apply maintains_raise].
  apply maintains_bind;
    [destruct (content_type file); [apply maintains_ret | apply maintains_raise]|intros ?].
  repeat gone_step.
Qed.

Lemma gone_colmap_generate_3d E file d :
  uuid4 d ≠ id → maintains (gone id) (Colmap.generate_3d E file d).
Proof. intros Hne. unfold Colmap.generate_3d, add_task. repeat gone_step. Qed.

Lemma gone_get_job_status id' : maintains (gone id) (Main.get_job_status id').
Proof.
  unfold Main.get_job_status. apply maintains_bind; [apply maintains_gets|].
  intros [j|]; [apply maintains_ret | apply maintains_raise].
Qed.

Lemma gone_download_model filename : maintains (gone id) (Main.download_model filename).
Proof. unfold Main.download_model. repeat gone_step. Qed.

Lemma gone_list_jobs : maintains (gone id) Main.list_jobs.
Proof. unfold Main.list_jobs. repeat gone_step. Qed.

Lemma gone_main_delete_job E id' : maintains (gone id) (Main.delete_job E id').
Proof.
  unfold Main.delete_job. apply maintains_bind; [apply maintains_gets|].
  intros [|]; [|apply maintains_raise]. repeat gone_step.
Qed.

Lemma gone_colmap_delete_job E id' : maintains (gone id) (Colmap.delete_job E id').
Proof.
  unfold Colmap.delete_job. apply maintains_bind; [apply maintains_gets|].
  intros [|]; [|apply maintains_raise]. repeat gone_step.
Qed.

Lemma gone_endpoint E b h :
  endpoint_but_upload_of E b id h → maintains (gone id) h.
Proof.
  intros [Hh Hup].
  assert (Hdraw : ∀ d : draw, uuid4 d = id → ∃ ts, d = Draw id ts).
  { intros [i ts] Hi. cbn in Hi. subst i. exists ts. reflexivity. }
  destruct b; cbn [endpoint] in Hh.
  - destruct Hh as [(file & d & ->)|[(id' & ->)|[(f & ->)|[(id' & ->)| ->]]]].
    + apply gone_main_generate_3d. intros Hd. apply Hup.
      destruct (Hdraw d Hd) as (ts & ->). exists file, ts. reflexivity.
    + apply gone_get_job_status.
    + apply gone_download_model.
    + apply gone_main_delete_job.
    + apply gone_list_jobs.
  - destruct Hh as [(file & d & ->)|[(id' & ->)|[(f & ->)|[(id' & ->)| ->]]]].
    + apply gone_colmap_generate_3d. intros Hd. apply Hup.
      destruct (Hdraw d Hd) as (ts & ->). exists file, ts. reflexivity.
    + apply gone_get_job_status.
    + apply gone_download_model.
    + apply gone_colmap_delete_job.
    + apply gone_list_jobs.
  - destruct Hh as [(file & d & ->)|[(id' & ->)|(f & ->)]].
    + apply gone_gaussian_generate_3d. intros Hd. apply Hup.
      destruct (Hdraw d Hd) as (ts & ->). exists file, ts. reflexivity.
    + apply gone_get_job_status.
    + apply gone_download_model.
Qed.

End GoneEndpoints.

(** ** The server *)

Section Unbroken.

Variable Inv : world → Prop.
Variable background : string → string → task unit.
Hypothesis background_maintains : ∀ id vp, maintains Inv (background id vp).
Hypothesis Inv_queue : ∀ f w, Inv w → Inv (set_background_tasks f w).

Lemma unbroken_settle_worker s (r : res unit) b :
  lasting Inv b r → Forall (unbroken Inv) (workers s) →
  Forall (unbroken Inv) (workers (settle_worker s r))
  ∧ handlers (settle_worker s r) = handlers s
  ∧ (b → Inv (state (settle_worker s r))).
Proof.
  intros Hr Hw. destruct r as [w a|w e|w k]; cbn in *; [auto | auto |].
  destruct Hr as [H1 H2]. split; [|auto].
  apply Forall_app. split; [exact Hw|]. repeat constructor. exact H2.
Qed.

Lemma unbroken_settle_handler s (r : res response) b :
  lasting Inv b r → Forall (unbroken Inv) (handlers s) →
  Forall (unbroken Inv) (handlers (settle_handler s r))
  ∧ workers (settle_handler s r) = workers s
  ∧ (b → Inv (state (settle_handler s r))).
Proof.
  intros Hr Hh. destruct r as [w a|w e|w k]; cbn in *; [auto | auto |].
  destruct Hr as [H1 H2]. split; [|auto].
  apply Forall_app. split; [exact Hh|]. repeat constructor. exact H2.
Qed.

(** Whatever the requests are, the background tasks in flight are
    stretches of the pipeline. *)
Lemma unbroken_workers_step s a :
  Forall (unbroken Inv) (workers s) →
  Forall (unbroken Inv) (workers (step background s a)).
Proof.
  intros Hw. destruct a as [h|i|i|i]; cbn [step].
  - destruct (h (state s)); exact Hw.
  - destruct (handlers s !! i) as [k|]; [|exact Hw]. destruct (k (state s)); exact Hw.
  - destruct (background_tasks (state s) !! i) as [[id vp]|]; [|exact Hw].
    eapply unbroken_settle_worker; [apply background_maintains | exact Hw].
  - destruct (workers s !! i) as [k|] eqn:Hk; [|exact Hw].
    eapply unbroken_settle_worker.
    + eapply Forall_lookup_1 in Hw; [|exact Hk]. apply Hw.
    + cbn. apply Forall_delete, Hw.
Qed.

Lemma unbroken_workers_steps l : ∀ s,
  Forall (unbroken Inv) (workers s) →
  Forall (unbroken Inv) (workers (steps background s l)).
Proof.
  induction l as [|a l IH]; intros s Hw; [exact Hw|].
  apply IH, unbroken_workers_step, Hw.
Qed.

Variable allowed : task response → Prop.
Hypothesis allowed_maintains : ∀ h, allowed h → maintains Inv h.

Lemma unbroken_step s a :
  served_by allowed a →
  Forall (unbroken Inv) (handlers s) → Forall (unbroken Inv) (workers s) →
  Inv (state s) →
  Forall (unbroken Inv) (handlers (step background s a))
  ∧ Forall (unbroken Inv) (workers (step background s a))
  ∧ Inv (state (step background s a)).
Proof.
  intros Ha Hh Hw Hs.
  split; [|split; [apply unbroken_workers_step, Hw|]];
    destruct a as [h|i|i|i]; cbn [step].
  - eapply unbroken_settle_handler; [apply (allowed_maintains h Ha) | exact Hh].
  - destruct (handlers s !! i) as [k|] eqn:Hk; [|exact Hh].
    eapply unbroken_settle_handler.
    + eapply Forall_lookup_1 in Hh; [|exact Hk]. apply Hh.
    + cbn. apply Forall_delete, Hh.
  - destruct (background_tasks (state s) !! i) as [[id vp]|]; [|exact Hh].
    destruct (background id vp (set_background_tasks (delete i) (state s))); exact Hh.
  - destruct (workers s !! i) as [k|] eqn:Hk; [|exact Hh].
    destruct (k (state s)); exact Hh.
  - eapply unbroken_settle_handler;
      [apply (allowed_maintains h Ha) | exact Hh | exact Hs].
  - destruct (handlers s !! i) as [k|] eqn:Hk; [|exact Hs].
    eapply unbroken_settle_handler.
    + eapply Forall_lookup_1 in Hh; [|exact Hk]. apply Hh.
    + cbn. apply Forall_delete, Hh.
    + exact Hs.
  - destruct (background_tasks (state s) !! i) as [[id vp]|]; [|exact Hs].
    eapply unbroken_settle_worker.
    + apply background_maintains.
    + exact Hw.
    + apply Inv_queue, Hs.
  - destruct (workers s !! i) as [k|] eqn:Hk; [|exact Hs].
    eapply unbroken_settle_worker.
    + eapply Forall_lookup_1 in Hw; [|exact Hk]. apply Hw.
    + cbn. apply Forall_delete, Hw.
    + exact Hs.
Qed.

Lemma unbroken_history l : ∀ s,
  Forall (served_by allowed) l →
  Forall (unbroken Inv) (handlers s) → Forall (unbroken Inv) (workers s) →
  Inv (state s) →
  Forall (fun s' => Inv (state s')) (history background s l).
Proof.
  induction l as [|a l IH]; intros s Hl Hh Hw Hs; cbn [history].
  - repeat constructor. exact Hs.
  - inversion Hl as [|? ? Ha Hl']; subst.
    constructor; [exact Hs|].
    destruct (unbroken_step s a Ha Hh Hw Hs) as (Hh' & Hw' & Hs').
    apply IH; assumption.
Qed.

End Unbroken.

(** X24.  A record that is gone stays gone.  Take any past of the
    server, whatever its requests and its schedule, after which no
    request is in flight and job [id] has no record, as right after a
    [DELETE]; then through any further requests to the routes of the
    backend, an upload that draws [id] again apart, and any schedule of
    the handlers and of the background tasks, those started before and
    still running included, job [id] has no record in any state and
    the status query answers 404.  No pipeline creates a record: one
    that is still running when its job is deleted can write the
    artifact again, and cannot bring the record back. *)
Theorem deleted_record_never_returns E (b : backend) (id : string)
    (past future : list action) :
  handlers (steps (pipeline E b) boot past) = [] →
  jobs_status (state (steps (pipeline E b) boot past)) !! id = None →
  Forall (served_by (endpoint_but_upload_of E b id)) future →
  Forall (fun s =>
            jobs_status (state s) !! id = None
            ∧ Main.get_job_status id (state s)
              = Raised (state s) (HTTPException 404 "Job non trouvé"))
         (history (pipeline E b) (steps (pipeline E b) boot past) future).
Proof.
  intros Hh Hg Hl.
  assert (H : Forall (fun s => gone id (state s))
                (history (pipeline E b) (steps (pipeline E b) boot past) future)).
  { apply (unbroken_history (gone id) (pipeline E b)) with
      (allowed := endpoint_but_upload_of E b id).
    - intros id' vp. apply gone_pipeline.
    - intros f w Hw. exact Hw.
    - intros h. apply gone_endpoint.
    - exact Hl.
    - rewrite Hh. constructor.
    - apply unbroken_workers_steps.
      + intros id' vp. apply gone_pipeline.
      + constructor.
    - exact Hg. }
  eapply Forall_impl; [exact H|]. intros s Hs. split; [exact Hs|].
  unfold Main.get_job_status, mbind, task_bind, gets. cbn [res_bind].
  unfold gone in Hs. rewrite Hs. reflexivity.
Qed.

(** A status query is no upload: on the empty table the one answers 404
    and the other answers 500 or is reading the file. *)
Lemma status_query_is_no_upload E id id' :
  ¬ upload_of E main_py id (Main.get_job_status id').
Proof.
  intros (file & ts & Heq).
  apply (f_equal (fun h => h empty_world)) in Heq. revert Heq.
  unfold Main.get_job_status, Main.generate_3d, try_except, oscheck, when, add_task,
    create_job.
  unfold mbind, task_bind, mret, task_ret, gets, raise, modify, await.
  cbn [res_bind res_catch uuid4 now].
  replace (jobs_status empty_world !! id') with (@None job) by reflexivity.
  destruct (content_type file) as [ct|]; cbn [res_bind res_catch]; [|discriminate].
  destruct (startswith ct "video/"); cbn [negb res_bind res_catch]; [|discriminate].
  destruct (fault E _); cbn [res_bind res_catch]; discriminate.
Qed.

Lemma deleted_record_never_returns_witness :
  Forall (fun s =>
            jobs_status (state s) !! "j1" = None
            ∧ Main.get_job_status "j1" (state s)
              = Raised (state s) (HTTPException 404 "Job non trouvé"))
         (history (pipeline Scenario.all_well main_py)
            (steps (pipeline Scenario.all_well main_py) boot
               (deleted_during_export Scenario.all_well))
            [Resume_worker 0; Request (Main.get_job_status "j1")])
  ∧ "j1.ply" ∈ OUTPUT_DIR
      (state (steps (pipeline Scenario.all_well main_py) boot
                (deleted_during_export Scenario.all_well ++ [Resume_worker 0]))).
Proof.
  split; [|vm_compute; apply list_elem_of_here].
  apply (deleted_record_never_returns Scenario.all_well main_py "j1"
           (deleted_during_export Scenario.all_well)
           [Resume_worker 0; Request (Main.get_job_status "j1")]).
  - vm_compute. reflexivity.
  - vm_compute. reflexivity.
  - apply Forall_cons. split; [exact I|].
    apply Forall_cons. split; [|apply Forall_nil_2].
    cbn [served_by]. split.
    + cbn [endpoint]. right. left. exists "j1". reflexivity.
    + apply status_query_is_no_upload.
Defined.
